(** * ENEM preprocessing pipeline: a shallow embedding of
      [src/data/preprocessing.py]

    The module under study is a five-stage pandas pipeline:
    [optimize_dtypes], [map_categories], [handle_missing_values],
    [validate_data] and [create_derived_features].  Every stage receives the
    table by reference, mutates some of its columns in place and returns it.

    The embedding has three layers.

    - Numbers and cells: integers are [Z], floating-point cells are IEEE
      binary64 values ([PrimFloat.float]) whose NaN is the missing value of a
      float column; a float32 column holds binary64 values that are rounded to
      single precision after every operation.
    - A fragment of pandas 2.x ([Module Pd]): typed columns, tables, and the
      column operations the pipeline calls ([astype], [map], [fillna],
      [select_dtypes], [mean], [median], [mode], comparisons, boolean
      indexing, row-wise reductions).  Operations that raise in pandas return
      [Raise].
    - The five stages, written in a state-and-exception monad over the table
      and the log, statement by statement as in the Python source. *)

From Stdlib Require Import ZArith List String Ascii Bool Lia Floats.
From Stdlib Require Import Decimal DecimalString.
Import ListNotations.
Local Open Scope string_scope.
Local Open Scope list_scope.

(** ** Floating-point helpers *)

Module Fl.

Local Open Scope float_scope.

(** Conversion of an integer, rounded to nearest even (C's [(double) z]). *)
Definition of_Z (z : Z) : float :=
  SF2Prim (binary_normalize prec emax z 0%Z false).

(** Truncation toward zero of a finite float; [None] for NaN and the
    infinities. *)
Definition trunc (f : float) : option Z :=
  match Prim2SF f with
  | S754_zero _ => Some 0%Z
  | S754_finite s m e =>
      let a := match e with
               | Zneg k => Z.shiftr (Zpos m) (Zpos k)
               | _ => Z.shiftl (Zpos m) e
               end in
      Some (if s then Z.opp a else a)
  | _ => None
  end.

(** The integer a float is exactly equal to, if any (Python's [1.0 == 1]). *)
Definition to_Z_exact (f : float) : option Z :=
  match trunc f with
  | Some z => if of_Z z =? f then Some z else None
  | None => None
  end.

(** Rounding of a binary64 value to the nearest binary32 value (the result
    is again stored as a binary64). *)
Definition narrow32 (f : float) : float :=
  match Prim2SF f with
  | S754_finite s m e =>
      SF2Prim (binary_normalize 24 128 (if s then Zneg m else Zpos m) e s)
  | _ => f
  end.

Definition notnan (f : float) : bool := negb (is_nan f).

End Fl.

(** ** Cells, columns and tables *)

(** A Python scalar as it may sit in a cell or serve as a dictionary key. *)
Inductive scalar : Type :=
| Int (z : Z)
| Flt (f : float)
| Str (s : string)
| NoneV.

(** [np.nan]. *)
Definition NaN : scalar := Flt nan.

(** [pd.isna] on a scalar: [None] and the float NaN are missing. *)
Definition isna (v : scalar) : bool :=
  match v with
  | Flt f => is_nan f
  | NoneV => true
  | _ => false
  end.

Definition notna (v : scalar) : bool := negb (isna v).

(** Python's [==] between scalars, as a dictionary or an index lookup sees it:
    an integer equals the float of the same value. *)
Definition py_eqb (a b : scalar) : bool :=
  match a, b with
  | Int x, Int y => Z.eqb x y
  | Flt x, Flt y => PrimFloat.eqb x y
  | Int x, Flt y | Flt y, Int x =>
      match Fl.to_Z_exact y with Some z => Z.eqb x z | None => false end
  | Str x, Str y => String.eqb x y
  | NoneV, NoneV => true
  | _, _ => false
  end.

Inductive iwidth : Type := W8 | W16 | W32 | W64.
Inductive fprec : Type := F32 | F64.

(** The dtypes the pipeline meets: numpy integers and floats, pandas'
    [category], and [object]. *)
Inductive dtype : Type :=
| DInt (w : iwidth)
| DFloat (p : fprec)
| DCategory
| DObject.

Abbreviation int8 := (DInt W8).
Abbreviation int16 := (DInt W16).
Abbreviation int32 := (DInt W32).
Abbreviation int64 := (DInt W64).
Abbreviation float32 := (DFloat F32).
Abbreviation float64 := (DFloat F64).
Abbreviation category := DCategory.
Abbreviation object := DObject.

Definition iwidth_eqb (a b : iwidth) : bool :=
  match a, b with
  | W8, W8 | W16, W16 | W32, W32 | W64, W64 => true
  | _, _ => false
  end.

Definition fprec_eqb (a b : fprec) : bool :=
  match a, b with
  | F32, F32 | F64, F64 => true
  | _, _ => false
  end.

Definition dtype_eqb (a b : dtype) : bool :=
  match a, b with
  | DInt x, DInt y => iwidth_eqb x y
  | DFloat x, DFloat y => fprec_eqb x y
  | DCategory, DCategory | DObject, DObject => true
  | _, _ => false
  end.

(** [str(dtype)], as it appears in log messages. *)
Definition dtype_name (d : dtype) : string :=
  match d with
  | int8 => "int8" | int16 => "int16" | int32 => "int32" | int64 => "int64"
  | float32 => "float32" | float64 => "float64"
  | category => "category" | object => "object"
  end.

(** A column.  An integer column cannot hold a missing value; a float column
    holds NaN for one; [category] and [object] columns hold arbitrary scalars.
    The categories of a [category] column are its distinct non-missing
    values, as [astype('category')] infers them. *)
Inductive Series : Type :=
| IntCol (w : iwidth) (xs : list Z)
| FloatCol (p : fprec) (xs : list float)
| CatCol (xs : list scalar)
| ObjectCol (xs : list scalar).

Definition dtype_of (s : Series) : dtype :=
  match s with
  | IntCol w _ => DInt w
  | FloatCol p _ => DFloat p
  | CatCol _ => category
  | ObjectCol _ => object
  end.

(** The cells of a column as Python scalars. *)
Definition values (s : Series) : list scalar :=
  match s with
  | IntCol _ xs => map Int xs
  | FloatCol _ xs => map Flt xs
  | CatCol xs | ObjectCol xs => xs
  end.

(** [len(series)]. *)
Definition len (s : Series) : nat := List.length (values s).

(** A table: named columns, in order.  Column names are unique in a
    well-formed table. *)
Definition DataFrame : Type := list (string * Series).

Definition columns (df : DataFrame) : list string := map fst df.

Definition well_formed (df : DataFrame) : Prop := NoDup (columns df).

(** [col in df.columns]. *)
Definition has_col (df : DataFrame) (col : string) : bool :=
  existsb (String.eqb col) (columns df).

(** [df[col]]. *)
Fixpoint get_col (df : DataFrame) (col : string) : option Series :=
  match df with
  | [] => None
  | (c, s) :: rest => if String.eqb col c then Some s else get_col rest col
  end.

(** [df[col] = s]: replace the column in place, or append a new one. *)
Fixpoint set_col (df : DataFrame) (col : string) (s : Series) : DataFrame :=
  match df with
  | [] => [(col, s)]
  | (c, s0) :: rest =>
      if String.eqb col c then (c, s) :: rest
      else (c, s0) :: set_col rest col s
  end.

(** ** Exceptions, results and the effect monad *)

Inductive exn : Type :=
| TypeError (msg : string)
| ValueError (msg : string)
| KeyError (msg : string)
| OverflowError (msg : string).

(** [str(e)]. *)
Definition exn_str (e : exn) : string :=
  match e with
  | TypeError m | ValueError m | KeyError m | OverflowError m => m
  end.

Inductive result (A : Type) : Type :=
| Ok (a : A)
| Raise (e : exn).
Arguments Ok {A} a.
Arguments Raise {A} e.

Definition rbind {A B} (r : result A) (k : A -> result B) : result B :=
  match r with
  | Ok a => k a
  | Raise e => Raise e
  end.

(** Apply a fallible function to every element, stopping at the first
    exception. *)
Fixpoint traverse {A B} (f : A -> result B) (xs : list A) : result (list B) :=
  match xs with
  | [] => Ok []
  | x :: rest =>
      rbind (f x) (fun y => rbind (traverse f rest) (fun ys => Ok (y :: ys)))
  end.

Inductive level : Type := INFO | WARNING.

(** What a stage can touch: the table it was handed, and the log.  The module
    configures logging at level INFO, so [logger.debug] calls emit nothing. *)
Record World : Type := mkWorld {
  frame : DataFrame;
  log : list (level * string)
}.

(** A computation reads and updates the world and either returns or raises;
    the world it leaves behind is kept in both cases. *)
Definition M (A : Type) : Type := World -> result A * World.

Definition ret {A} (a : A) : M A := fun w => (Ok a, w).

Definition bind {A B} (m : M A) (k : A -> M B) : M B :=
  fun w =>
    match m w with
    | (Ok a, w') => k a w'
    | (Raise e, w') => (Raise e, w')
    end.

Declare Scope py_scope.
Delimit Scope py_scope with py.
Notation "x <- m ;; k" := (bind m (fun x => k))
  (at level 61, m at next level, right associativity) : py_scope.
Notation "m ;; k" := (bind m (fun _ => k))
  (at level 61, right associativity) : py_scope.
Local Open Scope py_scope.

(** An expression that may raise. *)
Definition lift {A} (r : result A) : M A := fun w => (r, w).

(** [try: body except Exception as e: handler(e)]. *)
Definition try_except {A} (body : M A) (handler : exn -> M A) : M A :=
  fun w =>
    match body w with
    | (Ok a, w') => (Ok a, w')
    | (Raise e, w') => handler e w'
    end.

(** [for x in xs: body(x)]. *)
Fixpoint for_each {A} (xs : list A) (body : A -> M unit) : M unit :=
  match xs with
  | [] => ret tt
  | x :: rest => body x ;; for_each rest body
  end.

Definition logger_info (msg : string) : M unit :=
  fun w => (Ok tt, mkWorld (frame w) (log w ++ [(INFO, msg)])).

Definition logger_warning (msg : string) : M unit :=
  fun w => (Ok tt, mkWorld (frame w) (log w ++ [(WARNING, msg)])).

(** Below the configured level: nothing is emitted. *)
Definition logger_debug : M unit := ret tt.

(** [df.columns]. *)
Definition df_columns : M (list string) := fun w => (Ok (columns (frame w)), w).

(** The table itself, for expressions that read it whole. *)
Definition the_frame : M DataFrame := fun w => (Ok (frame w), w).

(** [df[col]] as an expression. *)
Definition getitem (col : string) : M Series :=
  fun w =>
    match get_col (frame w) col with
    | Some s => (Ok s, w)
    | None => (Raise (KeyError col), w)
    end.

(** [df[col] = s] as a statement. *)
Definition setitem (col : string) (s : Series) : M unit :=
  fun w => (Ok tt, mkWorld (set_col (frame w) col s) (log w)).

(** Run a stage on a table with an empty log. *)
Definition run {A} (m : M A) (df : DataFrame) : result A * World :=
  m (mkWorld df []).

(** The table a stage leaves behind. *)
Definition frame_after {A} (m : M A) (df : DataFrame) : DataFrame :=
  frame (snd (run m df)).

(** ** The pandas fragment *)

Module Pd.

Local Open Scope float_scope.

Definition bits (w : iwidth) : Z :=
  match w with W8 => 8 | W16 => 16 | W32 => 32 | W64 => 64 end.

Definition in_range (w : iwidth) (z : Z) : bool :=
  ((- 2 ^ (bits w - 1) <=? z) && (z <? 2 ^ (bits w - 1)))%Z.

(** numpy's integer-to-integer cast: two's complement wrap-around to the
    target width, without any error. *)
Definition wrap (w : iwidth) (z : Z) : Z :=
  ((z + 2 ^ (bits w - 1)) mod 2 ^ bits w - 2 ^ (bits w - 1))%Z.

(** Rounding to the precision of a float column. *)
Definition fround (p : fprec) (f : float) : float :=
  match p with F32 => Fl.narrow32 f | F64 => f end.

(** *** [Series.isnull], [Series.notna] *)

Definition isnull (s : Series) : list bool := map isna (values s).

Definition notna_mask (s : Series) : list bool := map notna (values s).

(** [mask.any()]. *)
Definition any (mask : list bool) : bool := existsb (fun b => b) mask.

(** *** [Series.astype] *)

Section Builtins.

(** Python's built-in [int(str)] and [float(str)]; [None] stands for the
    [ValueError] they raise on text that is not a number. *)
Variable int_of_str : string -> option Z.
Variable float_of_str : string -> option float.

(** One object cell to a numpy integer of width [w]: Python's [int()]
    followed by numpy's bounds check on Python integers. *)
Definition cell_to_int (w : iwidth) (v : scalar) : result Z :=
  let checked (z : Z) :=
    if in_range w z then Ok z
    else Raise (OverflowError "Python integer out of bounds") in
  match v with
  | Int z => checked z
  | Flt f =>
      match Fl.trunc f with
      | Some z => checked z
      | None => Raise (ValueError "cannot convert float NaN to integer")
      end
  | Str s =>
      match int_of_str s with
      | Some z => checked z
      | None => Raise (ValueError "invalid literal for int() with base 10")
      end
  | NoneV => Raise (TypeError "int() argument must be a string or a real number, not 'NoneType'")
  end.

(** One object cell to a float: [None] becomes NaN. *)
Definition cell_to_float (v : scalar) : result float :=
  match v with
  | Int z => Ok (Fl.of_Z z)
  | Flt f => Ok f
  | Str s =>
      match float_of_str s with
      | Some f => Ok f
      | None => Raise (ValueError "could not convert string to float")
      end
  | NoneV => Ok nan
  end.

Definition astype_int (target : dtype) (xs : list Z) : Series :=
  match target with
  | DInt w => IntCol w (map (wrap w) xs)
  | DFloat p => FloatCol p (map (fun z => fround p (Fl.of_Z z)) xs)
  | category => CatCol (map Int xs)
  | object => ObjectCol (map Int xs)
  end.

(** A float column goes to an integer type only if all its values are
    finite; the cast itself truncates toward zero and does not check the
    range. *)
Definition astype_float (target : dtype) (xs : list float) : result Series :=
  match target with
  | DInt w =>
      if forallb is_finite xs then
        Ok (IntCol w (map (fun f => match Fl.trunc f with
                                    | Some z => wrap w z
                                    | None => 0%Z
                                    end) xs))
      else Raise (ValueError "Cannot convert non-finite values (NA or inf) to integer")
  | DFloat p => Ok (FloatCol p (map (fround p) xs))
  | category => Ok (CatCol (map Flt xs))
  | object => Ok (ObjectCol (map Flt xs))
  end.

Definition astype_object (target : dtype) (xs : list scalar) : result Series :=
  match target with
  | DInt w => rbind (traverse (cell_to_int w) xs) (fun zs => Ok (IntCol w zs))
  | DFloat p =>
      rbind (traverse cell_to_float xs)
            (fun fs => Ok (FloatCol p (map (fround p) fs)))
  | category => Ok (CatCol xs)
  | object => Ok (ObjectCol xs)
  end.

Definition is_int_cell (v : scalar) : bool :=
  match v with Int _ => true | _ => false end.

Definition is_float_cell (v : scalar) : bool :=
  match v with Flt _ => true | _ => false end.

(** A categorical is cast through the array of its categories: integer
    categories as an int64 array, float categories as a float64 array,
    anything else as objects.  Missing cells cannot go to an integer
    type. *)
Definition astype_cat (target : dtype) (xs : list scalar) : result Series :=
  match target with
  | category => Ok (CatCol xs)
  | object => Ok (ObjectCol xs)
  | DInt _ | DFloat _ =>
      if match target with DInt _ => existsb isna xs | _ => false end then
        Raise (ValueError "Cannot convert float NaN to integer")
      else if forallb is_int_cell xs then
        Ok (astype_int target
              (map (fun v => match v with Int z => z | _ => 0%Z end) xs))
      else if forallb (fun v => is_float_cell v || isna v) xs then
        astype_float target
          (map (fun v => match v with Flt f => f | _ => nan end) xs)
      else
        match astype_object target xs with
        | Raise (TypeError _) | Raise (ValueError _) =>
            Raise (ValueError ("Cannot cast object dtype to " ++ dtype_name target))
        | r => r
        end
  end.

(** [series.astype(target)].  Casting to the dtype the column already has
    returns it as it is. *)
Definition astype (target : dtype) (s : Series) : result Series :=
  if dtype_eqb (dtype_of s) target then Ok s
  else
    match s with
    | IntCol _ xs => Ok (astype_int target xs)
    | FloatCol _ xs => astype_float target xs
    | ObjectCol xs => astype_object target xs
    | CatCol xs => astype_cat target xs
    end.

End Builtins.

(** *** [Series.map(dict)] and [Series.fillna(value)] *)

(** A Python dict with label values, in insertion order. *)
Definition pydict : Type := list (scalar * string).

(** [d.get(v)]. *)
Definition dict_get (d : pydict) (v : scalar) : option string :=
  match find (fun kv => py_eqb (fst kv) v) d with
  | Some (_, l) => Some l
  | None => None
  end.

Definition labels (d : pydict) : list string := map snd d.

(** Element-wise lookup; a value without an entry becomes NaN. *)
Definition lookup_cell (d : pydict) (v : scalar) : scalar :=
  if isna v then NaN
  else match dict_get d v with
       | Some l => Str l
       | None => NaN
       end.

(** Distinct values, first occurrences kept. *)
Fixpoint unique (xs : list scalar) : list scalar :=
  match xs with
  | [] => []
  | x :: rest => x :: filter (fun y => negb (py_eqb x y)) (unique rest)
  end.

(** The categories of a categorical column. *)
Definition categories (xs : list scalar) : list scalar :=
  unique (filter notna xs).

Fixpoint distinct_strings (ls : list string) : bool :=
  match ls with
  | [] => true
  | l :: rest => negb (existsb (String.eqb l) rest) && distinct_strings rest
  end.

(** [series.map(d)].  A non-categorical column is looked up cell by cell
    and the result is an object column.  A categorical column has its
    categories mapped instead: when every category has an entry and the
    images are distinct, the result is again categorical (missing cells stay
    missing); otherwise it falls back to the cell-wise object result. *)
Definition map_dict (d : pydict) (s : Series) : Series :=
  match s with
  | CatCol xs =>
      let cats := categories xs in
      if forallb (fun c => match dict_get d c with Some _ => true | None => false end) cats
         && distinct_strings (map (fun c => match dict_get d c with
                                            | Some l => l
                                            | None => ""
                                            end) cats)
      then CatCol (map (lookup_cell d) xs)
      else ObjectCol (map (lookup_cell d) xs)
  | _ => ObjectCol (map (lookup_cell d) (values s))
  end.

Definition fill_cell (value : scalar) (v : scalar) : scalar :=
  if isna v then value else v.

Definition scalar_to_float (v : scalar) : option float :=
  match v with
  | Int z => Some (Fl.of_Z z)
  | Flt f => Some f
  | _ => None
  end.

(** [series.fillna(value)].
    - A float column filled with a number keeps its dtype when the number
      fits its precision and is widened to float64 otherwise; filled with
      text it becomes an object column.
    - A categorical column accepts only one of its categories (or NaN): any
      other fill value raises [TypeError], whether or not a cell is missing.
    - [value=None] is rejected. *)
Definition fillna (value : scalar) (s : Series) : result Series :=
  match value with
  | NoneV => Raise (ValueError "Must specify a fill 'value' or 'method'.")
  | _ =>
      match s with
      | IntCol w xs => Ok (IntCol w xs)
      | FloatCol p xs =>
          match scalar_to_float value with
          | Some f =>
              let fits := is_nan f || (fround p f =? f) in
              let q := if fits then p else F64 in
              Ok (FloatCol q (map (fun x => if is_nan x then fround q f else x) xs))
          | None =>
              Ok (ObjectCol (map (fun x => fill_cell value (Flt x)) xs))
          end
      | ObjectCol xs => Ok (ObjectCol (map (fill_cell value) xs))
      | CatCol xs =>
          if isna value then Ok (CatCol xs)
          else if existsb (py_eqb value) (categories xs)
          then Ok (CatCol (map (fill_cell value) xs))
          else Raise (TypeError "Cannot setitem on a Categorical with a new category, set the categories first")
      end
  end.

(** *** [DataFrame.select_dtypes] *)

(** Whether a dtype is selected by one entry of [include]: ['int'] selects
    int32 and int64, ['float'] selects float32 and float64. *)
Definition includes (kind : string) (d : dtype) : bool :=
  if String.eqb kind "int" then
    match d with int32 | int64 => true | _ => false end
  else if String.eqb kind "float" then
    match d with DFloat _ => true | _ => false end
  else String.eqb kind (dtype_name d).

(** [df.select_dtypes(include=kinds).columns]. *)
Definition select_dtypes (kinds : list string) (df : DataFrame) : list string :=
  columns (filter (fun cs => existsb (fun k => includes k (dtype_of (snd cs))) kinds) df).

(** *** Column statistics: [mean], [median], [mode] *)

(** Sum in the precision of the column, left to right. *)
Definition fsum (p : fprec) (xs : list float) : float :=
  fold_left (fun acc x => fround p (acc + x)) xs 0.

Definition count (p : fprec) (xs : list float) : float :=
  fround p (Fl.of_Z (Z.of_nat (List.length xs))).

(** Mean of the non-missing values; NaN when there is none (0/0). *)
Definition nanmean (p : fprec) (xs : list float) : float :=
  let ys := filter Fl.notnan xs in
  fround p (fsum p ys / count p ys).

Fixpoint insert_sorted (x : float) (xs : list float) : list float :=
  match xs with
  | [] => [x]
  | y :: rest => if x <=? y then x :: y :: rest else y :: insert_sorted x rest
  end.

Definition sort_floats (xs : list float) : list float :=
  fold_right insert_sorted [] xs.

(** Median of the non-missing values: the middle one, or the mean of the
    two middle ones; NaN when there is none. *)
Definition nanmedian (p : fprec) (xs : list float) : float :=
  let ys := sort_floats (filter Fl.notnan xs) in
  let n := List.length ys in
  if Nat.eqb n 0%nat then nan
  else if Nat.odd n then nth (n / 2)%nat ys nan
  else fround p ((nth (n / 2 - 1)%nat ys nan + nth (n / 2)%nat ys nan) / 2).

(** [series.mean()] and [series.median()]: defined on numeric columns. *)
Definition mean (s : Series) : result scalar :=
  match s with
  | IntCol _ xs => Ok (Flt (nanmean F64 (map Fl.of_Z xs)))
  | FloatCol p xs => Ok (Flt (nanmean p xs))
  | _ => Raise (TypeError "Could not convert to numeric")
  end.

Definition median (s : Series) : result scalar :=
  match s with
  | IntCol _ xs => Ok (Flt (nanmedian F64 (map Fl.of_Z xs)))
  | FloatCol p xs => Ok (Flt (nanmedian p xs))
  | _ => Raise (TypeError "Could not convert to numeric")
  end.

Definition occurrences (v : scalar) (xs : list scalar) : nat :=
  List.length (filter (py_eqb v) xs).

(** Python's [<] on scalars of the same kind; text is compared by code
    point. *)
Definition scalar_ltb (a b : scalar) : bool :=
  match a, b with
  | Int x, Int y => Z.ltb x y
  | Flt x, Flt y => x <? y
  | Int x, Flt y => Fl.of_Z x <? y
  | Flt x, Int y => x <? Fl.of_Z y
  | Str x, Str y => String.ltb x y
  | _, _ => false
  end.

Definition is_str_cell (v : scalar) : bool :=
  match v with Str _ => true | _ => false end.

Fixpoint insert_scalar (x : scalar) (xs : list scalar) : list scalar :=
  match xs with
  | [] => [x]
  | y :: rest =>
      if scalar_ltb y x then y :: insert_scalar x rest else x :: y :: rest
  end.

(** [series.mode()]: the most frequent non-missing values, sorted when they
    are mutually comparable (all text, or all numbers) and in order of first
    appearance otherwise. *)
Definition mode (s : Series) : list scalar :=
  let present := filter notna (values s) in
  let distinct := unique present in
  let best := fold_right Nat.max 0%nat (map (fun v => occurrences v present) distinct) in
  let modes := filter (fun v => Nat.eqb (occurrences v present) best) distinct in
  if forallb is_str_cell modes || forallb (fun v => negb (is_str_cell v)) modes
  then fold_right insert_scalar [] modes
  else modes.

(** [series[0]] on the result of [mode()]. *)
Definition first (xs : list scalar) : result scalar :=
  match xs with
  | v :: _ => Ok v
  | [] => Raise (KeyError "0")
  end.

(** *** Comparisons and boolean indexing *)

Definition compare_cells (fz : Z -> bool) (ff : float -> bool)
           (s : Series) : result (list bool) :=
  match s with
  | IntCol _ xs => Ok (map fz xs)
  | FloatCol _ xs => Ok (map ff xs)
  | ObjectCol xs =>
      traverse (fun v => match v with
                         | Int z => Ok (fz z)
                         | Flt f => Ok (ff f)
                         | _ => Raise (TypeError "'<' not supported between these instances")
                         end) xs
  | CatCol _ =>
      Raise (TypeError "Unordered Categoricals can only compare equality or not")
  end.

(** [series < k] and [series > k] for an integer constant [k]. *)
Definition lt (s : Series) (k : Z) : result (list bool) :=
  compare_cells (fun z => Z.ltb z k) (fun f => f <? Fl.of_Z k) s.

Definition gt (s : Series) (k : Z) : result (list bool) :=
  compare_cells (fun z => Z.ltb k z) (fun f => Fl.of_Z k <? f) s.

(** [a & b] and [a | b] on boolean columns. *)
Definition mask_and (a b : list bool) : list bool :=
  map (fun ab => fst ab && snd ab) (combine a b).

Definition mask_or (a b : list bool) : list bool :=
  map (fun ab => fst ab || snd ab) (combine a b).

Definition select {A} (mask : list bool) (xs : list A) : list A :=
  map snd (filter fst (combine mask xs)).

Definition take_rows (mask : list bool) (s : Series) : Series :=
  match s with
  | IntCol w xs => IntCol w (select mask xs)
  | FloatCol p xs => FloatCol p (select mask xs)
  | CatCol xs => CatCol (select mask xs)
  | ObjectCol xs => ObjectCol (select mask xs)
  end.

(** [df[mask]]: the rows where the mask holds, as a new table. *)
Definition loc (df : DataFrame) (mask : list bool) : DataFrame :=
  map (fun cs => (fst cs, take_rows mask (snd cs))) df.

(** [df[[c1, ..., cn]]]: the listed columns, as a new table. *)
Fixpoint subframe (df : DataFrame) (cols : list string) : result DataFrame :=
  match cols with
  | [] => Ok []
  | c :: rest =>
      match get_col df c with
      | Some s => rbind (subframe df rest) (fun sub => Ok ((c, s) :: sub))
      | None => Raise (KeyError c)
      end
  end.

(** *** Row-wise reductions ([axis=1]) *)

(** A column as floats, for a numeric reduction.  Text cannot be reduced,
    and a categorical supports no numeric reduction. *)
Definition as_floats (s : Series) : result (list float) :=
  match s with
  | IntCol _ xs => Ok (map Fl.of_Z xs)
  | FloatCol _ xs => Ok xs
  | ObjectCol xs =>
      traverse (fun v => match v with
                         | Int z => Ok (Fl.of_Z z)
                         | Flt f => Ok f
                         | NoneV => Ok nan
                         | Str _ => Raise (TypeError "unsupported operand type(s) for +: 'float' and 'str'")
                         end) xs
  | CatCol _ =>
      Raise (TypeError "'Categorical' with dtype category does not support reduction")
  end.

(** The result is float32 only when every column is. *)
Definition common_prec (sub : DataFrame) : fprec :=
  if forallb (fun cs => dtype_eqb (dtype_of (snd cs)) float32) sub then F32 else F64.

Definition nrows (sub : DataFrame) : nat :=
  match sub with
  | [] => 0%nat
  | (_, s) :: _ => len s
  end.

Definition row (cols : list (list float)) (i : nat) : list float :=
  map (fun c => nth i c nan) cols.

Definition rows (sub : DataFrame) : result (list (list float)) :=
  rbind (traverse (fun cs => as_floats (snd cs)) sub)
        (fun cols => Ok (map (row cols) (seq 0%nat (nrows sub)))).

(** Sample variance (ddof = 1) of the non-missing values, by the two-pass
    formula with float64 accumulators; NaN for fewer than two values. *)
Definition nanvar (p : fprec) (xs : list float) : float :=
  let ys := filter Fl.notnan xs in
  let n := List.length ys in
  if Nat.leb n 1%nat then nan
  else
    let avg := fsum F64 ys / count F64 ys in
    let sqr := fsum F64 (map (fun y => (avg - y) * (avg - y)) ys) in
    fround p (sqr / Fl.of_Z (Z.of_nat (n - 1)%nat)).

Definition nanstd (p : fprec) (xs : list float) : float :=
  fround p (sqrt (nanvar p xs)).

(** A left-to-right scan that keeps the first position of the best value
    seen so far and moves only to a strictly better one. *)
Fixpoint scan_from (better : float -> float -> bool)
         (best : float) (besti i : nat) (xs : list float) : nat :=
  match xs with
  | [] => besti
  | x :: rest =>
      if better x best then scan_from better x i (S i) rest
      else scan_from better best besti (S i) rest
  end.

Definition scan (better : float -> float -> bool) (xs : list float) : nat :=
  match xs with
  | [] => 0%nat
  | x :: rest => scan_from better x 0%nat 1%nat rest
  end.

(** [np.argmax] and [np.argmin]: position of the first occurrence of the
    maximum, resp. the minimum. *)
Definition argmax (xs : list float) : nat := scan (fun x best => best <? x) xs.

Definition argmin (xs : list float) : nat := scan (fun x best => x <? best) xs.

(** [nanargmax] and [nanargmin] of one row: missing entries are replaced by
    -inf (resp. +inf) before the search; a row with no value at all has no
    position. *)
Definition nanargmax (xs : list float) : option nat :=
  if forallb is_nan xs then None
  else Some (argmax (map (fun x => if is_nan x then neg_infinity else x) xs)).

Definition nanargmin (xs : list float) : option nat :=
  if forallb is_nan xs then None
  else Some (argmin (map (fun x => if is_nan x then infinity else x) xs)).

(** [sub.mean(axis=1)] and [sub.std(axis=1)]. *)
Definition mean_axis1 (sub : DataFrame) : result Series :=
  rbind (rows sub)
        (fun rs => Ok (FloatCol (common_prec sub) (map (nanmean (common_prec sub)) rs))).

Definition std_axis1 (sub : DataFrame) : result Series :=
  rbind (rows sub)
        (fun rs => Ok (FloatCol (common_prec sub) (map (nanstd (common_prec sub)) rs))).

Definition label_at (sub : DataFrame) (pos : option nat) : scalar :=
  match pos with
  | Some k => Str (nth k (columns sub) "")
  | None => NaN
  end.

(** The values of a sub-table with an object or a categorical column form an
    array of Python objects. *)
Definition object_values (sub : DataFrame) : bool :=
  existsb (fun cs => match dtype_of (snd cs) with
                     | object | category => true
                     | _ => false
                     end) sub.

(** [sub.idxmax(axis=1)] and [sub.idxmin(axis=1)]: per row, the name of the
    column holding the extreme value, NaN for a row without values.  The
    position is found by [nanargmax] and [nanargmin] on the values of the
    sub-table, which refuse an array of objects, whatever it holds. *)
Definition idxmax_axis1 (sub : DataFrame) : result Series :=
  if object_values sub then
    Raise (TypeError "reduction operation 'argmax' not allowed for this dtype")
  else
    rbind (rows sub)
          (fun rs => Ok (ObjectCol (map (fun r => label_at sub (nanargmax r)) rs))).

Definition idxmin_axis1 (sub : DataFrame) : result Series :=
  if object_values sub then
    Raise (TypeError "reduction operation 'argmin' not allowed for this dtype")
  else
    rbind (rows sub)
          (fun rs => Ok (ObjectCol (map (fun r => label_at sub (nanargmin r)) rs))).

End Pd.

(** ** The preprocessing module *)

(** [col in df.columns] as an expression. *)
Definition contains (col : string) : M bool :=
  fun w => (Ok (has_col (frame w) col), w).

(** A loop whose body updates a local variable. *)
Fixpoint for_fold {A B} (xs : list A) (acc : B) (body : B -> A -> M B) : M B :=
  match xs with
  | [] => ret acc
  | x :: rest => acc' <- body acc x ;; for_fold rest acc' body
  end.

(** [d[k] = v] on a dict kept in insertion order. *)
Fixpoint dict_set {V} (d : list (string * V)) (k : string) (v : V) : list (string * V) :=
  match d with
  | [] => [(k, v)]
  | (k0, v0) :: rest =>
      if String.eqb k k0 then (k0, v) :: rest else (k0, v0) :: dict_set rest k v
  end.

Fixpoint dict_lookup {V} (d : list (string * V)) (k : string) : option V :=
  match d with
  | [] => None
  | (k0, v0) :: rest => if String.eqb k k0 then Some v0 else dict_lookup rest k
  end.

(** [l.append(x)]. *)
Definition append {A} (l : list A) (x : A) : list A := (l ++ [x])%list.

(** [str(n)] for a length. *)
Definition str_nat (n : nat) : string := NilEmpty.string_of_uint (Nat.to_uint n).

(** [frame[col]] on a table that is not the stage's own. *)
Definition column_of (df : DataFrame) (col : string) : result Series :=
  match get_col df col with
  | Some s => Ok s
  | None => Raise (KeyError col)
  end.

Definition DTYPE_MAPPINGS : list (string * dtype) :=
  [ ("NU_INSCRICAO", int64);
    ("NU_ANO", int16);
    ("TP_FAIXA_ETARIA", int8);
    ("TP_SEXO", category);
    ("TP_ESTADO_CIVIL", category);
    ("TP_COR_RACA", category);
    ("TP_NACIONALIDADE", category);
    ("TP_ST_CONCLUSAO", category);
    ("TP_ANO_CONCLUIU", int16);
    ("TP_ESCOLA", category);
    ("NU_NOTA_CN", float32);
    ("NU_NOTA_CH", float32);
    ("NU_NOTA_LC", float32);
    ("NU_NOTA_MT", float32);
    ("NU_NOTA_REDACAO", float32) ].

Definition CATEGORY_MAPPINGS : list (string * Pd.pydict) :=
  [ ("TP_SEXO",
      [ (Str "M", "Male");
        (Str "F", "Female") ]);
    ("TP_ESTADO_CIVIL",
      [ (Int 0, "Not Informed");
        (Int 1, "Single");
        (Int 2, "Married");
        (Int 3, "Divorced");
        (Int 4, "Widowed") ]);
    ("TP_COR_RACA",
      [ (Int 0, "Not Declared");
        (Int 1, "White");
        (Int 2, "Black");
        (Int 3, "Brown");
        (Int 4, "Yellow");
        (Int 5, "Indigenous") ]);
    ("TP_NACIONALIDADE",
      [ (Int 0, "Not Informed");
        (Int 1, "Brazilian");
        (Int 2, "Brazilian Naturalized");
        (Int 3, "Foreign");
        (Int 4, "Brazilian Born Abroad") ]);
    ("TP_ST_CONCLUSAO",
      [ (Int 1, "Completed");
        (Int 2, "Completing This Year");
        (Int 3, "Not Completed Yet");
        (Int 4, "Not Completed") ]);
    ("TP_ESCOLA",
      [ (Int 1, "Not Informed");
        (Int 2, "Public");
        (Int 3, "Private") ]) ].

Section OptimizeDtypes.

Variable int_of_str : string -> option Z.
Variable float_of_str : string -> option float.

Definition optimize_dtypes : M DataFrame :=
  logger_info "Optimizing data types" ;;
  for_each DTYPE_MAPPINGS (fun entry =>
    let '(col, dtype) := entry in
    present <- contains col ;;
    if present : bool then
      try_except
        (s <- getitem col ;;
         s' <- lift (Pd.astype int_of_str float_of_str dtype s) ;;
         setitem col s' ;;
         logger_debug)
        (fun e =>
           logger_warning ("Could not convert " ++ col ++ " to "
                           ++ dtype_name dtype ++ ": " ++ exn_str e))
    else ret tt) ;;
  the_frame.

End OptimizeDtypes.

Definition map_categories : M DataFrame :=
  logger_info "Mapping categorical variables" ;;
  for_each CATEGORY_MAPPINGS (fun entry =>
    let '(col, mapping) := entry in
    present <- contains col ;;
    if present : bool then
      try_except
        (s <- getitem col ;;
         s' <- lift (Pd.fillna (Str "Unknown") (Pd.map_dict mapping s)) ;;
         setitem col s' ;;
         logger_debug)
        (fun e =>
           logger_warning ("Could not map categories for " ++ col ++ ": " ++ exn_str e))
    else ret tt) ;;
  the_frame.

Definition handle_missing_values (numeric_strategy categorical_strategy : string)
  : M (DataFrame * list (string * scalar)) :=
  logger_info "Handling missing values" ;;
  let imputation_values := [] in
  df <- the_frame ;;
  let numeric_cols := Pd.select_dtypes ["int"; "float"] df in
  imputation_values <-
    for_fold numeric_cols imputation_values (fun imputation_values col =>
      s <- getitem col ;;
      if Pd.any (Pd.isnull s) then
        value <- (if String.eqb numeric_strategy "mean" then
                    s <- getitem col ;; lift (Pd.mean s)
                  else if String.eqb numeric_strategy "median" then
                    s <- getitem col ;; lift (Pd.median s)
                  else ret (Int 0)) ;;
        s <- getitem col ;;
        s' <- lift (Pd.fillna value s) ;;
        setitem col s' ;;
        let imputation_values := dict_set imputation_values col value in
        logger_debug ;;
        ret imputation_values
      else ret imputation_values) ;;
  df <- the_frame ;;
  let cat_cols := Pd.select_dtypes ["category"; "object"] df in
  imputation_values <-
    for_fold cat_cols imputation_values (fun imputation_values col =>
      s <- getitem col ;;
      if Pd.any (Pd.isnull s) then
        value <- (if String.eqb categorical_strategy "mode" then
                    s <- getitem col ;; lift (Pd.first (Pd.mode s))
                  else ret (Str "Unknown")) ;;
        s <- getitem col ;;
        s' <- lift (Pd.fillna value s) ;;
        setitem col s' ;;
        let imputation_values := dict_set imputation_values col value in
        logger_debug ;;
        ret imputation_values
      else ret imputation_values) ;;
  df <- the_frame ;;
  ret (df, imputation_values).

(** [s.notna() & ((s < 0) | (s > 1000))]. *)
Definition out_of_range (s : Series) : result (list bool) :=
  rbind (Pd.lt s 0) (fun below =>
  rbind (Pd.gt s 1000) (fun above =>
  Ok (Pd.mask_and (Pd.notna_mask s) (Pd.mask_or below above)))).

Definition validate_data : M (list string) :=
  logger_info "Validating data" ;;
  let issues := [] in
  let score_cols := ["NU_NOTA_CN"; "NU_NOTA_CH"; "NU_NOTA_LC"; "NU_NOTA_MT"] in
  issues <-
    for_fold score_cols issues (fun issues col =>
      present <- contains col ;;
      if present : bool then
        s <- getitem col ;;
        mask <- lift (out_of_range s) ;;
        df <- the_frame ;;
        invalid_scores <- lift (column_of (Pd.loc df mask) col) ;;
        if Nat.ltb 0 (len invalid_scores) then
          ret (append issues ("Found " ++ str_nat (len invalid_scores)
                              ++ " invalid scores in " ++ col)%string)
        else ret issues
      else ret issues) ;;
  present <- contains "NU_NOTA_REDACAO" ;;
  issues <-
    (if present : bool then
       s <- getitem "NU_NOTA_REDACAO" ;;
       mask <- lift (out_of_range s) ;;
       df <- the_frame ;;
       invalid_essays <- lift (column_of (Pd.loc df mask) "NU_NOTA_REDACAO") ;;
       if Nat.ltb 0 (len invalid_essays) then
         ret (append issues ("Found " ++ str_nat (len invalid_essays)
                             ++ " invalid essay scores")%string)
       else ret issues
     else ret issues) ;;
  present <- contains "TP_FAIXA_ETARIA" ;;
  issues <-
    (if present : bool then
       s <- getitem "TP_FAIXA_ETARIA" ;;
       mask <- lift (Pd.lt s 1) ;;
       df <- the_frame ;;
       invalid_ages <- lift (column_of (Pd.loc df mask) "TP_FAIXA_ETARIA") ;;
       if Nat.ltb 0 (len invalid_ages) then
         ret (append issues ("Found " ++ str_nat (len invalid_ages)
                             ++ " invalid age ranges")%string)
       else ret issues
     else ret issues) ;;
  ret issues.

(** The name map written out twice in [create_derived_features]. *)
Definition subject_names : Pd.pydict :=
  [ (Str "NU_NOTA_CN", "Natural Sciences");
    (Str "NU_NOTA_CH", "Human Sciences");
    (Str "NU_NOTA_LC", "Languages");
    (Str "NU_NOTA_MT", "Mathematics") ].

Definition score_cols : list string :=
  ["NU_NOTA_CN"; "NU_NOTA_CH"; "NU_NOTA_LC"; "NU_NOTA_MT"].

(** [all(col in df.columns for col in score_cols)]. *)
Definition all_present (cols : list string) : M bool :=
  fun w => (Ok (forallb (has_col (frame w)) cols), w).

Definition create_derived_features : M DataFrame :=
  logger_info "Creating derived features" ;;
  present <- all_present score_cols ;;
  (if present : bool then
     df <- the_frame ;;
     sub <- lift (Pd.subframe df score_cols) ;;
     average <- lift (Pd.mean_axis1 sub) ;;
     setitem "AVERAGE_SCORE" average ;;
     logger_debug
   else ret tt) ;;
  present <- all_present score_cols ;;
  (if present : bool then
     df <- the_frame ;;
     sub <- lift (Pd.subframe df score_cols) ;;
     std <- lift (Pd.std_axis1 sub) ;;
     setitem "SCORE_STD" std ;;
     logger_debug
   else ret tt) ;;
  present <- all_present score_cols ;;
  (if present : bool then
     df <- the_frame ;;
     sub <- lift (Pd.subframe df score_cols) ;;
     best <- lift (Pd.idxmax_axis1 sub) ;;
     setitem "BEST_SUBJECT" (Pd.map_dict subject_names best) ;;
     df <- the_frame ;;
     sub <- lift (Pd.subframe df score_cols) ;;
     worst <- lift (Pd.idxmin_axis1 sub) ;;
     setitem "WORST_SUBJECT" (Pd.map_dict subject_names worst) ;;
     logger_debug
   else ret tt) ;;
  the_frame.

(** * Specification vocabulary *)

(** A computation that leaves the table as it found it, whether it returns or
    raises. *)
Definition keeps_frame {A} (m : M A) : Prop :=
  forall w, frame (snd (m w)) = frame w.

(** Apply [f] to the column named [c], if the table has one. *)
Fixpoint upd_first (c : string) (f : Series -> Series) (df : DataFrame) : DataFrame :=
  match df with
  | [] => []
  | (c0, s) :: rest =>
      if String.eqb c c0 then (c0, f s) :: rest
      else (c0, s) :: upd_first c f rest
  end.

(** The table without the column named [c]. *)
Definition remove_col (c : string) (df : DataFrame) : DataFrame :=
  filter (fun cs => negb (String.eqb c (fst cs))) df.

(** *** Column-wise stages

    The Type Optimizer and the Category Mapper share one shape: for every
    entry [(col, x)] of a configuration table, if the table has the column,
    try to replace it by [f x column], and on an exception log a warning and
    go on. *)
Section Columnwise.

Context {X : Type}.
Variable f : X -> Series -> result Series.
Variable msg : string -> X -> exn -> string.

(** The outcome for one column: the new column, or the column itself when
    [f] raises. *)
Definition attempt (x : X) (s : Series) : Series :=
  match f x s with
  | Ok s' => s'
  | Raise _ => s
  end.

(** The same with [x] looked up by column name; a column the configuration
    does not list stays as it is. *)
Definition attempt_listed (m : list (string * X)) (c : string) (s : Series) : Series :=
  match dict_lookup m c with
  | Some x => attempt x s
  | None => s
  end.

Definition attempt_log (c : string) (x : X) (df : DataFrame) : list (level * string) :=
  match get_col df c with
  | Some s =>
      match f x s with
      | Ok _ => []
      | Raise e => [(WARNING, msg c x e)]
      end
  | None => []
  end.

(** One iteration of the loop, as a function on worlds. *)
Definition columnwise_step (w : World) (entry : string * X) : World :=
  mkWorld (upd_first (fst entry) (attempt (snd entry)) (frame w))
          (log w ++ attempt_log (fst entry) (snd entry) (frame w)).

(** The whole loop on a table alone. *)
Definition columnwise_frame (m : list (string * X)) (df : DataFrame) : DataFrame :=
  fold_left (fun df entry => upd_first (fst entry) (attempt (snd entry)) df) m df.

End Columnwise.

(** The text of the Type Optimizer's and the Category Mapper's warnings. *)
Definition conversion_message (c : string) (t : dtype) (e : exn) : string :=
  "Could not convert " ++ c ++ " to " ++ dtype_name t ++ ": " ++ exn_str e.

Definition mapping_message (c : string) (d : Pd.pydict) (e : exn) : string :=
  "Could not map categories for " ++ c ++ ": " ++ exn_str e.

(** What the Category Mapper computes for one column: [map] then [fillna]. *)
Definition relabel (mapping : Pd.pydict) (s : Series) : result Series :=
  Pd.fillna (Str "Unknown") (Pd.map_dict mapping s).

(** Parsers for plain decimal integer literals, standing for Python's [int()]
    and [float()] in the worked examples; the general statements hold for any
    pair of parsers. *)
Definition digit_of (a : ascii) : option Z :=
  let n := nat_of_ascii a in
  if Nat.leb 48 n && Nat.leb n 57 then Some (Z.of_nat (n - 48)) else None.

Fixpoint digits_value (acc : Z) (s : string) : option Z :=
  match s with
  | EmptyString => Some acc
  | String a rest =>
      match digit_of a with
      | Some d => digits_value (10 * acc + d) rest
      | None => None
      end
  end.

Definition decimal_int (s : string) : option Z :=
  match s with
  | EmptyString => None
  | String "-" (String a rest) => option_map Z.opp (digits_value 0 (String a rest))
  | String "+" (String a rest) => digits_value 0 (String a rest)
  | _ => digits_value 0 s
  end.

Definition decimal_float (s : string) : option float :=
  option_map Fl.of_Z (decimal_int s).

(** A cell that is a label of the dictionary, or the text "Unknown". *)
Definition is_label_or_unknown (mapping : Pd.pydict) (v : scalar) : bool :=
  match v with
  | Str l => existsb (String.eqb l) (Pd.labels mapping) || String.eqb l "Unknown"
  | _ => false
  end.

(** Every cell of the column is a label of the dictionary or "Unknown". *)
Definition labelled (mapping : Pd.pydict) (s : Series) : bool :=
  forallb (is_label_or_unknown mapping) (values s).

(** Position [k] holds the maximum of the non-missing entries of the row, and
    no earlier position holds it too. *)
Definition first_max (r : list float) (k : nat) : Prop :=
  k < List.length r
  /\ is_nan (nth k r nan) = false
  /\ (forall j, j < List.length r -> is_nan (nth j r nan) = false ->
                PrimFloat.leb (nth j r nan) (nth k r nan) = true)
  /\ (forall j, j < k -> is_nan (nth j r nan) = false ->
                PrimFloat.ltb (nth j r nan) (nth k r nan) = true).

(** The same for the minimum. *)
Definition first_min (r : list float) (k : nat) : Prop :=
  k < List.length r
  /\ is_nan (nth k r nan) = false
  /\ (forall j, j < List.length r -> is_nan (nth j r nan) = false ->
                PrimFloat.leb (nth k r nan) (nth j r nan) = true)
  /\ (forall j, j < k -> is_nan (nth j r nan) = false ->
                PrimFloat.ltb (nth k r nan) (nth j r nan) = true).

(** The four columns the Derived-Feature Builder adds. *)
Definition derived_cols : list string :=
  ["AVERAGE_SCORE"; "SCORE_STD"; "BEST_SUBJECT"; "WORST_SUBJECT"].

Definition is_numeric (s : Series) : bool :=
  match s with
  | IntCol _ _ | FloatCol _ _ => true
  | _ => false
  end.

(** Every score column the table has is an integer or a float column. *)
Definition scores_numeric (df : DataFrame) : bool :=
  forallb (fun c => match get_col df c with
                    | Some s => is_numeric s
                    | None => true
                    end) score_cols.

(** The table with the four derived columns computed from the rows [rs] of
    the score sub-table [sub]. *)
Definition with_derived (df sub : DataFrame) (rs : list (list float)) : DataFrame :=
  let p := Pd.common_prec sub in
  let average := FloatCol p (map (Pd.nanmean p) rs) in
  let std := FloatCol p (map (Pd.nanstd p) rs) in
  let best := ObjectCol (map (fun r => Pd.label_at sub (Pd.nanargmax r)) rs) in
  let worst := ObjectCol (map (fun r => Pd.label_at sub (Pd.nanargmin r)) rs) in
  set_col
    (set_col
       (set_col (set_col df "AVERAGE_SCORE" average) "SCORE_STD" std)
       "BEST_SUBJECT" (Pd.map_dict subject_names best))
    "WORST_SUBJECT" (Pd.map_dict subject_names worst).

(** The cell of column [c] in row [i]. *)
Definition cell (df : DataFrame) (c : string) (i : nat) : option scalar :=
  match get_col df c with
  | Some s => nth_error (values s) i
  | None => None
  end.

(** The subject label of the [k]-th score column. *)
Definition subject_of (k : nat) : string :=
  nth k ["Natural Sciences"; "Human Sciences"; "Languages"; "Mathematics"] "".

(** Arithmetic mean of a list of values, in the precision of the column. *)
Definition arithmetic_mean (p : fprec) (ys : list float) : float :=
  Pd.fround p (PrimFloat.div (Pd.fsum p ys) (Pd.count p ys)).

(** Sample standard deviation of a list of at least two values: the square
    root of the sum of squared deviations from the mean, divided by one less
    than their number. *)
Definition sample_std (p : fprec) (ys : list float) : float :=
  let avg := PrimFloat.div (Pd.fsum F64 ys) (Pd.count F64 ys) in
  let sqr := Pd.fsum F64 (map (fun y => PrimFloat.mul (PrimFloat.sub avg y)
                                                      (PrimFloat.sub avg y)) ys) in
  Pd.fround p (PrimFloat.sqrt
                 (Pd.fround p (PrimFloat.div sqr
                                 (Fl.of_Z (Z.of_nat (List.length ys - 1)))))).

(** A score cell the Validator counts: a non-missing value strictly below 0
    or strictly above 1000. *)
Definition invalid_score (v : scalar) : bool :=
  match v with
  | Int z => Z.ltb z 0 || Z.ltb 1000 z
  | Flt f => negb (is_nan f) && (PrimFloat.ltb f 0 || PrimFloat.ltb 1000 f)
  | _ => false
  end.

(** An age-bracket cell the Validator counts: a value below 1. *)
Definition invalid_age (v : scalar) : bool :=
  match v with
  | Int z => Z.ltb z 1
  | Flt f => PrimFloat.ltb f 1
  | _ => false
  end.

(** How many cells of a column satisfy a test. *)
Definition count_cells (test : scalar -> bool) (s : Series) : nat :=
  List.length (filter test (values s)).

(** The issue reported for a column: none when the column is absent or the
    count is zero, otherwise one message built from the count. *)
Definition issue_for (df : DataFrame) (col : string)
           (test : scalar -> bool) (message : nat -> string) : list string :=
  match get_col df col with
  | Some s =>
      let n := count_cells test s in
      if Nat.ltb 0 n then [message n] else []
  | None => []
  end.

Definition score_message (col : string) (n : nat) : string :=
  "Found " ++ str_nat n ++ " invalid scores in " ++ col.

Definition essay_message (n : nat) : string :=
  "Found " ++ str_nat n ++ " invalid essay scores".

Definition age_message (n : nat) : string :=
  "Found " ++ str_nat n ++ " invalid age ranges".

(** The issue list the specification describes: one entry per core score
    column with out-of-range values, in the order CN, CH, LC, MT, then the
    essay entry, then the age entry. *)
Definition expected_issues (df : DataFrame) : list string :=
  (List.concat (map (fun col => issue_for df col invalid_score (score_message col))
               score_cols)
   ++ issue_for df "NU_NOTA_REDACAO" invalid_score essay_message
   ++ issue_for df "TP_FAIXA_ETARIA" invalid_age age_message)%list.

(** The columns the Validator compares with numbers are numeric, when the
    table has them. *)
Definition validator_typed (df : DataFrame) : bool :=
  forallb (fun c => match get_col df c with
                    | Some s => is_numeric s
                    | None => true
                    end)
          (score_cols ++ ["NU_NOTA_REDACAO"; "TP_FAIXA_ETARIA"])%list.

(** [series.isnull().any()]. *)
Definition has_missing (s : Series) : bool := Pd.any (Pd.isnull s).

(** The value the Missing-Value Handler imputes into a numeric column. *)
Definition numeric_value (numeric_strategy : string) (s : Series) : result scalar :=
  if String.eqb numeric_strategy "mean" then Pd.mean s
  else if String.eqb numeric_strategy "median" then Pd.median s
  else Ok (Int 0).

(** The value it imputes into a categorical or text column. *)
Definition categorical_value (categorical_strategy : string) (s : Series) : result scalar :=
  if String.eqb categorical_strategy "mode" then Pd.first (Pd.mode s)
  else Ok (Str "Unknown").

(** What the handler does to one column: nothing when it has no missing
    value, otherwise the imputed value and the filled column. *)
Definition impute (value_of : Series -> result scalar) (s : Series)
  : result (option (scalar * Series)) :=
  if has_missing s then
    rbind (value_of s) (fun v =>
    rbind (Pd.fillna v s) (fun s' => Ok (Some (v, s'))))
  else Ok None.

(** One loop of the handler over the listed columns, as a function on the
    table and the imputation dict; on an exception it stops with the table as
    it is at that point. *)
Fixpoint impute_cols (value_of : Series -> result scalar) (cols : list string)
         (imputation_values : list (string * scalar)) (df : DataFrame)
  : result (list (string * scalar)) * DataFrame :=
  match cols with
  | [] => (Ok imputation_values, df)
  | c :: rest =>
      match get_col df c with
      | None => (Raise (KeyError c), df)
      | Some s =>
          match impute value_of s with
          | Ok (Some (v, s')) =>
              impute_cols value_of rest (dict_set imputation_values c v) (set_col df c s')
          | Ok None => impute_cols value_of rest imputation_values df
          | Raise e => (Raise e, df)
          end
      end
  end.

Definition numeric_cols (df : DataFrame) : list string :=
  Pd.select_dtypes ["int"; "float"] df.

Definition cat_cols (df : DataFrame) : list string :=
  Pd.select_dtypes ["category"; "object"] df.

(** The dtype classes [select_dtypes] picks for the two loops. *)
Definition is_num_kind (s : Series) : bool :=
  existsb (fun k => Pd.includes k (dtype_of s)) ["int"; "float"].

Definition is_cat_kind (s : Series) : bool :=
  existsb (fun k => Pd.includes k (dtype_of s)) ["category"; "object"].

(** The value the handler computes for a column, by its dtype class. *)
Definition strategy_value (numeric_strategy categorical_strategy : string)
           (s : Series) : result scalar :=
  if is_num_kind s then numeric_value numeric_strategy s
  else categorical_value categorical_strategy s.

(** [after] is [before] with every missing cell replaced by the one value [u]
    and every other cell kept. *)
Definition filled_with (u : scalar) (before after : Series) : Prop :=
  Forall2 (fun a b => b = if isna a then u else a) (values before) (values after).

(** No label of the dictionary, nor "Unknown", is one of its keys. *)
Definition labels_are_not_keys (mapping : Pd.pydict) : bool :=
  forallb (fun l => match Pd.dict_get mapping (Str l) with
                    | None => true
                    | Some _ => false
                    end)
          (Pd.labels mapping ++ ["Unknown"])%list.

(** No column of the table has a missing value. *)
Definition complete (df : DataFrame) : Prop :=
  forall c s, get_col df c = Some s -> has_missing s = false.

(** A column the handler cannot fill with the given categorical strategy: a
    categorical or text column with a missing value that, under 'mode', has
    no value at all to take the mode of, or, under any other strategy, is of
    categorical dtype without the category "Unknown". *)
Definition unfillable (categorical_strategy : string) (s : Series) : bool :=
  has_missing s && is_cat_kind s &&
  (if String.eqb categorical_strategy "mode" then forallb isna (values s)
   else match s with
        | CatCol xs => negb (existsb (py_eqb (Str "Unknown")) (Pd.categories xs))
        | _ => false
        end).

(** The exception the handler ends with on such a column. *)
Definition handler_error (categorical_strategy : string) : exn :=
  if String.eqb categorical_strategy "mode" then KeyError "0"
  else TypeError "Cannot setitem on a Categorical with a new category, set the categories first".

(** Whether a value is a key of the dictionary. *)
Definition known (d : Pd.pydict) (v : scalar) : bool :=
  match Pd.dict_get d v with Some _ => true | None => false end.

(** The label of a value, "Unknown" for a missing value or one without an
    entry. *)
Definition label_or_unknown (d : Pd.pydict) (v : scalar) : scalar :=
  Pd.fill_cell (Str "Unknown") (Pd.lookup_cell d v).

(** A dictionary whose labels are distinct, none of them "Unknown", and whose
    keys are integers or text. *)
Definition well_keyed (d : Pd.pydict) : bool :=
  Pd.distinct_strings (Pd.labels d)
  && negb (existsb (String.eqb "Unknown") (Pd.labels d))
  && forallb (fun kv => negb (Pd.is_float_cell (fst kv))) d.

Definition new_category_error : exn :=
  TypeError "Cannot setitem on a Categorical with a new category, set the categories first".

(** A column the Validator can compare with a number: integers, floats, or
    Python objects that are all numbers. *)
Definition comparable (s : Series) : bool :=
  match s with
  | IntCol _ _ | FloatCol _ _ => true
  | ObjectCol xs => forallb (fun v => Pd.is_int_cell v || Pd.is_float_cell v) xs
  | CatCol _ => false
  end.

Definition is_type_error (e : exn) : bool :=
  match e with TypeError _ => true | _ => false end.

(** One check of the Validator as a function of the table: the issue list
    after the check, or the exception of the comparison. *)
Definition check_result (df : DataFrame) (col : string)
           (mask_of : Series -> result (list bool)) (message : nat -> string)
           (issues : list string) : result (list string) :=
  match get_col df col with
  | None => Ok issues
  | Some s =>
      rbind (mask_of s) (fun mask =>
      let n := len (Pd.take_rows mask s) in
      Ok (if Nat.ltb 0 n then append issues (message n) else issues))
  end.

(** The checks of the Validator in the order it makes them. *)
Definition checks : list (string * (Series -> result (list bool)) * (nat -> string)) :=
  (map (fun col => (col, out_of_range, score_message col)) score_cols
   ++ [("NU_NOTA_REDACAO", out_of_range, essay_message);
       ("TP_FAIXA_ETARIA", fun s => Pd.lt s 1, age_message)])%list.

Fixpoint run_checks (df : DataFrame)
         (cs : list (string * (Series -> result (list bool)) * (nat -> string)))
         (issues : list string) : result (list string) :=
  match cs with
  | [] => Ok issues
  | (col, mask_of, message) :: rest =>
      rbind (check_result df col mask_of message issues) (run_checks df rest)
  end.

Definition checked_cols : list string :=
  (score_cols ++ ["NU_NOTA_REDACAO"; "TP_FAIXA_ETARIA"])%list.

(** The value of a comparison on one cell that is a number. *)
Definition cellwise (fz : Z -> bool) (ff : float -> bool) (v : scalar) : bool :=
  match v with
  | Int z => fz z
  | Flt f => ff f
  | _ => false
  end.

(** The table with the two numeric derived columns only: what the builder
    leaves behind when the search for the best subject raises. *)
Definition with_scores (df sub : DataFrame) (rs : list (list float)) : DataFrame :=
  let p := Pd.common_prec sub in
  set_col (set_col df "AVERAGE_SCORE" (FloatCol p (map (Pd.nanmean p) rs)))
          "SCORE_STD" (FloatCol p (map (Pd.nanstd p) rs)).

Definition argmax_error : exn :=
  TypeError "reduction operation 'argmax' not allowed for this dtype".

(** The score a cell holds, as a float; NaN when the cell is missing. *)
Definition score_of (v : option scalar) : float :=
  match v with
  | Some (Int z) => Fl.of_Z z
  | Some (Flt f) => f
  | _ => nan
  end.

(** The four scores of row [i], read from the cells of the table. *)
Definition score_row (df : DataFrame) (i : nat) : list float :=
  map (fun c => score_of (cell df c i)) score_cols.

(** The result precision of the row-wise reductions: float32 when the four
    score columns are, float64 otherwise. *)
Definition score_prec (df : DataFrame) : fprec :=
  if forallb (fun c => match get_col df c with
                       | Some s => dtype_eqb (dtype_of s) float32
                       | None => false
                       end) score_cols
  then F32 else F64.

(** A missing score counted as the lowest, resp. the highest, value. *)
Definition missing_low (x : float) : float :=
  if is_nan x then neg_infinity else x.

Definition missing_high (x : float) : float :=
  if is_nan x then infinity else x.

(** [k] is the first position of the greatest value of a row without missing
    values. *)
Definition first_greatest (l : list float) (k : nat) : Prop :=
  k < List.length l
  /\ (forall j, j < List.length l -> PrimFloat.leb (nth j l nan) (nth k l nan) = true)
  /\ (forall j, j < k -> PrimFloat.ltb (nth j l nan) (nth k l nan) = true).

(** The same for the least value. *)
Definition first_least (l : list float) (k : nat) : Prop :=
  k < List.length l
  /\ (forall j, j < List.length l -> PrimFloat.leb (nth k l nan) (nth j l nan) = true)
  /\ (forall j, j < k -> PrimFloat.ltb (nth k l nan) (nth j l nan) = true).

(** The values of a numeric column as floats. *)
Definition floats_of (s : Series) : list float :=
  match s with
  | IntCol _ xs => map Fl.of_Z xs
  | FloatCol _ xs => xs
  | _ => []
  end.

(** A column the row-wise mean can reduce: integers, floats, or Python
    objects none of which is text. *)
Definition reducible (s : Series) : bool :=
  match s with
  | IntCol _ _ | FloatCol _ _ => true
  | ObjectCol xs => forallb (fun v => negb (Pd.is_str_cell v)) xs
  | CatCol _ => false
  end.

(** Every score column of the table is reducible. *)
Definition scores_reducible (df : DataFrame) : bool :=
  forallb (fun c => match get_col df c with
                    | Some s => reducible s
                    | None => true
                    end) score_cols.

(** * Properties *)

(** ** Order facts about binary64 values that are not NaN *)

Module FlOrder.

Local Open Scope float_scope.


Lemma SFcompare_antisym (a b : spec_float) :
  SFcompare b a = option_map CompOpp (SFcompare a b).
Proof.
  destruct a as [sa|sa| |sa ma ea], b as [sb|sb| |sb mb eb]; simpl; auto;
    try (destruct sa; reflexivity); try (destruct sb; reflexivity);
    try (destruct sa, sb; reflexivity).
  destruct sa, sb; simpl; auto;
    rewrite (Z.compare_antisym ea eb); destruct (ea ?= eb)%Z; simpl; auto;
    rewrite (Pos.compare_cont_antisym ma mb Eq); simpl;
    destruct (Pos.compare_cont Eq ma mb); reflexivity.
Qed.

Lemma is_nan_spec (x : float) :
  is_nan x = match Prim2SF x with S754_nan => true | _ => false end.
Proof.
  unfold is_nan. rewrite eqb_spec. unfold SFeqb.
  destruct (Prim2SF x) as [s|s| |s m e]; simpl; auto.
  - now destruct s.
  - destruct s; rewrite Z.compare_refl, Pos.compare_cont_refl; reflexivity.
Qed.

Lemma SFcompare_defined (a b : spec_float) :
  a <> S754_nan -> b <> S754_nan -> exists c, SFcompare a b = Some c.
Proof.
  destruct a, b; simpl; intros; try congruence; eauto.
Qed.

Lemma ltb_negb_leb (x y : float) :
  is_nan x = false -> is_nan y = false -> (x <? y) = negb (y <=? x).
Proof.
  rewrite !is_nan_spec, ltb_spec, leb_spec. unfold SFltb, SFleb.
  intros Hx Hy. rewrite (SFcompare_antisym (Prim2SF x) (Prim2SF y)).
  destruct (SFcompare_defined (Prim2SF x) (Prim2SF y)) as [c Hc].
  - intros E. now rewrite E in Hx.
  - intros E. now rewrite E in Hy.
  - rewrite Hc. now destruct c.
Qed.

Lemma leb_refl (x : float) : is_nan x = false -> (x <=? x) = true.
Proof.
  rewrite is_nan_spec, leb_spec. unfold SFleb.
  destruct (Prim2SF x) as [s|s| |s m e]; simpl; auto; try discriminate.
  - now destruct s.
  - intros _. destruct s; rewrite Z.compare_refl, Pos.compare_cont_refl; reflexivity.
Qed.

Lemma SFleb_trans (a b c : spec_float) :
  SFleb a b = true -> SFleb b c = true -> SFleb a c = true.
Proof.
  unfold SFleb.
  destruct a as [sa|sa| |sa ma ea], b as [sb|sb| |sb mb eb], c as [sc|sc| |sc mc ec];
    simpl; try discriminate; auto;
    try (destruct sa; simpl; try discriminate; auto; fail);
    try (destruct sb; simpl; try discriminate; auto; fail);
    try (destruct sc; simpl; try discriminate; auto; fail);
    try (destruct sa, sb; simpl; try discriminate; auto; fail);
    try (destruct sa, sc; simpl; try discriminate; auto; fail);
    try (destruct sb, sc; simpl; try discriminate; auto; fail);
    try (destruct sa, sb, sc; simpl; try discriminate; auto; fail).
  destruct sa, sb, sc; simpl; try discriminate; auto;
    destruct (Z.compare_spec ea eb), (Z.compare_spec eb ec); try discriminate;
    destruct (Z.compare_spec ea ec); auto; try lia; subst;
    rewrite ?Pos.compare_cont_spec; unfold Pos.switch_Eq;
    destruct (Pos.compare_spec ma mb), (Pos.compare_spec mb mc); simpl; try discriminate;
    destruct (Pos.compare_spec ma mc); simpl; auto; try lia.
Qed.

Lemma leb_trans (x y z : float) :
  (x <=? y) = true -> (y <=? z) = true -> (x <=? z) = true.
Proof. rewrite !leb_spec. apply SFleb_trans. Qed.

Lemma leb_not_nan (x y : float) :
  (x <=? y) = true -> is_nan x = false /\ is_nan y = false.
Proof.
  rewrite !is_nan_spec, leb_spec. unfold SFleb.
  destruct (Prim2SF x), (Prim2SF y); simpl; try discriminate; auto.
Qed.

Lemma is_infinity_spec (x : float) :
  is_infinity x = match Prim2SF x with S754_infinity _ => true | _ => false end.
Proof.
  unfold is_infinity. rewrite eqb_spec, abs_spec. unfold SFeqb.
  replace (Prim2SF infinity) with (S754_infinity false) by reflexivity.
  destruct (Prim2SF x) as [s|s| |s m e]; simpl; auto.
Qed.

Lemma neg_infinity_leb (x : float) : is_nan x = false -> (neg_infinity <=? x) = true.
Proof.
  rewrite is_nan_spec, leb_spec. unfold SFleb.
  replace (Prim2SF neg_infinity) with (S754_infinity true) by reflexivity.
  destruct (Prim2SF x) as [s|s| |s m e]; simpl; auto; try discriminate.
  now destruct s.
Qed.

Lemma neg_infinity_ltb (x : float) :
  is_nan x = false -> is_infinity x = false -> (neg_infinity <? x) = true.
Proof.
  rewrite is_nan_spec, is_infinity_spec, ltb_spec. unfold SFltb.
  replace (Prim2SF neg_infinity) with (S754_infinity true) by reflexivity.
  destruct (Prim2SF x) as [s|s| |s m e]; simpl; auto; try discriminate.
Qed.

Lemma leb_infinity (x : float) : is_nan x = false -> (x <=? infinity) = true.
Proof.
  rewrite is_nan_spec, leb_spec. unfold SFleb.
  replace (Prim2SF infinity) with (S754_infinity false) by reflexivity.
  destruct (Prim2SF x) as [s|s| |s m e]; simpl; auto; try discriminate.
  now destruct s.
Qed.

Lemma ltb_infinity (x : float) :
  is_nan x = false -> is_infinity x = false -> (x <? infinity) = true.
Proof.
  rewrite is_nan_spec, is_infinity_spec, ltb_spec. unfold SFltb.
  replace (Prim2SF infinity) with (S754_infinity false) by reflexivity.
  destruct (Prim2SF x) as [s|s| |s m e]; simpl; auto; try discriminate.
Qed.

Lemma leb_total (x y : float) :
  is_nan x = false -> is_nan y = false -> (x <=? y) = false -> (y <=? x) = true.
Proof.
  rewrite !is_nan_spec, !leb_spec. unfold SFleb.
  intros Hx Hy. rewrite (SFcompare_antisym (Prim2SF x) (Prim2SF y)).
  destruct (SFcompare_defined (Prim2SF x) (Prim2SF y)) as [c Hc].
  - intros E. now rewrite E in Hx.
  - intros E. now rewrite E in Hy.
  - rewrite Hc. now destruct c.
Qed.

End FlOrder.

(** ** Tables *)

Lemma get_set_same (df : DataFrame) (c : string) (s : Series) :
  get_col (set_col df c s) c = Some s.
Proof.
  induction df as [|[c0 s0] rest IH]; simpl.
  - now rewrite String.eqb_refl.
  - destruct (String.eqb c c0) eqn:E; simpl; rewrite E; auto.
Qed.

Lemma get_set_other (df : DataFrame) (c c' : string) (s : Series) :
  c' <> c -> get_col (set_col df c s) c' = get_col df c'.
Proof.
  intros Hne. induction df as [|[c0 s0] rest IH]; simpl.
  - apply String.eqb_neq in Hne. now rewrite Hne.
  - destruct (String.eqb c c0) eqn:E; simpl.
    + apply String.eqb_eq in E. subst c0.
      apply String.eqb_neq in Hne. now rewrite Hne.
    + now rewrite IH.
Qed.

Lemma has_col_get (df : DataFrame) (c : string) :
  has_col df c = match get_col df c with Some _ => true | None => false end.
Proof.
  unfold has_col. induction df as [|[c0 s0] rest IH]; simpl; auto.
  destruct (String.eqb c c0); simpl; auto.
Qed.

Lemma has_col_true (df : DataFrame) (c : string) :
  has_col df c = true <-> exists s, get_col df c = Some s.
Proof.
  rewrite has_col_get. destruct (get_col df c); split; intros H; eauto;
    try discriminate. now destruct H.
Qed.

Lemma columns_set_present (df : DataFrame) (c : string) (s s' : Series) :
  get_col df c = Some s -> columns (set_col df c s') = columns df.
Proof.
  induction df as [|[c0 s0] rest IH]; simpl; intros H; [discriminate|].
  destruct (String.eqb c c0) eqn:E; simpl; auto.
  f_equal. auto.
Qed.

Lemma has_col_set (df : DataFrame) (c c' : string) (s : Series) :
  has_col (set_col df c s) c' = has_col df c' || String.eqb c' c.
Proof.
  rewrite !has_col_get.
  destruct (String.eqb c' c) eqn:E.
  - apply String.eqb_eq in E. subst. rewrite get_set_same.
    now rewrite orb_true_r.
  - apply String.eqb_neq in E. rewrite get_set_other by assumption.
    now rewrite orb_false_r.
Qed.

Lemma set_col_same (df : DataFrame) (c : string) (s : Series) :
  get_col df c = Some s -> set_col df c s = df.
Proof.
  induction df as [|[c0 s0] rest IH]; simpl; intros H; [discriminate|].
  destruct (String.eqb c c0) eqn:E.
  - now inversion H.
  - f_equal. auto.
Qed.

Lemma set_set_same (df : DataFrame) (c : string) (s s' : Series) :
  set_col (set_col df c s) c s' = set_col df c s'.
Proof.
  induction df as [|[c0 s0] rest IH]; simpl.
  - now rewrite String.eqb_refl.
  - destruct (String.eqb c c0) eqn:E; simpl; rewrite E; auto.
    f_equal. auto.
Qed.

(** ** Read-only computations *)

Lemma keeps_ret {A} (a : A) : keeps_frame (ret a).
Proof. now intros w. Qed.

Lemma keeps_lift {A} (r : result A) : keeps_frame (lift r).
Proof. now intros w. Qed.

Lemma keeps_bind {A B} (m : M A) (k : A -> M B) :
  keeps_frame m -> (forall a, keeps_frame (k a)) -> keeps_frame (bind m k).
Proof.
  intros Hm Hk w. unfold bind. specialize (Hm w).
  destruct (m w) as [[a|e] w'] eqn:E; simpl in *.
  - now rewrite Hk.
  - assumption.
Qed.

Lemma keeps_info (msg : string) : keeps_frame (logger_info msg).
Proof. now intros w. Qed.

Lemma keeps_contains (c : string) : keeps_frame (contains c).
Proof. now intros w. Qed.

Lemma keeps_the_frame : keeps_frame the_frame.
Proof. now intros w. Qed.

Lemma keeps_getitem (c : string) : keeps_frame (getitem c).
Proof. intros w. unfold getitem. now destruct (get_col (frame w) c). Qed.

Lemma keeps_for_fold {A B} (xs : list A) (body : B -> A -> M B) :
  (forall b a, keeps_frame (body b a)) ->
  forall acc, keeps_frame (for_fold xs acc body).
Proof.
  intros Hbody. induction xs as [|x rest IH]; intros acc; simpl.
  - apply keeps_ret.
  - apply keeps_bind; auto.
Qed.

Lemma keeps_if {A} (b : bool) (m1 m2 : M A) :
  keeps_frame m1 -> keeps_frame m2 -> keeps_frame (if b then m1 else m2).
Proof. now destruct b. Qed.

Create HintDb keeps.

#[local] Hint Resolve keeps_ret keeps_lift keeps_info keeps_contains
  keeps_the_frame keeps_getitem : keeps.

Ltac keeps_tac :=
  repeat first
    [ apply keeps_bind; [|intros ?]
    | apply keeps_for_fold; intros ? ?
    | apply keeps_if
    | solve [auto with keeps] ].

Lemma validate_data_reads_only : keeps_frame validate_data.
Proof. unfold validate_data. keeps_tac. Qed.

(** C8.  The Validator leaves the table completely unchanged: whatever world
    it starts from, and whether it returns its issue list or raises, the table
    afterwards is the table before. *)
Theorem validate_data_keeps_table (w : World) :
  frame (snd (validate_data w)) = frame w.
Proof. apply validate_data_reads_only. Qed.

(** ** Tables under in-place updates *)

Lemma get_upd_first (df : DataFrame) (c c' : string) (f : Series -> Series) :
  get_col (upd_first c f df) c' =
  if String.eqb c' c then option_map f (get_col df c) else get_col df c'.
Proof.
  induction df as [|[c0 s0] rest IH]; simpl.
  - now destruct (String.eqb c' c).
  - destruct (String.eqb c c0) eqn:E; simpl.
    + apply String.eqb_eq in E. subst c0.
      destruct (String.eqb c' c) eqn:E'; auto.
    + rewrite IH. destruct (String.eqb c' c) eqn:E'; auto.
      apply String.eqb_eq in E'. subst c'. now rewrite E.
Qed.

Lemma columns_upd_first (df : DataFrame) (c : string) (f : Series -> Series) :
  columns (upd_first c f df) = columns df.
Proof.
  induction df as [|[c0 s0] rest IH]; simpl; auto.
  destruct (String.eqb c c0); simpl; auto. f_equal. auto.
Qed.

Lemma upd_first_absent (df : DataFrame) (c : string) (f : Series -> Series) :
  get_col df c = None -> upd_first c f df = df.
Proof.
  induction df as [|[c0 s0] rest IH]; simpl; auto.
  destruct (String.eqb c c0); [discriminate|]. intros H. f_equal. auto.
Qed.

Lemma upd_first_fixed (df : DataFrame) (c : string) (f : Series -> Series) (s : Series) :
  get_col df c = Some s -> f s = s -> upd_first c f df = df.
Proof.
  induction df as [|[c0 s0] rest IH]; simpl; auto.
  destruct (String.eqb c c0).
  - intros H Hf. inversion H. subst. now rewrite Hf.
  - intros H Hf. f_equal. auto.
Qed.

Lemma set_col_upd_first (df : DataFrame) (c : string) (s s' : Series) :
  get_col df c = Some s -> set_col df c s' = upd_first c (fun _ => s') df.
Proof.
  induction df as [|[c0 s0] rest IH]; simpl; [discriminate|].
  destruct (String.eqb c c0); auto. intros H. f_equal. auto.
Qed.

Lemma upd_first_ext (df : DataFrame) (c : string) (f g : Series -> Series) (s : Series) :
  get_col df c = Some s -> f s = g s -> upd_first c f df = upd_first c g df.
Proof.
  induction df as [|[c0 s0] rest IH]; simpl; auto.
  destruct (String.eqb c c0).
  - intros H Hf. inversion H. subst. now rewrite Hf.
  - intros H Hf. f_equal. auto.
Qed.

Lemma upd_first_twice (df : DataFrame) (c : string) (f g : Series -> Series) :
  upd_first c f (upd_first c g df) = upd_first c (fun s => f (g s)) df.
Proof.
  induction df as [|[c0 s0] rest IH]; simpl; auto.
  destruct (String.eqb c c0) eqn:E; simpl; rewrite E; auto. f_equal. auto.
Qed.

Lemma upd_first_pointwise (df : DataFrame) (c : string) (f g : Series -> Series) :
  (forall s, f s = g s) -> upd_first c f df = upd_first c g df.
Proof.
  intros H. induction df as [|[c0 s0] rest IH]; simpl; auto.
  destruct (String.eqb c c0); [now rewrite H | now rewrite IH].
Qed.

Lemma upd_first_comm (df : DataFrame) (c c' : string) (f g : Series -> Series) :
  c <> c' ->
  upd_first c f (upd_first c' g df) = upd_first c' g (upd_first c f df).
Proof.
  intros Hne. induction df as [|[c0 s0] rest IH]; simpl; auto.
  destruct (String.eqb c' c0) eqn:E'; destruct (String.eqb c c0) eqn:E; simpl;
    rewrite ?E, ?E'; auto.
  - apply String.eqb_eq in E, E'. congruence.
  - f_equal. auto.
Qed.

Lemma get_remove_other (df : DataFrame) (b c : string) :
  c <> b -> get_col (remove_col b df) c = get_col df c.
Proof.
  intros Hne. induction df as [|[c0 s0] rest IH]; simpl; auto.
  destruct (String.eqb b c0) eqn:E; simpl.
  - apply String.eqb_eq in E. subst c0.
    apply String.eqb_neq in Hne. now rewrite Hne.
  - now rewrite IH.
Qed.

Lemma distinct_strings_NoDup (l : list string) :
  Pd.distinct_strings l = true -> NoDup l.
Proof.
  induction l as [|x rest IH]; simpl; intros H; constructor.
  - apply andb_prop in H. destruct H as [H _].
    intros Hin. apply negb_true_iff in H.
    assert (existsb (String.eqb x) rest = true) as E.
    { apply existsb_exists. exists x. split; auto. apply String.eqb_refl. }
    congruence.
  - apply andb_prop in H. tauto.
Qed.

Lemma dict_lookup_absent {V} (m : list (string * V)) (c : string) :
  ~ In c (map fst m) -> dict_lookup m c = None.
Proof.
  induction m as [|[k v] rest IH]; simpl; auto.
  intros H. destruct (String.eqb c k) eqn:E.
  - apply String.eqb_eq in E. subst. tauto.
  - apply IH. tauto.
Qed.

Lemma dict_lookup_In {V} (m : list (string * V)) (c : string) (v : V) :
  NoDup (map fst m) -> In (c, v) m -> dict_lookup m c = Some v.
Proof.
  induction m as [|[k v0] rest IH]; simpl; [tauto|].
  intros Hnd [H|H].
  - inversion H. subst. now rewrite String.eqb_refl.
  - inversion Hnd as [|? ? Hk Hrest]. subst.
    destruct (String.eqb c k) eqn:E.
    + apply String.eqb_eq in E. subst. exfalso. apply Hk.
      change k with (fst (k, v)). now apply in_map.
    + auto.
Qed.

(** ** Column-wise stages *)

Section ColumnwiseFacts.

Context {X : Type}.
Variable f : X -> Series -> result Series.
Variable msg : string -> X -> exn -> string.

#[local] Abbreviation try_f := (attempt f).
#[local] Abbreviation step := (columnwise_step f msg).
#[local] Abbreviation loop_frame := (columnwise_frame f).

(** The loop never raises, and each iteration is one [columnwise_step]. *)
Lemma columnwise_loop (m : list (string * X)) (w : World) :
  for_each m (fun entry =>
    let '(col, x) := entry in
    present <- contains col ;;
    if present : bool then
      try_except
        (s <- getitem col ;;
         s' <- lift (f x s) ;;
         setitem col s' ;;
         logger_debug)
        (fun e => logger_warning (msg col x e))
    else ret tt) w
  = (Ok tt, fold_left step m w).
Proof.
  revert w. induction m as [|[c t] rest IH]; intros w; simpl; auto.
  unfold bind at 1. unfold bind at 1. unfold contains at 1.
  rewrite has_col_get.
  unfold columnwise_step at 2. simpl fst. simpl snd.
  unfold attempt_log.
  destruct (get_col (frame w) c) as [s|] eqn:G.
  - unfold try_except, bind at 1, getitem at 1. rewrite G.
    unfold bind at 1, lift at 1.
    unfold attempt.
    destruct (f t s) as [s'|e] eqn:E.
    + unfold bind, setitem, logger_debug, ret. simpl.
      rewrite IH. f_equal. f_equal.
      rewrite app_nil_r.
      f_equal.
      rewrite (set_col_upd_first _ _ _ _ G).
      apply (upd_first_ext _ _ _ _ _ G). now rewrite E.
    + unfold logger_warning. rewrite IH. f_equal. f_equal.
      f_equal. symmetry. apply (upd_first_fixed _ _ _ _ G). now rewrite E.
  - unfold ret. rewrite IH. f_equal. f_equal.
    rewrite app_nil_r, upd_first_absent by assumption. now destruct w.
Qed.

Lemma frame_fold_step (m : list (string * X)) (w : World) :
  frame (fold_left step m w) = loop_frame m (frame w).
Proof.
  unfold columnwise_frame.
  revert w. induction m as [|e rest IH]; intros w; simpl; [reflexivity|].
  now rewrite IH.
Qed.

Lemma log_fold_step (m : list (string * X)) (w : World) (x : level * string) :
  In x (log w) -> In x (log (fold_left step m w)).
Proof.
  revert w. induction m as [|e rest IH]; intros w H; simpl; auto.
  apply IH. simpl. apply in_or_app. now left.
Qed.

Lemma columns_columnwise (m : list (string * X)) (df : DataFrame) :
  columns (loop_frame m df) = columns df.
Proof.
  unfold columnwise_frame.
  revert df. induction m as [|e rest IH]; intros df; simpl; [reflexivity|].
  rewrite IH. apply columns_upd_first.
Qed.

(** Each column of the result depends on that column of the input only. *)
Lemma get_columnwise (m : list (string * X)) (df : DataFrame) (c : string) :
  NoDup (map fst m) ->
  get_col (loop_frame m df) c = option_map (attempt_listed f m c) (get_col df c).
Proof.
  unfold columnwise_frame, attempt_listed.
  revert df. induction m as [|[c0 t0] rest IH]; intros df Hnd; simpl.
  - now destruct (get_col df c).
  - inversion Hnd as [|? ? Hk Hrest]. subst.
    rewrite IH by assumption.
    rewrite get_upd_first. simpl.
    destruct (String.eqb c c0) eqn:E.
    + apply String.eqb_eq in E. subst c0.
      rewrite (dict_lookup_absent rest c Hk).
      now destruct (get_col df c).
    + reflexivity.
Qed.

Lemma warning_in_log (m : list (string * X)) (w : World)
      (c : string) (x : X) (s : Series) (e : exn) :
  NoDup (map fst m) -> In (c, x) m ->
  get_col (frame w) c = Some s -> f x s = Raise e ->
  In (WARNING, msg c x e) (log (fold_left step m w)).
Proof.
  revert w. induction m as [|[c0 t0] rest IH]; intros w Hnd Hin G E; simpl.
  - destruct Hin.
  - inversion Hnd as [|? ? Hk Hrest]. subst. destruct Hin as [H|H].
    + inversion H. subst. apply log_fold_step. simpl.
      apply in_or_app. right. unfold attempt_log. rewrite G, E. now left.
    + apply IH; auto. simpl. rewrite get_upd_first.
      destruct (String.eqb c c0) eqn:E0; auto.
      apply String.eqb_eq in E0. subst. exfalso. apply Hk.
      change c0 with (fst (c0, x)). now apply in_map.
Qed.

Lemma columnwise_comm (m : list (string * X)) (df : DataFrame)
      (c : string) (g : Series -> Series) :
  ~ In c (map fst m) ->
  upd_first c g (loop_frame m df) = loop_frame m (upd_first c g df).
Proof.
  unfold columnwise_frame.
  revert df. induction m as [|[c0 t0] rest IH]; intros df Hk; simpl; [reflexivity|].
  simpl in Hk. rewrite IH by tauto.
  f_equal. apply upd_first_comm. intros ->. tauto.
Qed.

(** If one more attempt on an attempted column changes nothing, one more
    run of the loop changes nothing. *)
Lemma columnwise_idempotent (m : list (string * X)) (df : DataFrame) :
  (forall x s, try_f x (try_f x s) = try_f x s) ->
  NoDup (map fst m) -> loop_frame m (loop_frame m df) = loop_frame m df.
Proof.
  intros Hidem.
  revert df. induction m as [|[c0 t0] rest IH]; intros df Hnd; [reflexivity|].
  inversion Hnd as [|? ? Hk Hrest]. subst.
  change (loop_frame ((c0, t0) :: rest) df)
    with (loop_frame rest (upd_first c0 (try_f t0) df)).
  change (loop_frame ((c0, t0) :: rest) (loop_frame rest (upd_first c0 (try_f t0) df)))
    with (loop_frame rest (upd_first c0 (try_f t0)
                             (loop_frame rest (upd_first c0 (try_f t0) df)))).
  rewrite (columnwise_comm rest _ c0 _ Hk).
  rewrite upd_first_twice.
  rewrite (upd_first_pointwise df c0 _ (try_f t0)) by (intros; apply Hidem).
  now apply IH.
Qed.

End ColumnwiseFacts.

(** ** Type Optimizer *)

Lemma dtype_eqb_eq (a b : dtype) : dtype_eqb a b = true <-> a = b.
Proof.
  split.
  - destruct a as [[]|[]| |], b as [[]|[]| |]; simpl; congruence.
  - intros ->. now destruct b as [[]|[]| |].
Qed.

Lemma DTYPE_MAPPINGS_keys : NoDup (map fst DTYPE_MAPPINGS).
Proof. apply distinct_strings_NoDup. reflexivity. Qed.

Section OptimizeFacts.

Variable int_of_str : string -> option Z.
Variable float_of_str : string -> option float.

#[local] Abbreviation cast := (Pd.astype int_of_str float_of_str).
#[local] Abbreviation conv := (attempt cast).
#[local] Abbreviation optimize := (optimize_dtypes int_of_str float_of_str).

Lemma astype_float_dtype t xs s :
  Pd.astype_float t xs = Ok s -> dtype_of s = t.
Proof.
  destruct t; simpl; try (intros H; inversion H; reflexivity).
  destruct (forallb is_finite xs); intros H; inversion H; reflexivity.
Qed.

Lemma astype_object_dtype t xs s :
  Pd.astype_object int_of_str float_of_str t xs = Ok s -> dtype_of s = t.
Proof.
  destruct t; simpl; try (intros H; inversion H; reflexivity).
  - destruct (traverse _ xs); simpl; intros H; inversion H; reflexivity.
  - destruct (traverse _ xs); simpl; intros H; inversion H; reflexivity.
Qed.

Lemma astype_cat_dtype t xs s :
  Pd.astype_cat int_of_str float_of_str t xs = Ok s -> dtype_of s = t.
Proof.
  unfold Pd.astype_cat.
  destruct t as [w|p| |]; try (intros H; inversion H; reflexivity).
  - destruct (existsb isna xs); [discriminate|].
    destruct (forallb Pd.is_int_cell xs).
    { intros H. inversion H. reflexivity. }
    destruct (forallb _ xs).
    { apply astype_float_dtype. }
    destruct (Pd.astype_object _ _ _ xs) as [s0|[]] eqn:E; try discriminate.
    intros H. inversion H. subst. eapply astype_object_dtype; eauto.
  - destruct (forallb Pd.is_int_cell xs).
    { intros H. inversion H. reflexivity. }
    destruct (forallb _ xs).
    { apply astype_float_dtype. }
    destruct (Pd.astype_object _ _ _ xs) as [s0|[]] eqn:E; try discriminate.
    intros H. inversion H. subst. eapply astype_object_dtype; eauto.
Qed.

(** A successful cast yields a column of the target dtype. *)
Lemma astype_dtype t s s' : cast t s = Ok s' -> dtype_of s' = t.
Proof.
  unfold Pd.astype. destruct (dtype_eqb (dtype_of s) t) eqn:E.
  - intros H. inversion H. subst. now apply dtype_eqb_eq.
  - destruct s.
    + intros H. inversion H. now destruct t.
    + apply astype_float_dtype.
    + apply astype_cat_dtype.
    + apply astype_object_dtype.
Qed.

(** Casting a column to the dtype it has changes nothing. *)
Lemma astype_same t s : dtype_of s = t -> cast t s = Ok s.
Proof.
  intros H. unfold Pd.astype.
  now replace (dtype_eqb (dtype_of s) t) with true
    by (symmetry; now apply dtype_eqb_eq).
Qed.

Lemma convert_idempotent t s : conv t (conv t s) = conv t s.
Proof.
  unfold attempt at 2 3.
  destruct (cast t s) as [s'|e] eqn:E.
  - unfold attempt.
    now rewrite (astype_same t s' (astype_dtype _ _ _ E)).
  - unfold attempt. now rewrite E.
Qed.

Lemma optimize_dtypes_run (w : World) :
  optimize w =
  let w' := fold_left (columnwise_step cast conversion_message) DTYPE_MAPPINGS
                      (mkWorld (frame w) (log w ++ [(INFO, "Optimizing data types")])) in
  (Ok (frame w'), w').
Proof.
  unfold optimize_dtypes.
  unfold bind at 1. unfold logger_info at 1.
  unfold bind at 1.
  rewrite (columnwise_loop cast conversion_message). reflexivity.
Qed.

Lemma optimize_frame_after (df : DataFrame) :
  frame_after optimize df = columnwise_frame cast DTYPE_MAPPINGS df.
Proof.
  unfold frame_after, run. rewrite optimize_dtypes_run. cbv zeta. cbn [snd].
  now rewrite frame_fold_step.
Qed.

(** C5, as amended.  The Type Optimizer never aborts and handles every
    column on its own.  A column whose conversion raises (for instance a
    float column holding a missing or infinite value, cast to an integer
    type) is left as it was and a warning naming the column and the target
    type is logged; every other column comes out exactly as it would if the
    failing column were not in the table.  An integer column never fails:
    values outside the target width are wrapped around, not kept. *)
Theorem optimize_dtypes_isolates_failures (df : DataFrame) :
  let r := run optimize df in
  let df' := frame (snd r) in
  fst r = Ok df'
  /\ columns df' = columns df
  /\ (forall c, get_col df' c
                = option_map (attempt_listed cast DTYPE_MAPPINGS c) (get_col df c))
  /\ (forall c t s e,
        In (c, t) DTYPE_MAPPINGS -> get_col df c = Some s -> cast t s = Raise e ->
        get_col df' c = Some s
        /\ In (WARNING, conversion_message c t e) (log (snd r)))
  /\ (forall c w p xs,
        In (c, DInt w) DTYPE_MAPPINGS -> get_col df c = Some (FloatCol p xs) ->
        forallb is_finite xs = false ->
        get_col df' c = Some (FloatCol p xs))
  /\ (forall b c, c <> b ->
        get_col (frame_after optimize (remove_col b df)) c = get_col df' c)
  /\ (forall c w w' xs,
        In (c, DInt w') DTYPE_MAPPINGS -> get_col df c = Some (IntCol w xs) ->
        get_col df' c =
        Some (if iwidth_eqb w w' then IntCol w xs else IntCol w' (map (Pd.wrap w') xs))).
Proof.
  intros r df'.
  assert (Hget : forall d c, get_col (frame_after optimize d) c
                 = option_map (attempt_listed cast DTYPE_MAPPINGS c) (get_col d c)).
  { intros d c. rewrite optimize_frame_after.
    apply get_columnwise. apply DTYPE_MAPPINGS_keys. }
  assert (Hdf' : df' = frame_after optimize df) by reflexivity.
  assert (Hconv : forall c t s, In (c, t) DTYPE_MAPPINGS -> get_col df c = Some s ->
                                get_col df' c = Some (conv t s)).
  { intros c t s Hin G. rewrite Hdf', Hget, G. simpl. unfold attempt_listed.
    now rewrite (dict_lookup_In _ _ _ DTYPE_MAPPINGS_keys Hin). }
  split; [|split; [|split; [|split; [|split; [|split]]]]].
  - subst r df'. unfold run. now rewrite optimize_dtypes_run.
  - rewrite Hdf', optimize_frame_after. apply columns_columnwise.
  - intros c. rewrite Hdf'. apply Hget.
  - intros c t s e Hin G E. split.
    + rewrite (Hconv _ _ _ Hin G). unfold attempt. now rewrite E.
    + subst r. unfold run. rewrite optimize_dtypes_run. cbv zeta. cbn [snd].
      eapply warning_in_log; eauto. apply DTYPE_MAPPINGS_keys.
  - intros c w p xs Hin G Hfin. rewrite (Hconv _ _ _ Hin G).
    unfold attempt, Pd.astype. simpl. destruct p; simpl; now rewrite Hfin.
  - intros b c Hne. rewrite Hdf', !Hget. now rewrite get_remove_other.
  - intros c w w' xs Hin G. rewrite (Hconv _ _ _ Hin G).
    unfold attempt, Pd.astype. simpl.
    destruct (iwidth_eqb w w'); reflexivity.
Qed.

(** Running the Type Optimizer on its own output changes nothing. *)
Lemma optimize_dtypes_idempotent (df : DataFrame) :
  frame_after optimize (frame_after optimize df) = frame_after optimize df.
Proof.
  rewrite !optimize_frame_after.
  apply (columnwise_idempotent cast conversion_message);
    [intros; apply convert_idempotent | apply DTYPE_MAPPINGS_keys].
Qed.

End OptimizeFacts.

(** C5, the claim as stated fails: an int64 age-bracket column holding 300,
    which does not fit int8, is not left unmodified; it is converted to int8
    and the value becomes 44. *)
Lemma optimize_dtypes_wraps_out_of_range :
  let df := [("TP_FAIXA_ETARIA", IntCol W64 [300%Z])] in
  dict_lookup DTYPE_MAPPINGS "TP_FAIXA_ETARIA" = Some int8
  /\ Pd.in_range W8 300 = false
  /\ run (optimize_dtypes decimal_int decimal_float) df
     = (Ok [("TP_FAIXA_ETARIA", IntCol W8 [44%Z])],
        mkWorld [("TP_FAIXA_ETARIA", IntCol W8 [44%Z])]
                [(INFO, "Optimizing data types")])
  /\ frame_after (optimize_dtypes decimal_int decimal_float) df <> df.
Proof.
  repeat split; try reflexivity. vm_compute. discriminate.
Qed.

Lemma optimize_dtypes_isolates_failures_witness :
  let df := [("NU_ANO", FloatCol F64 [2023%float; nan]);
             ("TP_FAIXA_ETARIA", IntCol W64 [3%Z])] in
  let r := run (optimize_dtypes decimal_int decimal_float) df in
  get_col (frame (snd r)) "NU_ANO" = Some (FloatCol F64 [2023%float; nan])
  /\ In (WARNING, conversion_message "NU_ANO" int16
           (ValueError "Cannot convert non-finite values (NA or inf) to integer"))
        (log (snd r)).
Proof.
  intros df r.
  apply (proj1 (proj2 (proj2 (proj2
           (optimize_dtypes_isolates_failures decimal_int decimal_float df))))).
  - simpl. tauto.
  - reflexivity.
  - reflexivity.
Defined.

(** ** Category Mapper *)

Lemma CATEGORY_MAPPINGS_keys : NoDup (map fst CATEGORY_MAPPINGS).
Proof. apply distinct_strings_NoDup. reflexivity. Qed.

Lemma map_categories_run (w : World) :
  map_categories w =
  let w' := fold_left (columnwise_step relabel mapping_message) CATEGORY_MAPPINGS
                      (mkWorld (frame w) (log w ++ [(INFO, "Mapping categorical variables")])) in
  (Ok (frame w'), w').
Proof.
  unfold map_categories.
  unfold bind at 1. unfold logger_info at 1.
  unfold bind at 1.
  rewrite (columnwise_loop relabel mapping_message). reflexivity.
Qed.

Lemma map_categories_frame_after (df : DataFrame) :
  frame_after map_categories df = columnwise_frame relabel CATEGORY_MAPPINGS df.
Proof.
  unfold frame_after, run. rewrite map_categories_run. cbv zeta. cbn [snd].
  now rewrite frame_fold_step.
Qed.

Lemma dict_get_label (d : Pd.pydict) (v : scalar) (l : string) :
  Pd.dict_get d v = Some l -> In l (Pd.labels d).
Proof.
  unfold Pd.dict_get, Pd.labels.
  destruct (find _ d) as [[k l0]|] eqn:E; [|discriminate].
  intros H. inversion H. subst.
  apply find_some in E. destruct E as [E _].
  change l with (snd (k, l)). now apply in_map.
Qed.

(** After [map] and [fillna], a cell is a label or "Unknown". *)
Lemma relabelled_cell (d : Pd.pydict) (v : scalar) :
  is_label_or_unknown d (Pd.fill_cell (Str "Unknown") (Pd.lookup_cell d v)) = true.
Proof.
  assert (Hn : Pd.fill_cell (Str "Unknown") NaN = Str "Unknown") by reflexivity.
  assert (Hu : is_label_or_unknown d (Str "Unknown") = true).
  { simpl. apply orb_true_r. }
  unfold Pd.lookup_cell.
  destruct (isna v); [now rewrite Hn|].
  destruct (Pd.dict_get d v) as [l|] eqn:E; [|now rewrite Hn].
  simpl. apply dict_get_label in E.
  apply orb_true_iff. left. apply existsb_exists.
  exists l. split; auto. apply String.eqb_refl.
Qed.

Lemma relabelled_cells (d : Pd.pydict) (xs : list scalar) :
  forallb (is_label_or_unknown d)
          (map (Pd.fill_cell (Str "Unknown")) (map (Pd.lookup_cell d) xs)) = true.
Proof.
  induction xs as [|x rest IH]; simpl; auto.
  now rewrite relabelled_cell, IH.
Qed.

Lemma relabel_labelled (d : Pd.pydict) (s s' : Series) :
  relabel d s = Ok s' -> labelled d s' = true.
Proof.
  unfold relabel, labelled, Pd.map_dict.
  destruct s as [w xs|p xs|xs|xs]; simpl.
  - intros H. inversion H. simpl. apply relabelled_cells.
  - intros H. inversion H. simpl. apply relabelled_cells.
  - destruct (_ && _); simpl.
    + destruct (existsb _ _); [|discriminate].
      intros H. inversion H. simpl. apply relabelled_cells.
    + intros H. inversion H. simpl. apply relabelled_cells.
  - intros H. inversion H. simpl. apply relabelled_cells.
Qed.

(** Only a categorical column can make the mapping raise. *)
Lemma relabel_non_categorical (d : Pd.pydict) (s : Series) :
  dtype_of s <> category -> exists s', relabel d s = Ok s'.
Proof.
  unfold relabel, Pd.map_dict.
  destruct s as [w xs|p xs|xs|xs]; simpl; intros H; eauto.
  congruence.
Qed.




(** ** The scan behind [argmax] and [argmin] *)

Section Scan.

(** [le x y]: [x] is no better than [y].  [better x y]: [x] is strictly better
    than [y]. *)
Variable le : float -> float -> bool.
Variable better : float -> float -> bool.

Hypothesis better_le : forall x y,
  is_nan x = false -> is_nan y = false -> better x y = negb (le x y).
Hypothesis le_refl : forall x, is_nan x = false -> le x x = true.
Hypothesis le_trans : forall x y z, le x y = true -> le y z = true -> le x z = true.
Hypothesis le_total : forall x y,
  is_nan x = false -> is_nan y = false -> le x y = false -> le y x = true.

#[local] Abbreviation valid := (Forall (fun x => is_nan x = false)).

Lemma valid_nth (l : list float) (j : nat) :
  valid l -> j < List.length l -> is_nan (nth j l nan) = false.
Proof.
  intros H Hj. rewrite Forall_forall in H. apply H. now apply nth_In.
Qed.

Lemma scan_from_spec (xs pre : list float) (best : float) (besti : nat) :
  valid (pre ++ xs) ->
  besti < List.length pre ->
  nth besti pre nan = best ->
  (forall j, j < List.length pre -> le (nth j pre nan) best = true) ->
  (forall j, j < besti -> le best (nth j pre nan) = false) ->
  let l := pre ++ xs in
  let k := Pd.scan_from better best besti (List.length pre) xs in
  k < List.length l
  /\ (forall j, j < List.length l -> le (nth j l nan) (nth k l nan) = true)
  /\ (forall j, j < k -> le (nth k l nan) (nth j l nan) = false).
Proof.
  revert pre best besti.
  induction xs as [|x rest IH]; intros pre best besti Hv Hb Hn Hle Hlt; simpl.
  - rewrite app_nil_r. rewrite Hn. auto.
  - assert (Hvx : is_nan x = false).
    { rewrite Forall_forall in Hv. apply Hv. apply in_or_app. right. now left. }
    assert (Hvb : is_nan best = false).
    { rewrite <- Hn. rewrite <- (app_nth1 pre (x :: rest) nan Hb).
      apply valid_nth; auto. rewrite length_app. lia. }
    assert (Hl : pre ++ x :: rest = (pre ++ [x]) ++ rest).
    { now rewrite <- app_assoc. }
    assert (Hlen : List.length (pre ++ [x]) = S (List.length pre)).
    { rewrite length_app. simpl. lia. }
    assert (Hpre : forall j, j < List.length pre ->
                             nth j (pre ++ [x]) nan = nth j pre nan).
    { intros j Hj. now apply app_nth1. }
    assert (Hlast : nth (List.length pre) (pre ++ [x]) nan = x).
    { rewrite app_nth2 by lia. now rewrite Nat.sub_diag. }
    rewrite Hl. rewrite Hl in Hv. rewrite <- Hlen.
    destruct (better x best) eqn:B.
    + rewrite better_le in B by assumption. apply negb_true_iff in B.
      assert (Hbx : le best x = true) by (apply le_total; auto).
      rewrite Hlen at 1. rewrite <- Hlen.
      apply IH; auto.
      * lia.
      * intros j Hj. rewrite Hlen in Hj.
        destruct (Nat.eq_dec j (List.length pre)) as [->|Hne].
        -- rewrite Hlast. now apply le_refl.
        -- rewrite Hpre by lia. apply le_trans with best; auto. apply Hle. lia.
      * intros j Hj. rewrite Hpre by lia.
        destruct (le x (nth j pre nan)) eqn:E; auto.
        assert (le x best = true) by (apply le_trans with (nth j pre nan); auto).
        congruence.
    + rewrite better_le in B by assumption. apply negb_false_iff in B.
      apply IH; auto.
      * lia.
      * rewrite Hpre by lia. assumption.
      * intros j Hj. rewrite Hlen in Hj.
        destruct (Nat.eq_dec j (List.length pre)) as [->|Hne].
        -- now rewrite Hlast.
        -- rewrite Hpre by lia. apply Hle. lia.
      * intros j Hj. rewrite Hpre by lia. now apply Hlt.
Qed.

Lemma scan_spec (l : list float) :
  valid l -> l <> [] ->
  let k := Pd.scan better l in
  k < List.length l
  /\ (forall j, j < List.length l -> le (nth j l nan) (nth k l nan) = true)
  /\ (forall j, j < k -> le (nth k l nan) (nth j l nan) = false).
Proof.
  destruct l as [|x rest]; [congruence|]. intros Hv _.
  change (x :: rest) with ([x] ++ rest).
  apply (scan_from_spec rest [x] x 0); auto; try (simpl; lia);
    intros j Hj; simpl in Hj; try lia.
  assert (j = 0) by lia. subst. simpl.
  apply le_refl. now inversion Hv.
Qed.

End Scan.

Section Extremes.

Local Open Scope float_scope.

Lemma argmax_spec (l : list float) :
  Forall (fun x => is_nan x = false) l -> l <> [] ->
  let k := Pd.argmax l in
  (k < List.length l)%nat
  /\ (forall j, (j < List.length l)%nat -> (nth j l nan <=? nth k l nan) = true)
  /\ (forall j, (j < k)%nat -> (nth k l nan <=? nth j l nan) = false).
Proof.
  intros Hv Hne.
  apply (scan_spec (fun x y => x <=? y) (fun x best => best <? x)); auto.
  - intros x y Hx Hy. now apply FlOrder.ltb_negb_leb.
  - apply FlOrder.leb_refl.
  - apply FlOrder.leb_trans.
  - apply FlOrder.leb_total.
Qed.

Lemma argmin_spec (l : list float) :
  Forall (fun x => is_nan x = false) l -> l <> [] ->
  let k := Pd.argmin l in
  (k < List.length l)%nat
  /\ (forall j, (j < List.length l)%nat -> (nth k l nan <=? nth j l nan) = true)
  /\ (forall j, (j < k)%nat -> (nth j l nan <=? nth k l nan) = false).
Proof.
  intros Hv Hne.
  apply (scan_spec (fun x y => y <=? x) (fun x best => x <? best)); auto.
  - intros x y Hx Hy. now apply FlOrder.ltb_negb_leb.
  - apply FlOrder.leb_refl.
  - intros x y z H1 H2. now apply FlOrder.leb_trans with y.
  - intros x y Hx Hy. now apply FlOrder.leb_total.
Qed.

End Extremes.

Section NanExtremes.

Local Open Scope float_scope.

#[local] Abbreviation fill_low := (fun x => if is_nan x then neg_infinity else x).
#[local] Abbreviation fill_high := (fun x => if is_nan x then infinity else x).

Lemma nth_map_fill (g : float -> float) (r : list float) (j : nat) :
  (j < List.length r)%nat -> nth j (map g r) nan = g (nth j r nan).
Proof.
  intros Hj. rewrite (nth_indep (map g r) nan (g nan)) by now rewrite length_map.
  apply map_nth.
Qed.

Lemma some_present (r : list float) :
  existsb Fl.notnan r = true ->
  forallb is_nan r = false
  /\ exists m, (m < List.length r)%nat /\ is_nan (nth m r nan) = false.
Proof.
  intros H. apply existsb_exists in H. destruct H as [x [Hin Hx]].
  unfold Fl.notnan in Hx. apply negb_true_iff in Hx. split.
  - destruct (forallb is_nan r) eqn:E; auto.
    rewrite forallb_forall in E. specialize (E x Hin). congruence.
  - destruct (In_nth r x nan Hin) as [m [Hm Hnth]]. exists m. now rewrite Hnth.
Qed.

(** On a row with at least one value and no infinity, [nanargmax] returns the
    first position of the maximum of the values. *)
Lemma nanargmax_spec (r : list float) :
  Forall (fun x => is_infinity x = false) r ->
  existsb Fl.notnan r = true ->
  exists k, Pd.nanargmax r = Some k /\ first_max r k.
Proof.
  intros Hfin Hsome. destruct (some_present r Hsome) as [Hall [m [Hm Hrm]]].
  unfold Pd.nanargmax. rewrite Hall.
  set (l := map fill_low r).
  assert (Hlen : List.length l = List.length r) by apply length_map.
  assert (Hv : Forall (fun x => is_nan x = false) l).
  { apply Forall_forall. intros y Hy. apply in_map_iff in Hy.
    destruct Hy as [x [<- _]]. destruct (is_nan x) eqn:E; auto. }
  assert (Hne : l <> []).
  { intros E. rewrite E in Hlen. simpl in Hlen. lia. }
  destruct (argmax_spec l Hv Hne) as [Hk [Hmax Hfirst]].
  set (k := Pd.argmax l) in *.
  rewrite Hlen in Hk, Hmax.
  assert (Hnth : forall j, (j < List.length r)%nat ->
                           nth j l nan = fill_low (nth j r nan)).
  { intros j Hj. now apply nth_map_fill. }
  assert (Hrk : is_nan (nth k r nan) = false).
  { destruct (is_nan (nth k r nan)) eqn:E; auto.
    specialize (Hmax m Hm). rewrite !Hnth in Hmax by assumption.
    rewrite E, Hrm in Hmax.
    assert (Hinf : is_infinity (nth m r nan) = false).
    { rewrite Forall_forall in Hfin. apply Hfin. now apply nth_In. }
    pose proof (FlOrder.neg_infinity_ltb _ Hrm Hinf) as Hlt.
    rewrite FlOrder.ltb_negb_leb in Hlt by auto.
    rewrite Hmax in Hlt. discriminate. }
  exists k. split; auto. unfold first_max. repeat split; auto.
  - intros j Hj Hrj. specialize (Hmax j Hj).
    rewrite !Hnth in Hmax by assumption. now rewrite Hrj, Hrk in Hmax.
  - intros j Hj Hrj. specialize (Hfirst j Hj).
    rewrite !Hnth in Hfirst by lia. rewrite Hrj, Hrk in Hfirst.
    rewrite FlOrder.ltb_negb_leb by assumption. now rewrite Hfirst.
Qed.

Lemma nanargmin_spec (r : list float) :
  Forall (fun x => is_infinity x = false) r ->
  existsb Fl.notnan r = true ->
  exists k, Pd.nanargmin r = Some k /\ first_min r k.
Proof.
  intros Hfin Hsome. destruct (some_present r Hsome) as [Hall [m [Hm Hrm]]].
  unfold Pd.nanargmin. rewrite Hall.
  set (l := map fill_high r).
  assert (Hlen : List.length l = List.length r) by apply length_map.
  assert (Hv : Forall (fun x => is_nan x = false) l).
  { apply Forall_forall. intros y Hy. apply in_map_iff in Hy.
    destruct Hy as [x [<- _]]. destruct (is_nan x) eqn:E; auto. }
  assert (Hne : l <> []).
  { intros E. rewrite E in Hlen. simpl in Hlen. lia. }
  destruct (argmin_spec l Hv Hne) as [Hk [Hmin Hfirst]].
  set (k := Pd.argmin l) in *.
  rewrite Hlen in Hk, Hmin.
  assert (Hnth : forall j, (j < List.length r)%nat ->
                           nth j l nan = fill_high (nth j r nan)).
  { intros j Hj. now apply nth_map_fill. }
  assert (Hrk : is_nan (nth k r nan) = false).
  { destruct (is_nan (nth k r nan)) eqn:E; auto.
    specialize (Hmin m Hm). rewrite !Hnth in Hmin by assumption.
    rewrite E, Hrm in Hmin.
    assert (Hinf : is_infinity (nth m r nan) = false).
    { rewrite Forall_forall in Hfin. apply Hfin. now apply nth_In. }
    pose proof (FlOrder.ltb_infinity _ Hrm Hinf) as Hlt.
    rewrite FlOrder.ltb_negb_leb in Hlt by auto.
    rewrite Hmin in Hlt. discriminate. }
  exists k. split; auto. unfold first_min. repeat split; auto.
  - intros j Hj Hrj. specialize (Hmin j Hj).
    rewrite !Hnth in Hmin by assumption. now rewrite Hrj, Hrk in Hmin.
  - intros j Hj Hrj. specialize (Hfirst j Hj).
    rewrite !Hnth in Hfirst by lia. rewrite Hrj, Hrk in Hfirst.
    rewrite FlOrder.ltb_negb_leb by assumption. now rewrite Hfirst.
Qed.

Lemma nanargmax_all_missing (r : list float) :
  forallb is_nan r = true -> Pd.nanargmax r = None.
Proof. intros H. unfold Pd.nanargmax. now rewrite H. Qed.

Lemma nanargmin_all_missing (r : list float) :
  forallb is_nan r = true -> Pd.nanargmin r = None.
Proof. intros H. unfold Pd.nanargmin. now rewrite H. Qed.

End NanExtremes.

(** ** Derived-Feature Builder *)

Lemma subframe_set_other (df : DataFrame) (c : string) (s : Series) (cols : list string) :
  ~ In c cols -> Pd.subframe (set_col df c s) cols = Pd.subframe df cols.
Proof.
  induction cols as [|c0 rest IH]; simpl; intros H; auto.
  rewrite get_set_other by (intros ->; tauto).
  rewrite IH by tauto. reflexivity.
Qed.

Lemma all_present_set (df : DataFrame) (c : string) (s : Series) (cols : list string) :
  forallb (has_col df) cols = true ->
  forallb (has_col (set_col df c s)) cols = true.
Proof.
  rewrite !forallb_forall. intros H x Hx.
  rewrite has_col_set, (H x Hx). reflexivity.
Qed.

Lemma create_derived_features_run (w : World) :
  create_derived_features w =
  let w0 := mkWorld (frame w) (log w ++ [(INFO, "Creating derived features")]) in
  if forallb (has_col (frame w)) score_cols then
    match Pd.subframe (frame w) score_cols with
    | Ok sub =>
        match Pd.rows sub with
        | Ok rs =>
            if Pd.object_values sub
            then (Raise argmax_error,
                  mkWorld (with_scores (frame w) sub rs) (log w0))
            else (Ok (with_derived (frame w) sub rs),
                  mkWorld (with_derived (frame w) sub rs) (log w0))
        | Raise e => (Raise e, w0)
        end
    | Raise e => (Raise e, w0)
    end
  else (Ok (frame w), w0).
Proof.
  assert (Hnot : forall c, In c derived_cols -> ~ In c score_cols).
  { intros c Hc Hs. simpl in Hc, Hs.
    repeat match goal with
           | H : _ \/ _ |- _ => destruct H
           | H : False |- _ => destruct H
           end; subst; discriminate. }
  unfold create_derived_features.
  unfold bind, logger_info, all_present, the_frame, lift, setitem, logger_debug, ret.
  cbn [frame log].
  destruct (forallb (has_col (frame w)) score_cols) eqn:P.
  2:{ repeat (cbn [frame log]; rewrite ?P). reflexivity. }
  cbn [frame log].
  destruct (Pd.subframe (frame w) score_cols) as [sub|e] eqn:S; [|reflexivity].
  unfold Pd.mean_axis1, Pd.std_axis1, Pd.idxmax_axis1, Pd.idxmin_axis1.
  destruct (Pd.rows sub) as [rs|e] eqn:R; [|reflexivity].
  cbn [rbind frame log].
  destruct (Pd.object_values sub) eqn:O.
  - repeat first
      [ rewrite all_present_set by (repeat apply all_present_set; exact P)
      | rewrite subframe_set_other by (apply Hnot; simpl; tauto)
      | rewrite S
      | rewrite R
      | rewrite O
      | progress cbn [rbind frame log] ].
    reflexivity.
  - repeat first
      [ rewrite all_present_set by (repeat apply all_present_set; exact P)
      | rewrite subframe_set_other by (apply Hnot; simpl; tauto)
      | rewrite S
      | rewrite R
      | rewrite O
      | progress cbn [rbind frame log] ].
    reflexivity.
Qed.

Lemma subframe_total (df : DataFrame) (cols : list string) :
  forallb (has_col df) cols = true -> exists sub, Pd.subframe df cols = Ok sub.
Proof.
  induction cols as [|c rest IH]; simpl; intros H; eauto.
  apply andb_prop in H. destruct H as [Hc Hrest].
  apply has_col_true in Hc. destruct Hc as [s Hs]. rewrite Hs.
  destruct (IH Hrest) as [sub Hsub]. rewrite Hsub. simpl. eauto.
Qed.

Lemma subframe_get (df : DataFrame) (cols : list string) (sub : DataFrame) :
  Pd.subframe df cols = Ok sub ->
  columns sub = cols /\ forall c s, In (c, s) sub -> get_col df c = Some s.
Proof.
  revert sub. induction cols as [|c rest IH]; simpl; intros sub H.
  - inversion H. simpl. split; auto. intros ? ? [].
  - destruct (get_col df c) as [s0|] eqn:G; [|discriminate].
    destruct (Pd.subframe df rest) as [sub0|] eqn:S; [|discriminate].
    simpl in H. inversion H. subst. destruct (IH sub0 eq_refl) as [Hc Hg].
    split.
    + simpl. now rewrite Hc.
    + intros c' s' [Heq|Hin]; [inversion Heq; now subst|auto].
Qed.

Lemma traverse_total {A B} (g : A -> result B) (xs : list A) :
  (forall x, In x xs -> exists y, g x = Ok y) -> exists ys, traverse g xs = Ok ys.
Proof.
  induction xs as [|x rest IH]; simpl; intros H; eauto.
  destruct (H x (or_introl eq_refl)) as [y Hy]. rewrite Hy.
  destruct IH as [ys Hys]; [intros; apply H; now right|].
  rewrite Hys. simpl. eauto.
Qed.

Lemma as_floats_numeric (s : Series) :
  is_numeric s = true -> exists fs, Pd.as_floats s = Ok fs.
Proof. destruct s; simpl; intros H; try discriminate; eauto. Qed.

Lemma rows_total (df : DataFrame) (sub : DataFrame) :
  scores_numeric df = true -> Pd.subframe df score_cols = Ok sub ->
  exists rs, Pd.rows sub = Ok rs.
Proof.
  intros Hnum S. destruct (subframe_get _ _ _ S) as [Hc Hg].
  unfold Pd.rows.
  destruct (traverse_total (fun cs => Pd.as_floats (snd cs)) sub) as [fs Hfs].
  - intros [c s] Hin. simpl. apply as_floats_numeric.
    unfold scores_numeric in Hnum. rewrite forallb_forall in Hnum.
    assert (In c score_cols) as Hcin.
    { rewrite <- Hc. change c with (fst (c, s)). now apply in_map. }
    specialize (Hnum c Hcin). now rewrite (Hg c s Hin) in Hnum.
  - rewrite Hfs. simpl. eauto.
Qed.

Lemma numeric_values (df : DataFrame) (sub : DataFrame) :
  scores_numeric df = true -> Pd.subframe df score_cols = Ok sub ->
  Pd.object_values sub = false.
Proof.
  intros Hnum S. destruct (subframe_get _ _ _ S) as [Hc Hg].
  unfold Pd.object_values.
  destruct (existsb _ sub) eqn:E; auto. exfalso.
  apply existsb_exists in E. destruct E as [[c s] [Hin Hs]]. simpl in Hs.
  unfold scores_numeric in Hnum. rewrite forallb_forall in Hnum.
  assert (In c score_cols) as Hcin.
  { rewrite <- Hc. change c with (fst (c, s)). now apply in_map. }
  specialize (Hnum c Hcin). rewrite (Hg c s Hin) in Hnum.
  destruct s; simpl in Hnum, Hs; discriminate.
Qed.

Lemma has_col_with_derived (df sub : DataFrame) (rs : list (list float)) (d : string) :
  has_col (with_derived df sub rs) d = has_col df d || existsb (String.eqb d) derived_cols.
Proof.
  unfold with_derived. cbv zeta. rewrite !has_col_set. simpl.
  rewrite orb_false_r. rewrite <- !orb_assoc. reflexivity.
Qed.

(** C3.  When a core score column is missing, the Derived-Feature Builder
    returns the table as it is, without an error.  On a table whose score
    columns are numeric it never raises, and a derived column is in the result
    exactly when all four score columns are present (or the column was in the
    table already). *)
Theorem derived_features_all_or_nothing (df : DataFrame) :
  let r := run create_derived_features df in
  let df' := frame (snd r) in
  (forallb (has_col df) score_cols = false -> fst r = Ok df /\ df' = df)
  /\ (scores_numeric df = true -> fst r = Ok df')
  /\ (scores_numeric df = true ->
      forall d, In d derived_cols ->
                (has_col df' d = true <->
                 forallb (has_col df) score_cols = true \/ has_col df d = true)).
Proof.
  intros r df'. subst r df'. unfold run.
  rewrite create_derived_features_run. cbv zeta. cbn [frame log].
  destruct (forallb (has_col df) score_cols) eqn:P.
  - destruct (subframe_total df score_cols P) as [sub S]. rewrite S.
    split; [discriminate|].
    split.
    + intros Hnum. destruct (rows_total df sub Hnum S) as [rs R]. rewrite R.
      now rewrite (numeric_values df sub Hnum S).
    + intros Hnum d Hd. destruct (rows_total df sub Hnum S) as [rs R]. rewrite R.
      rewrite (numeric_values df sub Hnum S).
      cbn [snd frame]. rewrite has_col_with_derived.
      assert (existsb (String.eqb d) derived_cols = true) as E.
      { apply existsb_exists. exists d. split; auto. apply String.eqb_refl. }
      rewrite E, orb_true_r. tauto.
  - cbn [fst snd frame]. repeat split; auto.
    intros [E|E]; [discriminate|assumption].
Qed.

Lemma derived_features_all_or_nothing_witness :
  let df := [("NU_NOTA_CN", FloatCol F64 [500%float]);
             ("NU_NOTA_CH", FloatCol F64 [600%float]);
             ("NU_NOTA_MT", FloatCol F64 [800%float])] in
  fst (run create_derived_features df) = Ok df
  /\ frame (snd (run create_derived_features df)) = df.
Proof.
  intros df.
  apply (proj1 (derived_features_all_or_nothing df)).
  reflexivity.
Defined.

Lemma get_with_derived (df sub : DataFrame) (rs : list (list float)) :
  let p := Pd.common_prec sub in
  let df' := with_derived df sub rs in
  get_col df' "AVERAGE_SCORE" = Some (FloatCol p (map (Pd.nanmean p) rs))
  /\ get_col df' "SCORE_STD" = Some (FloatCol p (map (Pd.nanstd p) rs))
  /\ get_col df' "BEST_SUBJECT"
     = Some (Pd.map_dict subject_names
               (ObjectCol (map (fun r => Pd.label_at sub (Pd.nanargmax r)) rs)))
  /\ get_col df' "WORST_SUBJECT"
     = Some (Pd.map_dict subject_names
               (ObjectCol (map (fun r => Pd.label_at sub (Pd.nanargmin r)) rs))).
Proof.
  unfold with_derived. cbv zeta.
  repeat split;
    repeat first [ rewrite get_set_same | rewrite get_set_other by discriminate ];
    reflexivity.
Qed.

Lemma with_derived_twice (df sub : DataFrame) (rs : list (list float)) :
  with_derived (with_derived df sub rs) sub rs = with_derived df sub rs.
Proof.
  destruct (get_with_derived df sub rs) as [Ha [Hs [Hb Hw]]].
  cbv zeta in Ha, Hs, Hb, Hw.
  unfold with_derived at 1. cbv zeta.
  rewrite (set_col_same _ _ _ Ha).
  rewrite (set_col_same _ _ _ Hs).
  rewrite (set_col_same _ _ _ Hb).
  now rewrite (set_col_same _ _ _ Hw).
Qed.

Lemma get_with_scores (df sub : DataFrame) (rs : list (list float)) :
  let p := Pd.common_prec sub in
  let df' := with_scores df sub rs in
  get_col df' "AVERAGE_SCORE" = Some (FloatCol p (map (Pd.nanmean p) rs))
  /\ get_col df' "SCORE_STD" = Some (FloatCol p (map (Pd.nanstd p) rs)).
Proof.
  unfold with_scores. cbv zeta.
  repeat split;
    repeat first [ rewrite get_set_same | rewrite get_set_other by discriminate ];
    reflexivity.
Qed.

Lemma with_scores_twice (df sub : DataFrame) (rs : list (list float)) :
  with_scores (with_scores df sub rs) sub rs = with_scores df sub rs.
Proof.
  destruct (get_with_scores df sub rs) as [Ha Hs].
  cbv zeta in Ha, Hs.
  unfold with_scores at 1. cbv zeta.
  rewrite (set_col_same _ _ _ Ha).
  now rewrite (set_col_same _ _ _ Hs).
Qed.

(** Running the Derived-Feature Builder on its own output changes nothing. *)
Lemma create_derived_features_idempotent (df : DataFrame) :
  frame_after create_derived_features (frame_after create_derived_features df)
  = frame_after create_derived_features df.
Proof.
  assert (Hnot : forall c, In c derived_cols -> ~ In c score_cols).
  { intros c Hc Hs. simpl in Hc, Hs.
    repeat match goal with
           | H : _ \/ _ |- _ => destruct H
           | H : False |- _ => destruct H
           end; subst; discriminate. }
  unfold frame_after, run. rewrite !create_derived_features_run.
  cbv zeta. cbn [frame log].
  destruct (forallb (has_col df) score_cols) eqn:P.
  - destruct (Pd.subframe df score_cols) as [sub|e] eqn:S.
    + destruct (Pd.rows sub) as [rs|e] eqn:R; cbn [snd frame log].
      * destruct (Pd.object_values sub) eqn:O; cbn [snd frame log].
        -- assert (P' : forallb (has_col (with_scores df sub rs)) score_cols = true).
           { unfold with_scores. cbv zeta. now repeat apply all_present_set. }
           assert (S' : Pd.subframe (with_scores df sub rs) score_cols = Ok sub).
           { unfold with_scores. cbv zeta.
             repeat (rewrite subframe_set_other by (apply Hnot; simpl; tauto)).
             exact S. }
           rewrite P', S', R, O. cbn [snd frame]. apply with_scores_twice.
        -- assert (P' : forallb (has_col (with_derived df sub rs)) score_cols = true).
           { unfold with_derived. cbv zeta. now repeat apply all_present_set. }
           assert (S' : Pd.subframe (with_derived df sub rs) score_cols = Ok sub).
           { unfold with_derived. cbv zeta.
             repeat (rewrite subframe_set_other by (apply Hnot; simpl; tauto)).
             exact S. }
           rewrite P', S', R, O. cbn [snd frame]. apply with_derived_twice.
      * now rewrite P, S, R.
    + cbn [snd frame log]. now rewrite P, S.
  - cbn [snd frame log]. now rewrite P.
Qed.

Lemma nth_error_map_seq {A} (g : nat -> A) (n i : nat) :
  i < n -> nth_error (map g (seq 0 n)) i = Some (g i).
Proof.
  intros H. rewrite nth_error_map.
  rewrite nth_error_nth' with (d := 0) by now rewrite length_seq.
  simpl. now rewrite seq_nth.
Qed.

Lemma as_floats_length (s : Series) (fs : list float) :
  Pd.as_floats s = Ok fs -> List.length fs = len s.
Proof.
  unfold len. destruct s as [w xs|p xs|xs|xs]; simpl; try discriminate.
  - intros H. inversion H. now rewrite !length_map.
  - intros H. inversion H. now rewrite !length_map.
  - revert fs. induction xs as [|x rest IH]; simpl; intros fs H.
    + now inversion H.
    + destruct x; try discriminate;
        destruct (traverse _ rest) as [ys|] eqn:T; try discriminate;
        simpl in H; inversion H; simpl; f_equal; now apply IH.
Qed.

Lemma subject_label (k : nat) :
  k < 4 ->
  Pd.lookup_cell subject_names (Str (nth k score_cols "")) = Str (subject_of k).
Proof.
  intros H.
  destruct k as [|[|[|[|k]]]]; try lia; reflexivity.
Qed.

Lemma as_floats_of (s : Series) :
  is_numeric s = true -> Pd.as_floats s = Ok (floats_of s).
Proof. destruct s; simpl; intros H; try discriminate; reflexivity. Qed.

(** The float the reductions see at a position is the score the cell
    holds. *)
Lemma nth_floats_of (s : Series) (i : nat) :
  is_numeric s = true ->
  nth i (floats_of s) nan = score_of (nth_error (values s) i).
Proof.
  destruct s as [w xs|p xs|xs|xs]; simpl; intros H; try discriminate.
  - revert i. induction xs as [|x rest IH]; intros [|i]; simpl; auto.
  - revert i. induction xs as [|x rest IH]; intros [|i]; simpl; auto.
Qed.

Section DerivedRows.

Local Open Scope float_scope.

Variables (df : DataFrame) (s1 s2 s3 s4 : Series).

Hypothesis G1 : get_col df "NU_NOTA_CN" = Some s1.
Hypothesis G2 : get_col df "NU_NOTA_CH" = Some s2.
Hypothesis G3 : get_col df "NU_NOTA_LC" = Some s3.
Hypothesis G4 : get_col df "NU_NOTA_MT" = Some s4.
Hypothesis N1 : is_numeric s1 = true.
Hypothesis N2 : is_numeric s2 = true.
Hypothesis N3 : is_numeric s3 = true.
Hypothesis N4 : is_numeric s4 = true.

#[local] Abbreviation sub :=
  [("NU_NOTA_CN", s1); ("NU_NOTA_CH", s2); ("NU_NOTA_LC", s3); ("NU_NOTA_MT", s4)].

#[local] Abbreviation rs :=
  (map (Pd.row [floats_of s1; floats_of s2; floats_of s3; floats_of s4])
       (seq 0%nat (len s1))).

Lemma derived_frame_after :
  frame_after create_derived_features df = with_derived df sub rs.
Proof.
  unfold frame_after, run. rewrite create_derived_features_run.
  cbv zeta. cbn [frame log].
  assert (P : forallb (has_col df) score_cols = true).
  { simpl. rewrite !has_col_get, G1, G2, G3, G4. reflexivity. }
  assert (S : Pd.subframe df score_cols = Ok sub).
  { simpl. now rewrite G1, G2, G3, G4. }
  assert (R : Pd.rows sub = Ok rs).
  { unfold Pd.rows. simpl.
    now rewrite (as_floats_of s1 N1), (as_floats_of s2 N2),
                (as_floats_of s3 N3), (as_floats_of s4 N4). }
  assert (O : Pd.object_values sub = false).
  { unfold Pd.object_values. simpl.
    destruct s1, s2, s3, s4; try discriminate; reflexivity. }
  now rewrite P, S, R, O.
Qed.

(** The row the reductions see is the row of the table's cells. *)
Lemma row_of_cells (i : nat) :
  Pd.row [floats_of s1; floats_of s2; floats_of s3; floats_of s4] i = score_row df i.
Proof.
  unfold Pd.row, score_row, cell. simpl. rewrite G1, G2, G3, G4.
  now rewrite (nth_floats_of s1 i N1), (nth_floats_of s2 i N2),
              (nth_floats_of s3 i N3), (nth_floats_of s4 i N4).
Qed.

Lemma common_prec_scores : Pd.common_prec sub = score_prec df.
Proof.
  unfold Pd.common_prec, score_prec. simpl. now rewrite G1, G2, G3, G4.
Qed.

End DerivedRows.

Lemma present_nonempty (r : list float) :
  filter Fl.notnan r <> [] <-> existsb Fl.notnan r = true.
Proof.
  induction r as [|x rest IH]; simpl.
  - split; [congruence|discriminate].
  - destruct (Fl.notnan x); simpl.
    + split; auto. discriminate.
    + exact IH.
Qed.

Lemma present_empty (r : list float) :
  filter Fl.notnan r = [] -> forallb is_nan r = true.
Proof.
  induction r as [|x rest IH]; simpl; auto.
  unfold Fl.notnan at 1. destruct (is_nan x); simpl; [auto|discriminate].
Qed.

Lemma nanstd_sample (p : fprec) (r : list float) :
  2 <= List.length (filter Fl.notnan r) ->
  Pd.nanstd p r = sample_std p (filter Fl.notnan r).
Proof.
  intros H. unfold Pd.nanstd, Pd.nanvar, sample_std.
  destruct (Nat.leb (List.length (filter Fl.notnan r)) 1) eqn:E.
  - apply Nat.leb_le in E. lia.
  - reflexivity.
Qed.

Lemma nanstd_undefined (p : fprec) (r : list float) :
  List.length (filter Fl.notnan r) <= 1 -> Pd.nanstd p r = nan.
Proof.
  intros H. unfold Pd.nanstd, Pd.nanvar.
  destruct (Nat.leb (List.length (filter Fl.notnan r)) 1) eqn:E.
  - now destruct p.
  - apply Nat.leb_gt in E. lia.
Qed.

Lemma arithmetic_mean_nil (p : fprec) : arithmetic_mean p [] = nan.
Proof. now destruct p. Qed.

Section FilledExtremes.

Local Open Scope float_scope.

(** Whatever the row holds, [nanargmax] returns the first position of the
    greatest value once every missing score is counted as -inf. *)
Lemma nanargmax_filled (r : list float) :
  existsb Fl.notnan r = true ->
  exists k, Pd.nanargmax r = Some k /\ first_greatest (map missing_low r) k.
Proof.
  intros Hsome. destruct (some_present r Hsome) as [Hall [m [Hm Hrm]]].
  unfold Pd.nanargmax. rewrite Hall.
  change (fun x => if is_nan x then neg_infinity else x) with missing_low.
  set (l := map missing_low r).
  assert (Hv : Forall (fun x => is_nan x = false) l).
  { apply Forall_forall. intros y Hy. apply in_map_iff in Hy.
    destruct Hy as [x [<- _]]. unfold missing_low. destruct (is_nan x) eqn:E; auto. }
  assert (Hne : l <> []).
  { intros E. apply (f_equal (@List.length float)) in E.
    unfold l in E. rewrite length_map in E. simpl in E. lia. }
  destruct (argmax_spec l Hv Hne) as [Hk [Hmax Hfirst]].
  exists (Pd.argmax l). split; auto. repeat split; auto.
  intros j Hj. rewrite Forall_forall in Hv.
  rewrite FlOrder.ltb_negb_leb by (apply Hv, nth_In; lia).
  now rewrite Hfirst.
Qed.

Lemma nanargmin_filled (r : list float) :
  existsb Fl.notnan r = true ->
  exists k, Pd.nanargmin r = Some k /\ first_least (map missing_high r) k.
Proof.
  intros Hsome. destruct (some_present r Hsome) as [Hall [m [Hm Hrm]]].
  unfold Pd.nanargmin. rewrite Hall.
  change (fun x => if is_nan x then infinity else x) with missing_high.
  set (l := map missing_high r).
  assert (Hv : Forall (fun x => is_nan x = false) l).
  { apply Forall_forall. intros y Hy. apply in_map_iff in Hy.
    destruct Hy as [x [<- _]]. unfold missing_high. destruct (is_nan x) eqn:E; auto. }
  assert (Hne : l <> []).
  { intros E. apply (f_equal (@List.length float)) in E.
    unfold l in E. rewrite length_map in E. simpl in E. lia. }
  destruct (argmin_spec l Hv Hne) as [Hk [Hmin Hfirst]].
  exists (Pd.argmin l). split; auto. repeat split; auto.
  intros j Hj. rewrite Forall_forall in Hv.
  rewrite FlOrder.ltb_negb_leb by (apply Hv, nth_In; lia).
  now rewrite Hfirst.
Qed.

End FilledExtremes.




(** ** Validator *)

Lemma get_col_loc (df : DataFrame) (mask : list bool) (c : string) :
  get_col (Pd.loc df mask) c = option_map (Pd.take_rows mask) (get_col df c).
Proof.
  unfold Pd.loc. induction df as [|[c0 s0] rest IH]; simpl; auto.
  destruct (String.eqb c c0); auto.
Qed.

Lemma select_map {A} (test : A -> bool) (xs : list A) :
  Pd.select (map test xs) xs = filter test xs.
Proof.
  unfold Pd.select. induction xs as [|x rest IH]; simpl; auto.
  destruct (test x); simpl; now rewrite IH.
Qed.

Lemma mask_or_map {A} (f g : A -> bool) (xs : list A) :
  Pd.mask_or (map f xs) (map g xs) = map (fun x => f x || g x) xs.
Proof.
  unfold Pd.mask_or. induction xs as [|x rest IH]; simpl; auto. now rewrite IH.
Qed.

Lemma mask_and_map {A} (f g : A -> bool) (xs : list A) :
  Pd.mask_and (map f xs) (map g xs) = map (fun x => f x && g x) xs.
Proof.
  unfold Pd.mask_and. induction xs as [|x rest IH]; simpl; auto. now rewrite IH.
Qed.

Lemma length_filter_map {A B} (g : A -> B) (test : B -> bool) (xs : list A) :
  List.length (filter test (map g xs)) = List.length (filter (fun x => test (g x)) xs).
Proof.
  induction xs as [|x rest IH]; simpl; auto.
  destruct (test (g x)); simpl; now rewrite IH.
Qed.

(** Boolean indexing with the out-of-range mask keeps exactly the cells the
    specification counts. *)
Lemma out_of_range_count (s : Series) :
  is_numeric s = true ->
  exists mask, out_of_range s = Ok mask
               /\ len (Pd.take_rows mask s) = count_cells invalid_score s.
Proof.
  unfold out_of_range, Pd.lt, Pd.gt, Pd.notna_mask, count_cells, len.
  destruct s as [w xs|p xs|xs|xs]; simpl; try discriminate; intros _.
  - eexists. split; [reflexivity|].
    rewrite mask_or_map, map_map, mask_and_map. simpl.
    rewrite select_map, !length_map, length_filter_map. reflexivity.
  - eexists. split; [reflexivity|].
    rewrite mask_or_map, map_map, mask_and_map. simpl.
    rewrite select_map, !length_map, length_filter_map. reflexivity.
Qed.

Lemma below_one_count (s : Series) :
  is_numeric s = true ->
  exists mask, Pd.lt s 1 = Ok mask
               /\ len (Pd.take_rows mask s) = count_cells invalid_age s.
Proof.
  unfold Pd.lt, count_cells, len.
  destruct s as [w xs|p xs|xs|xs]; simpl; try discriminate; intros _.
  - eexists. split; [reflexivity|].
    rewrite select_map, !length_map, length_filter_map. reflexivity.
  - eexists. split; [reflexivity|].
    rewrite select_map, !length_map, length_filter_map. reflexivity.
Qed.

Lemma typed_column (df : DataFrame) (c : string) (s : Series) :
  validator_typed df = true ->
  In c (score_cols ++ ["NU_NOTA_REDACAO"; "TP_FAIXA_ETARIA"]) ->
  get_col df c = Some s -> is_numeric s = true.
Proof.
  unfold validator_typed. rewrite forallb_forall. intros H Hin G.
  specialize (H c Hin). now rewrite G in H.
Qed.

(** One check of the Validator: the membership test, the mask, the boolean
    indexing and the conditional append. *)
Lemma check_block (w : World) (col : string) (issues : list string)
      (mask_of : Series -> result (list bool)) (test : scalar -> bool)
      (message : nat -> string) :
  (forall s, get_col (frame w) col = Some s ->
             exists mask, mask_of s = Ok mask
                          /\ len (Pd.take_rows mask s) = count_cells test s) ->
  (present <- contains col ;;
   if present : bool then
     s <- getitem col ;;
     mask <- lift (mask_of s) ;;
     df <- the_frame ;;
     invalid <- lift (column_of (Pd.loc df mask) col) ;;
     if Nat.ltb 0 (len invalid) then ret (append issues (message (len invalid)))
     else ret issues
   else ret issues) w
  = (Ok (issues ++ issue_for (frame w) col test message)%list, w).
Proof.
  intros H. unfold bind, contains, getitem, lift, the_frame, ret, issue_for.
  rewrite has_col_get.
  destruct (get_col (frame w) col) as [s|] eqn:G.
  - destruct (H s eq_refl) as [mask [Hm Hlen]]. cbv beta iota. rewrite G, Hm.
    unfold column_of. rewrite get_col_loc, G. simpl. rewrite Hlen.
    destruct (Nat.ltb 0 (count_cells test s)); [reflexivity|].
    now rewrite app_nil_r.
  - now rewrite app_nil_r.
Qed.

(** The same check written in line, followed by the rest of the function. *)
Lemma check_block_then {B} (w : World) (col : string) (issues : list string)
      (mask_of : Series -> result (list bool)) (test : scalar -> bool)
      (message : nat -> string) (k : list string -> M B) :
  (forall s, get_col (frame w) col = Some s ->
             exists mask, mask_of s = Ok mask
                          /\ len (Pd.take_rows mask s) = count_cells test s) ->
  (present <- contains col ;;
   issues' <-
     (if present : bool then
        s <- getitem col ;;
        mask <- lift (mask_of s) ;;
        df <- the_frame ;;
        invalid <- lift (column_of (Pd.loc df mask) col) ;;
        if Nat.ltb 0 (len invalid) then ret (append issues (message (len invalid)))
        else ret issues
      else ret issues) ;;
   k issues') w
  = k (issues ++ issue_for (frame w) col test message)%list w.
Proof.
  intros H. unfold bind, contains, getitem, lift, the_frame, ret, issue_for.
  rewrite has_col_get.
  destruct (get_col (frame w) col) as [s|] eqn:G.
  - destruct (H s eq_refl) as [mask [Hm Hlen]]. cbv beta iota. rewrite G, Hm.
    unfold column_of. rewrite get_col_loc, G. simpl. rewrite Hlen.
    destruct (Nat.ltb 0 (count_cells test s)); [reflexivity|].
    now rewrite app_nil_r.
  - now rewrite app_nil_r.
Qed.

Ltac check_step w0 col mask_of test msg H :=
  let E := fresh "E" in
  epose proof (check_block w0 col _ mask_of test msg H) as E;
  cbv beta delta [score_message essay_message age_message] in E;
  unfold bind at 1; rewrite E; clear E.


Ltac check_then_step w0 col mask_of test msg H :=
  let E := fresh "E" in
  epose proof (check_block_then w0 col _ mask_of test msg _ H) as E;
  cbv beta delta [score_message essay_message age_message] in E;
  rewrite E; clear E.

Lemma validate_data_run (w : World) :
  validator_typed (frame w) = true ->
  validate_data w
  = (Ok (expected_issues (frame w)),
     mkWorld (frame w) (log w ++ [(INFO, "Validating data")])).
Proof.
  intros Ht. unfold validate_data.
  unfold bind at 1. unfold logger_info at 1.
  set (w0 := mkWorld (frame w) (log w ++ [(INFO, "Validating data")])).
  assert (Hscore : forall col, In col score_cols -> forall s,
             get_col (frame w0) col = Some s ->
             exists mask, out_of_range s = Ok mask
                          /\ len (Pd.take_rows mask s) = count_cells invalid_score s).
  { intros col Hin s G. apply out_of_range_count.
    apply (typed_column (frame w) col s Ht); auto. apply in_or_app. now left. }
  assert (Hessay : forall s,
             get_col (frame w0) "NU_NOTA_REDACAO" = Some s ->
             exists mask, out_of_range s = Ok mask
                          /\ len (Pd.take_rows mask s) = count_cells invalid_score s).
  { intros s G. apply out_of_range_count.
    apply (typed_column (frame w) "NU_NOTA_REDACAO" s Ht); auto.
    apply in_or_app. right. simpl. tauto. }
  assert (Hage : forall s,
             get_col (frame w0) "TP_FAIXA_ETARIA" = Some s ->
             exists mask, Pd.lt s 1 = Ok mask
                          /\ len (Pd.take_rows mask s) = count_cells invalid_age s).
  { intros s G. apply below_one_count.
    apply (typed_column (frame w) "TP_FAIXA_ETARIA" s Ht); auto.
    apply in_or_app. right. simpl. tauto. }
  unfold bind at 1. cbn [for_fold].
  check_step w0 "NU_NOTA_CN" out_of_range invalid_score
             (score_message "NU_NOTA_CN") (Hscore "NU_NOTA_CN" ltac:(simpl; tauto)).
  check_step w0 "NU_NOTA_CH" out_of_range invalid_score
             (score_message "NU_NOTA_CH") (Hscore "NU_NOTA_CH" ltac:(simpl; tauto)).
  check_step w0 "NU_NOTA_LC" out_of_range invalid_score
             (score_message "NU_NOTA_LC") (Hscore "NU_NOTA_LC" ltac:(simpl; tauto)).
  check_step w0 "NU_NOTA_MT" out_of_range invalid_score
             (score_message "NU_NOTA_MT") (Hscore "NU_NOTA_MT" ltac:(simpl; tauto)).
  unfold ret at 1.
  check_then_step w0 "NU_NOTA_REDACAO" out_of_range invalid_score essay_message Hessay.
  check_then_step w0 "TP_FAIXA_ETARIA" (fun s => Pd.lt s 1) invalid_age age_message Hage.
  unfold ret. unfold expected_issues. simpl List.concat.
  rewrite <- !app_assoc. reflexivity.
Qed.

Lemma issue_for_valid (df : DataFrame) (col : string) (test : scalar -> bool)
      (message : nat -> string) :
  (forall s, get_col df col = Some s -> count_cells test s = 0) ->
  issue_for df col test message = [].
Proof.
  intros H. unfold issue_for. destruct (get_col df col) as [s|]; auto.
  now rewrite (H s eq_refl).
Qed.

(** C7.  On a table whose checked columns are numeric, the Validator returns
    exactly the issue list the specification describes: for each of the four
    core score columns that is present and has a positive count of non-missing
    values below 0 or above 1000, one message naming the column and that
    count; one message for the essay column under the same rule; one for the
    age-bracket column counting the values below 1; nothing for an absent
    column or a zero count.  A table without such values yields the empty
    list. *)
Theorem validate_data_issues (df : DataFrame) :
  validator_typed df = true ->
  run validate_data df
  = (Ok (expected_issues df), mkWorld df [(INFO, "Validating data")])
  /\ (forall col s,
        In col score_cols -> get_col df col = Some s ->
        issue_for df col invalid_score (score_message col)
        = if Nat.ltb 0 (count_cells invalid_score s)
          then [score_message col (count_cells invalid_score s)]
          else [])
  /\ (forall col test message,
        get_col df col = None -> issue_for df col test message = [])
  /\ ((forall col s, In col (score_cols ++ ["NU_NOTA_REDACAO"]) ->
                     get_col df col = Some s -> count_cells invalid_score s = 0) ->
      (forall s, get_col df "TP_FAIXA_ETARIA" = Some s ->
                 count_cells invalid_age s = 0) ->
      expected_issues df = []).
Proof.
  intros Ht. split; [|split; [|split]].
  - unfold run. now rewrite validate_data_run.
  - intros col s _ G. unfold issue_for. now rewrite G.
  - intros col test message G. unfold issue_for. now rewrite G.
  - intros Hs Ha. unfold expected_issues. simpl List.concat.
    rewrite !issue_for_valid; auto;
      intros s G; eapply Hs; eauto; simpl; tauto.
Qed.

Lemma validate_data_issues_witness :
  let df := [("NU_NOTA_CN", FloatCol F64 [1; 2000; nan; -6]%float);
             ("TP_FAIXA_ETARIA", IntCol W8 [0; 1; 2]%Z);
             ("NU_NOTA_REDACAO", FloatCol F32 [1000; 1001]%float)] in
  run validate_data df
  = (Ok ["Found 2 invalid scores in NU_NOTA_CN";
         "Found 1 invalid essay scores";
         "Found 1 invalid age ranges"],
     mkWorld df [(INFO, "Validating data")]).
Proof.
  intros df.
  exact (proj1 (validate_data_issues df eq_refl)).
Defined.

(** ** Missing-Value Handler *)

Lemma numeric_body_run (numeric_strategy : string)
      (imputation_values : list (string * scalar)) (col : string) (w : World) :
  (s <- getitem col ;;
   if Pd.any (Pd.isnull s) then
     value <- (if String.eqb numeric_strategy "mean" then
                 s <- getitem col ;; lift (Pd.mean s)
               else if String.eqb numeric_strategy "median" then
                 s <- getitem col ;; lift (Pd.median s)
               else ret (Int 0)) ;;
     s <- getitem col ;;
     s' <- lift (Pd.fillna value s) ;;
     setitem col s' ;;
     let imputation_values := dict_set imputation_values col value in
     logger_debug ;;
     ret imputation_values
   else ret imputation_values) w
  = match get_col (frame w) col with
    | None => (Raise (KeyError col), w)
    | Some s =>
        match impute (numeric_value numeric_strategy) s with
        | Ok (Some (v, s')) =>
            (Ok (dict_set imputation_values col v),
             mkWorld (set_col (frame w) col s') (log w))
        | Ok None => (Ok imputation_values, w)
        | Raise e => (Raise e, w)
        end
    end.
Proof.
  unfold bind, getitem, lift, setitem, logger_debug, ret, impute, has_missing,
    numeric_value.
  destruct (get_col (frame w) col) as [s|] eqn:G; [|reflexivity].
  destruct (Pd.any (Pd.isnull s)); [|reflexivity].
  destruct (String.eqb numeric_strategy "mean").
  - rewrite G. destruct (Pd.mean s) as [v|e]; [|reflexivity].
    rewrite G. cbv beta iota zeta delta [rbind]. now destruct (Pd.fillna v s).
  - destruct (String.eqb numeric_strategy "median").
    + rewrite G. destruct (Pd.median s) as [v|e]; [|reflexivity].
      rewrite G. cbv beta iota zeta delta [rbind]. now destruct (Pd.fillna v s).
    + rewrite G. cbv beta iota zeta delta [rbind]. now destruct (Pd.fillna (Int 0) s).
Qed.

Lemma categorical_body_run (categorical_strategy : string)
      (imputation_values : list (string * scalar)) (col : string) (w : World) :
  (s <- getitem col ;;
   if Pd.any (Pd.isnull s) then
     value <- (if String.eqb categorical_strategy "mode" then
                 s <- getitem col ;; lift (Pd.first (Pd.mode s))
               else ret (Str "Unknown")) ;;
     s <- getitem col ;;
     s' <- lift (Pd.fillna value s) ;;
     setitem col s' ;;
     let imputation_values := dict_set imputation_values col value in
     logger_debug ;;
     ret imputation_values
   else ret imputation_values) w
  = match get_col (frame w) col with
    | None => (Raise (KeyError col), w)
    | Some s =>
        match impute (categorical_value categorical_strategy) s with
        | Ok (Some (v, s')) =>
            (Ok (dict_set imputation_values col v),
             mkWorld (set_col (frame w) col s') (log w))
        | Ok None => (Ok imputation_values, w)
        | Raise e => (Raise e, w)
        end
    end.
Proof.
  unfold bind, getitem, lift, setitem, logger_debug, ret, impute, has_missing,
    categorical_value.
  destruct (get_col (frame w) col) as [s|] eqn:G; [|reflexivity].
  destruct (Pd.any (Pd.isnull s)); [|reflexivity].
  destruct (String.eqb categorical_strategy "mode").
  - rewrite G. destruct (Pd.first (Pd.mode s)) as [v|e]; [|reflexivity].
    rewrite G. cbv beta iota zeta delta [rbind]. now destruct (Pd.fillna v s).
  - rewrite G. cbv beta iota zeta delta [rbind]. now destruct (Pd.fillna (Str "Unknown") s).
Qed.

(** A loop whose body acts as [impute] on each column is [impute_cols]. *)
Lemma impute_loop (value_of : Series -> result scalar)
      (body : list (string * scalar) -> string -> M (list (string * scalar))) :
  (forall imp col w,
      body imp col w
      = match get_col (frame w) col with
        | None => (Raise (KeyError col), w)
        | Some s =>
            match impute value_of s with
            | Ok (Some (v, s')) =>
                (Ok (dict_set imp col v), mkWorld (set_col (frame w) col s') (log w))
            | Ok None => (Ok imp, w)
            | Raise e => (Raise e, w)
            end
        end) ->
  forall cols imp w,
    for_fold cols imp body w
    = (fst (impute_cols value_of cols imp (frame w)),
       mkWorld (snd (impute_cols value_of cols imp (frame w))) (log w)).
Proof.
  intros Hbody cols. induction cols as [|c rest IH]; intros imp w; simpl.
  - unfold ret. now destruct w.
  - unfold bind. rewrite Hbody.
    destruct (get_col (frame w) c) as [s|]; [|now destruct w].
    destruct (impute value_of s) as [[[v s']|]|e].
    + now rewrite IH.
    + now rewrite IH.
    + now destruct w.
Qed.

Lemma handle_missing_values_run (numeric_strategy categorical_strategy : string)
      (w : World) :
  handle_missing_values numeric_strategy categorical_strategy w
  = let log0 := (log w ++ [(INFO, "Handling missing values")])%list in
    let df := frame w in
    let '(r1, df1) := impute_cols (numeric_value numeric_strategy)
                                  (numeric_cols df) [] df in
    match r1 with
    | Raise e => (Raise e, mkWorld df1 log0)
    | Ok imp1 =>
        let '(r2, df2) := impute_cols (categorical_value categorical_strategy)
                                      (cat_cols df1) imp1 df1 in
        match r2 with
        | Raise e => (Raise e, mkWorld df2 log0)
        | Ok imp2 => (Ok (df2, imp2), mkWorld df2 log0)
        end
    end.
Proof.
  unfold handle_missing_values.
  unfold bind at 1. unfold logger_info at 1.
  unfold bind at 1. unfold the_frame at 1. cbn [frame log].
  unfold bind at 1.
  rewrite (impute_loop (numeric_value numeric_strategy))
    by (intros; apply numeric_body_run).
  cbn [frame log]. fold (numeric_cols (frame w)).
  destruct (impute_cols (numeric_value numeric_strategy)
                        (numeric_cols (frame w)) [] (frame w)) as [[imp1|e] df1];
    cbn [fst snd]; [|reflexivity].
  unfold bind at 1. unfold the_frame at 1. cbn [frame log].
  unfold bind at 1.
  rewrite (impute_loop (categorical_value categorical_strategy))
    by (intros; apply categorical_body_run).
  cbn [frame log]. fold (cat_cols df1).
  destruct (impute_cols (categorical_value categorical_strategy)
                        (cat_cols df1) imp1 df1) as [[imp2|e] df2];
    cbn [fst snd]; reflexivity.
Qed.

Lemma dict_lookup_set_same {V} (d : list (string * V)) (k : string) (v : V) :
  dict_lookup (dict_set d k v) k = Some v.
Proof.
  induction d as [|[k0 v0] rest IH]; simpl.
  - now rewrite String.eqb_refl.
  - destruct (String.eqb k k0) eqn:E; simpl; rewrite E; auto.
Qed.

Lemma dict_lookup_set_other {V} (d : list (string * V)) (k k' : string) (v : V) :
  k' <> k -> dict_lookup (dict_set d k v) k' = dict_lookup d k'.
Proof.
  intros Hne. induction d as [|[k0 v0] rest IH]; simpl.
  - apply String.eqb_neq in Hne. now rewrite Hne.
  - destruct (String.eqb k k0) eqn:E; simpl.
    + apply String.eqb_eq in E. subst k0.
      apply String.eqb_neq in Hne. now rewrite Hne.
    + now rewrite IH.
Qed.

Lemma get_col_In (df : DataFrame) (c : string) (s : Series) :
  well_formed df -> (In (c, s) df <-> get_col df c = Some s).
Proof.
  unfold well_formed, columns.
  induction df as [|[c0 s0] rest IH]; simpl; intros Hnd.
  - split; [tauto|discriminate].
  - inversion Hnd as [|? ? Hk Hrest]. subst.
    destruct (String.eqb c c0) eqn:E.
    + apply String.eqb_eq in E. subst c0. split.
      * intros [H|H]; [now inversion H|].
        exfalso. apply Hk. change c with (fst (c, s)). now apply in_map.
      * intros H. inversion H. now left.
    + apply String.eqb_neq in E. rewrite <- (IH Hrest). split.
      * intros [H|H]; [inversion H; congruence|assumption].
      * tauto.
Qed.

Lemma NoDup_columns_filter (test : string * Series -> bool) (df : DataFrame) :
  well_formed df -> NoDup (columns (filter test df)).
Proof.
  unfold well_formed, columns.
  induction df as [|[c0 s0] rest IH]; simpl; intros Hnd; [constructor|].
  inversion Hnd as [|? ? Hk Hrest]. subst.
  destruct (test (c0, s0)); simpl; auto.
  constructor; auto. intros Hin. apply Hk.
  apply in_map_iff in Hin. destruct Hin as [[c s] [Hc Hin]].
  apply filter_In in Hin. destruct Hin as [Hin _].
  simpl in Hc. subst. change c0 with (fst (c0, s)). now apply in_map.
Qed.

(** In a well-formed table, [select_dtypes] lists exactly the columns whose
    dtype is included, each once. *)
Lemma in_select_dtypes (kinds : list string) (df : DataFrame) (c : string) :
  well_formed df ->
  (In c (Pd.select_dtypes kinds df) <->
   exists s, get_col df c = Some s
             /\ existsb (fun k => Pd.includes k (dtype_of s)) kinds = true).
Proof.
  intros Hwf. unfold Pd.select_dtypes, columns. rewrite in_map_iff. split.
  - intros [[c' s] [Hc Hin]]. simpl in Hc. subst c'.
    apply filter_In in Hin. destruct Hin as [Hin Hsel].
    exists s. split; auto. now apply get_col_In.
  - intros [s [G Hsel]]. exists (c, s). split; auto.
    apply filter_In. split; auto. now apply get_col_In.
Qed.

Lemma columns_set_col_present (df : DataFrame) (c : string) (s s' : Series) :
  get_col df c = Some s -> columns (set_col df c s') = columns df.
Proof. apply columns_set_present. Qed.

(** What one loop of the handler leaves behind, column by column. *)
Lemma impute_cols_spec (value_of : Series -> result scalar) (cols : list string) :
  NoDup cols ->
  forall imp df imp' df',
    impute_cols value_of cols imp df = (Ok imp', df') ->
    columns df' = columns df
    /\ (forall c, In c cols ->
          exists s, get_col df c = Some s
            /\ match impute value_of s with
               | Ok (Some (v, s')) =>
                   get_col df' c = Some s' /\ dict_lookup imp' c = Some v
               | Ok None =>
                   get_col df' c = Some s /\ dict_lookup imp' c = dict_lookup imp c
               | Raise _ => False
               end)
    /\ (forall c, ~ In c cols ->
          get_col df' c = get_col df c /\ dict_lookup imp' c = dict_lookup imp c).
Proof.
  induction cols as [|c0 rest IH]; intros Hnd imp df imp' df' H; simpl in H.
  - inversion H. subst. repeat split; auto. intros c [].
  - inversion Hnd as [|? ? Hk Hrest]. subst.
    destruct (get_col df c0) as [s0|] eqn:G0; [|discriminate].
    destruct (impute value_of s0) as [[[v s']|]|e] eqn:I0; [| |discriminate].
    + destruct (IH Hrest _ _ _ _ H) as [Hcols [Hin Hout]].
      split; [|split].
      * rewrite Hcols. eapply columns_set_present; eauto.
      * intros c [<-|Hc].
        -- exists s0. split; auto. rewrite I0.
           destruct (Hout c0 Hk) as [Hg Hl].
           rewrite Hg, Hl, get_set_same, dict_lookup_set_same. auto.
        -- assert (c <> c0) as Hne by (intros ->; tauto).
           destruct (Hin c Hc) as [s [Hg Hm]].
           rewrite get_set_other in Hg by assumption.
           exists s. split; auto.
           destruct (impute value_of s) as [[[v1 s1]|]|e1]; auto.
           now rewrite dict_lookup_set_other in Hm by assumption.
      * intros c Hc. simpl in Hc.
        assert (c <> c0) as Hne by (intros ->; tauto).
        destruct (Hout c) as [Hg Hl]; [tauto|].
        rewrite get_set_other in Hg by assumption.
        now rewrite dict_lookup_set_other in Hl by assumption.
    + destruct (IH Hrest _ _ _ _ H) as [Hcols [Hin Hout]].
      split; [|split]; auto.
      * intros c [<-|Hc].
        -- exists s0. split; auto. rewrite I0.
           destruct (Hout c0 Hk) as [Hg Hl]. rewrite Hg, Hl. auto.
        -- now apply Hin.
      * intros c Hc. simpl in Hc. apply Hout. tauto.
Qed.

Lemma int_col_complete (w : iwidth) (xs : list Z) :
  has_missing (IntCol w xs) = false.
Proof.
  unfold has_missing, Pd.any, Pd.isnull. simpl.
  induction xs as [|x rest IH]; simpl; auto.
Qed.

Lemma kinds_disjoint (s : Series) :
  is_num_kind s = true -> is_cat_kind s = false.
Proof. destruct s as [[]|[]| |]; simpl; auto; discriminate. Qed.

Lemma missing_has_kind (s : Series) :
  has_missing s = true -> is_num_kind s = true \/ is_cat_kind s = true.
Proof.
  destruct s as [w xs|[] xs|xs|xs]; simpl; auto.
  now rewrite int_col_complete.
Qed.

Lemma numeric_value_number (ns : string) (s : Series) :
  is_num_kind s = true ->
  exists v f, numeric_value ns s = Ok v /\ Pd.scalar_to_float v = Some f.
Proof.
  unfold numeric_value.
  destruct s as [w xs|p xs|xs|xs]; simpl; try discriminate; intros _;
    destruct (String.eqb ns "mean"); simpl;
    try (do 2 eexists; split; reflexivity);
    destruct (String.eqb ns "median"); simpl;
    do 2 eexists; split; reflexivity.
Qed.

Lemma fillna_number (v : scalar) (f : float) (s : Series) :
  Pd.scalar_to_float v = Some f -> is_num_kind s = true ->
  exists s', Pd.fillna v s = Ok s' /\ is_cat_kind s' = false.
Proof.
  intros Hv Hk. unfold Pd.fillna.
  destruct s as [w xs|p xs|xs|xs]; try discriminate.
  - exists (IntCol w xs). split.
    + destruct v; try discriminate; reflexivity.
    + destruct w; reflexivity.
  - rewrite Hv.
    exists (FloatCol (if is_nan f || PrimFloat.eqb (Pd.fround p f) f then p else F64)
                     (map (fun x => if is_nan x
                                    then Pd.fround (if is_nan f || PrimFloat.eqb (Pd.fround p f) f
                                                    then p else F64) f
                                    else x) xs)).
    split.
    + destruct v; try discriminate; reflexivity.
    + destruct (is_nan f || PrimFloat.eqb (Pd.fround p f) f); destruct p; reflexivity.
Qed.

(** On a column of the numeric class the numeric loop never raises and
    leaves a column that is not of the categorical class. *)
Lemma impute_numeric (ns : string) (s : Series) :
  is_num_kind s = true ->
  impute (numeric_value ns) s = Ok None /\ has_missing s = false
  \/ exists v s', impute (numeric_value ns) s = Ok (Some (v, s'))
                  /\ has_missing s = true
                  /\ numeric_value ns s = Ok v
                  /\ Pd.fillna v s = Ok s'
                  /\ is_cat_kind s' = false.
Proof.
  intros Hk. unfold impute.
  destruct (has_missing s) eqn:Hm; [right|left; auto].
  destruct (numeric_value_number ns s Hk) as [v [f [Hv Hf]]].
  destruct (fillna_number v f s Hf Hk) as [s' [Hs' Hc]].
  exists v, s'. rewrite Hv. cbn [rbind]. rewrite Hs'. cbn [rbind]. auto.
Qed.

Lemma impute_cases (value_of : Series -> result scalar) (s : Series)
      (v : scalar) (s' : Series) :
  impute value_of s = Ok (Some (v, s')) ->
  has_missing s = true /\ value_of s = Ok v /\ Pd.fillna v s = Ok s'.
Proof.
  unfold impute. destruct (has_missing s); [|discriminate].
  destruct (value_of s) as [v0|]; cbn [rbind]; [|discriminate].
  destruct (Pd.fillna v0 s) as [s0|] eqn:F; cbn [rbind]; [|discriminate].
  intros H. inversion H. subst. auto.
Qed.

Lemma impute_none (value_of : Series -> result scalar) (s : Series) :
  impute value_of s = Ok None -> has_missing s = false.
Proof.
  unfold impute. destruct (has_missing s); auto.
  destruct (value_of s) as [v0|]; cbn [rbind]; [|discriminate].
  destruct (Pd.fillna v0 s) as [s0|]; cbn [rbind]; discriminate.
Qed.

Lemma impute_complete (value_of : Series -> result scalar) (s : Series) :
  has_missing s = false -> impute value_of s = Ok None.
Proof. intros H. unfold impute. now rewrite H. Qed.

Lemma well_formed_columns (df df' : DataFrame) :
  columns df' = columns df -> well_formed df -> well_formed df'.
Proof. unfold well_formed. now intros ->. Qed.

Lemma get_col_columns (df df' : DataFrame) (c : string) :
  columns df' = columns df -> get_col df c = None -> get_col df' c = None.
Proof.
  intros Hc G. destruct (get_col df' c) as [s|] eqn:E; auto.
  assert (has_col df' c = true) as H by (apply has_col_true; eauto).
  unfold has_col in H. rewrite Hc in H. fold (has_col df c) in H.
  rewrite has_col_get, G in H. discriminate.
Qed.

(** The handler, column by column: when it returns, every column of the
    input was either complete and is left as it was, or had a missing value
    and is now the column filled with the value recorded for it. *)
Lemma handle_missing_values_column (ns cs : string) (df df' : DataFrame)
      (imp : list (string * scalar)) (c : string) :
  well_formed df ->
  fst (run (handle_missing_values ns cs) df) = Ok (df', imp) ->
  match get_col df c with
  | None => dict_lookup imp c = None /\ get_col df' c = None
  | Some s =>
      has_missing s = false /\ get_col df' c = Some s /\ dict_lookup imp c = None
      \/ exists v s', has_missing s = true
                      /\ strategy_value ns cs s = Ok v
                      /\ Pd.fillna v s = Ok s'
                      /\ get_col df' c = Some s'
                      /\ dict_lookup imp c = Some v
  end.
Proof.
  intros Hwf. unfold run. rewrite handle_missing_values_run. cbv zeta. cbn [frame log].
  destruct (impute_cols (numeric_value ns) (numeric_cols df) [] df)
    as [[imp1|e] df1] eqn:L1; [|discriminate].
  destruct (impute_cols (categorical_value cs) (cat_cols df1) imp1 df1)
    as [[imp2|e] df2] eqn:L2; [|discriminate].
  cbn [fst]. intros H. inversion H. subst df2 imp2. clear H.
  destruct (impute_cols_spec _ _ (NoDup_columns_filter _ df Hwf) _ _ _ _ L1)
    as [Hc1 [Hin1 Hout1]].
  assert (Hwf1 : well_formed df1) by (eapply well_formed_columns; eauto).
  destruct (impute_cols_spec _ _ (NoDup_columns_filter _ df1 Hwf1) _ _ _ _ L2)
    as [Hc2 [Hin2 Hout2]].
  fold (numeric_cols df) in Hin1, Hout1. fold (cat_cols df1) in Hin2, Hout2.
  destruct (get_col df c) as [s|] eqn:G.
  - destruct (is_num_kind s) eqn:Kn.
    + (* numeric class: handled by the first loop, skipped by the second *)
      assert (In c (numeric_cols df)) as Hc.
      { apply in_select_dtypes; eauto. }
      destruct (Hin1 c Hc) as [s0 [G0 Hm]]. rewrite G in G0. inversion G0. subst s0.
      assert (Hskip : forall s1, get_col df1 c = Some s1 -> is_cat_kind s1 = false ->
                                 get_col df' c = Some s1
                                 /\ dict_lookup imp c = dict_lookup imp1 c).
      { intros s1 G1 K1. destruct (Hout2 c) as [Hg Hl].
        - intros Hin. apply in_select_dtypes in Hin; auto.
          destruct Hin as [s2 [G2 K2]]. rewrite G1 in G2. inversion G2. subst.
          unfold is_cat_kind in K1. congruence.
        - rewrite Hg, G1. auto. }
      destruct (impute_numeric ns s Kn) as [[I Hno]|[v [s' [I [Hyes [Hv [Hf Hk]]]]]]];
        rewrite I in Hm; destruct Hm as [G1 L].
      * left. destruct (Hskip s G1 (kinds_disjoint s Kn)) as [Hg Hl].
        rewrite Hl, L. auto.
      * right. exists v, s'. destruct (Hskip s' G1 Hk) as [Hg Hl].
        unfold strategy_value. rewrite Kn, Hl, L. auto.
    + (* not numeric: untouched by the first loop *)
      assert (~ In c (numeric_cols df)) as Hc.
      { intros Hin. apply in_select_dtypes in Hin; auto.
        destruct Hin as [s0 [G0 K0]]. rewrite G in G0. inversion G0. subst.
        unfold is_num_kind in Kn. congruence. }
      destruct (Hout1 c Hc) as [G1 L1']. rewrite G in G1. simpl in L1'.
      destruct (is_cat_kind s) eqn:Kc.
      * assert (In c (cat_cols df1)) as Hc'.
        { apply in_select_dtypes; eauto. }
        destruct (Hin2 c Hc') as [s0 [G0 Hm]]. rewrite G1 in G0. inversion G0. subst s0.
        destruct (impute (categorical_value cs) s) as [[[v s']|]|e] eqn:I;
          [| |destruct Hm].
        -- right. exists v, s'. destruct Hm as [Hg Hl].
           destruct (impute_cases _ _ _ _ I) as [Hyes [Hv Hf]].
           unfold strategy_value. rewrite Kn. auto.
        -- left. destruct Hm as [Hg Hl]. apply impute_none in I.
           rewrite Hl, L1'. auto.
      * left. assert (has_missing s = false) as Hno.
        { destruct (has_missing s) eqn:E; auto.
          destruct (missing_has_kind s E); congruence. }
        destruct (Hout2 c) as [Hg Hl].
        { intros Hin. apply in_select_dtypes in Hin; auto.
          destruct Hin as [s2 [G2 K2]]. rewrite G1 in G2. inversion G2. subst.
          unfold is_cat_kind in Kc. congruence. }
        rewrite Hg, Hl, G1, L1'. auto.
  - assert (~ In c (numeric_cols df)) as Hc.
    { intros Hin. apply in_select_dtypes in Hin; auto.
      destruct Hin as [s0 [G0 _]]. congruence. }
    destruct (Hout1 c Hc) as [G1 L1']. rewrite G in G1. simpl in L1'.
    destruct (Hout2 c) as [Hg Hl].
    { intros Hin. apply in_select_dtypes in Hin; auto.
      destruct Hin as [s2 [G2 _]]. congruence. }
    rewrite Hg, Hl, G1, L1'. auto.
Qed.

Lemma Forall2_maps {A B C} (R : B -> C -> Prop) (f : A -> B) (g : A -> C) (xs : list A) :
  (forall x, R (f x) (g x)) -> Forall2 R (map f xs) (map g xs).
Proof. intros H. induction xs; simpl; constructor; auto. Qed.

Lemma Forall2_map_right {A B} (R : A -> B -> Prop) (g : A -> B) (xs : list A) :
  (forall x, R x (g x)) -> Forall2 R xs (map g xs).
Proof. intros H. induction xs; simpl; constructor; auto. Qed.

(** [fillna] keeps every non-missing cell and puts one and the same value in
    every missing one. *)
Lemma fillna_cells (v : scalar) (s s' : Series) :
  Pd.fillna v s = Ok s' ->
  isna v = false \/ dtype_of s <> category ->
  exists u, filled_with u s s'.
Proof.
  unfold filled_with.
  assert (Hcat : forall xs,
             isna v = false ->
             (if existsb (py_eqb v) (Pd.categories xs)
              then Ok (CatCol (map (Pd.fill_cell v) xs))
              else Raise (TypeError "Cannot setitem on a Categorical with a new category, set the categories first"))
             = Ok s' ->
             exists u, Forall2 (fun a b => b = if isna a then u else a)
                               xs (values s')).
  { intros xs Hv H. destruct (existsb (py_eqb v) (Pd.categories xs)); inversion H.
    exists v. simpl. apply Forall2_map_right. reflexivity. }
  destruct s as [w xs|p xs|xs|xs].
  - (* integer column: nothing to fill *)
    intros H _. exists v.
    assert (s' = IntCol w xs) as -> by (destruct v; simpl in H; congruence).
    simpl. apply Forall2_maps. reflexivity.
  - (* float column *)
    intros H _. unfold Pd.fillna in H.
    destruct (Pd.scalar_to_float v) as [f|] eqn:F.
    + eexists.
      assert (s' = FloatCol (if is_nan f || PrimFloat.eqb (Pd.fround p f) f then p else F64)
                     (map (fun x => if is_nan x
                                    then Pd.fround (if is_nan f || PrimFloat.eqb (Pd.fround p f) f
                                                    then p else F64) f
                                    else x) xs)) as ->
          by (destruct v; simpl in F; try discriminate; congruence).
      simpl. rewrite map_map. apply Forall2_maps. intros x. simpl.
      destruct (is_nan x); reflexivity.
    + exists v.
      assert (s' = ObjectCol (map (fun x => Pd.fill_cell v (Flt x)) xs)) as ->
          by (destruct v; simpl in F; try discriminate; congruence).
      simpl. apply Forall2_maps. intros x. reflexivity.
  - (* categorical column *)
    intros H [Hv|Hv]; [|simpl in Hv; congruence].
    apply Hcat; auto. unfold Pd.fillna in H. rewrite Hv in H.
    destruct v; try discriminate; exact H.
  - (* object column *)
    intros H _. exists v.
    assert (s' = ObjectCol (map (Pd.fill_cell v) xs)) as ->
        by (destruct v; simpl in H; congruence).
    simpl. apply Forall2_map_right. reflexivity.
Qed.

Lemma in_insert_scalar (x y : scalar) (l : list scalar) :
  In x (Pd.insert_scalar y l) -> x = y \/ In x l.
Proof.
  induction l as [|z rest IH]; simpl.
  - intros [H|[]]; auto.
  - destruct (Pd.scalar_ltb z y); simpl.
    + intros [H|H]; auto. destruct (IH H); auto.
    + intros [H|[H|H]]; auto.
Qed.

Lemma in_sorted_scalars (x : scalar) (l : list scalar) :
  In x (fold_right Pd.insert_scalar [] l) -> In x l.
Proof.
  induction l as [|y rest IH]; simpl; auto.
  intros H. apply in_insert_scalar in H. destruct H; auto.
Qed.

Lemma in_unique (x : scalar) (l : list scalar) : In x (Pd.unique l) -> In x l.
Proof.
  induction l as [|y rest IH]; simpl; auto.
  intros [H|H]; auto. apply filter_In in H. right. apply IH. tauto.
Qed.

(** A mode is one of the non-missing values of the column. *)
Lemma mode_present (s : Series) (v : scalar) :
  In v (Pd.mode s) -> In v (values s) /\ isna v = false.
Proof.
  unfold Pd.mode. intros H.
  assert (In v (filter notna (values s))) as Hin.
  { destruct (_ || _) in H.
    - apply in_sorted_scalars in H. apply filter_In in H.
      destruct H as [H _]. now apply in_unique.
    - apply filter_In in H. destruct H as [H _]. now apply in_unique. }
  apply filter_In in Hin. destruct Hin as [Hin Hv]. split; auto.
  unfold notna in Hv. now apply negb_true_iff.
Qed.

Lemma categorical_value_present (cs : string) (s : Series) (v : scalar) :
  categorical_value cs s = Ok v -> isna v = false.
Proof.
  unfold categorical_value. destruct (String.eqb cs "mode").
  - unfold Pd.first. destruct (Pd.mode s) as [|v0 rest] eqn:E; [discriminate|].
    intros H. inversion H. subst. apply (mode_present s v). rewrite E. now left.
  - intros H. inversion H. reflexivity.
Qed.

Lemma strategy_value_fill (ns cs : string) (s : Series) (v : scalar) :
  strategy_value ns cs s = Ok v -> isna v = false \/ dtype_of s <> category.
Proof.
  unfold strategy_value. destruct (is_num_kind s) eqn:K.
  - intros _. right. intros E. destruct s; simpl in E; try discriminate.
  - intros H. left. eapply categorical_value_present; eauto.
Qed.

(** C9.  When the Missing-Value Handler returns, its imputation-value mapping
    has an entry for a column exactly when that column had a missing value at
    call time; the entry is the value the chosen strategy computes on the
    original column, and the column in the result is the original one with
    every missing cell filled with one value and every other cell kept; a
    column without a missing value is in the result as it was and has no
    entry. *)
Theorem imputation_values_exact (ns cs : string) (df df' : DataFrame)
        (imp : list (string * scalar)) :
  well_formed df ->
  fst (run (handle_missing_values ns cs) df) = Ok (df', imp) ->
  (forall c, (exists v, dict_lookup imp c = Some v)
             <-> (exists s, get_col df c = Some s /\ has_missing s = true))
  /\ (forall c v, dict_lookup imp c = Some v ->
        exists s s' u,
          get_col df c = Some s
          /\ strategy_value ns cs s = Ok v
          /\ Pd.fillna v s = Ok s'
          /\ get_col df' c = Some s'
          /\ filled_with u s s')
  /\ (forall c s, get_col df c = Some s -> has_missing s = false ->
                  get_col df' c = Some s /\ dict_lookup imp c = None).
Proof.
  intros Hwf Hrun.
  assert (Hcol := fun c => handle_missing_values_column ns cs df df' imp c Hwf Hrun).
  split; [|split].
  - intros c. specialize (Hcol c). split.
    + intros [v Hv]. destruct (get_col df c) as [s|].
      * destruct Hcol as [[_ [_ Hn]]|[v0 [s' [Hm _]]]]; [congruence|eauto].
      * destruct Hcol. congruence.
    + intros [s [G Hm]]. rewrite G in Hcol.
      destruct Hcol as [[Hn _]|[v [s' [_ [_ [_ [_ Hl]]]]]]]; [congruence|eauto].
  - intros c v Hv. specialize (Hcol c).
    destruct (get_col df c) as [s|].
    + destruct Hcol as [[_ [_ Hn]]|[v0 [s' [Hm [Hs [Hf [Hg Hl]]]]]]]; [congruence|].
      rewrite Hv in Hl. inversion Hl. subst v0.
      destruct (fillna_cells v s s' Hf (strategy_value_fill ns cs s v Hs)) as [u Hu].
      exists s, s', u. auto.
    + destruct Hcol. congruence.
  - intros c s G Hn. specialize (Hcol c). rewrite G in Hcol.
    destruct Hcol as [[_ [Hg Hl]]|[v [s' [Hm _]]]]; [auto|congruence].
Qed.

Lemma imputation_values_exact_witness :
  let df := [("A", FloatCol F64 [1; 2; nan; 6]%float);
             ("B", IntCol W64 [1; 2]%Z);
             ("C", ObjectCol [Str "b"; Str "a"; NaN; Str "b"])] in
  let df' := [("A", FloatCol F64 [1; 2; 3; 6]%float);
              ("B", IntCol W64 [1; 2]%Z);
              ("C", ObjectCol [Str "b"; Str "a"; Str "b"; Str "b"])] in
  let imp := [("A", Flt 3%float); ("C", Str "b")] in
  (forall c, (exists v, dict_lookup imp c = Some v)
             <-> (exists s, get_col df c = Some s /\ has_missing s = true))
  /\ (forall c v, dict_lookup imp c = Some v ->
        exists s s' u,
          get_col df c = Some s
          /\ strategy_value "mean" "mode" s = Ok v
          /\ Pd.fillna v s = Ok s'
          /\ get_col df' c = Some s'
          /\ filled_with u s s')
  /\ (forall c s, get_col df c = Some s -> has_missing s = false ->
                  get_col df' c = Some s /\ dict_lookup imp c = None).
Proof.
  intros df df' imp.
  apply (imputation_values_exact "mean" "mode" df df' imp).
  - apply distinct_strings_NoDup. reflexivity.
  - reflexivity.
Defined.

Lemma impute_cols_values (goodv : scalar -> Prop)
      (value_of : Series -> result scalar) (cols : list string) :
  (forall s v, value_of s = Ok v -> goodv v) ->
  forall imp df imp' df',
    (forall c v, dict_lookup imp c = Some v -> goodv v) ->
    impute_cols value_of cols imp df = (Ok imp', df') ->
    forall c v, dict_lookup imp' c = Some v -> goodv v.
Proof.
  intros Hval. induction cols as [|c0 rest IH]; intros imp df imp' df' Himp H; simpl in H.
  - inversion H. now subst.
  - destruct (get_col df c0) as [s0|]; [|discriminate].
    destruct (impute value_of s0) as [[[v0 s']|]|e] eqn:I; [| |discriminate].
    + eapply IH; [|exact H]. intros c v Hl.
      destruct (String.eqb c c0) eqn:E.
      * apply String.eqb_eq in E. subst. rewrite dict_lookup_set_same in Hl.
        inversion Hl. subst. apply impute_cases in I. eapply Hval. apply I.
      * apply String.eqb_neq in E. rewrite dict_lookup_set_other in Hl by assumption.
        eauto.
    + eapply IH; eauto.
Qed.

Lemma fillna_non_categorical (v : scalar) (s : Series) :
  v <> NoneV -> dtype_of s <> category ->
  exists s', Pd.fillna v s = Ok s' /\ dtype_of s' <> category.
Proof.
  intros Hv Hs. unfold Pd.fillna.
  destruct s as [w xs|p xs|xs|xs]; [| | simpl in Hs; congruence |].
  - exists (IntCol w xs). split; [destruct v; congruence|discriminate].
  - destruct (Pd.scalar_to_float v) as [f|] eqn:F.
    + eexists. split; [destruct v; try congruence; reflexivity|discriminate].
    + eexists. split; [destruct v; try congruence; reflexivity|discriminate].
  - eexists. split; [destruct v; try congruence; reflexivity|discriminate].
Qed.

(** A loop that imputes a constant never raises on a table without
    categorical columns, and leaves such a table. *)
Lemma impute_cols_constant (v : scalar) (cols : list string) :
  v <> NoneV ->
  forall imp df,
    (forall c, In c cols -> has_col df c = true) ->
    (forall c s, get_col df c = Some s -> dtype_of s <> category) ->
    exists imp' df',
      impute_cols (fun _ => Ok v) cols imp df = (Ok imp', df')
      /\ columns df' = columns df
      /\ (forall c s, get_col df' c = Some s -> dtype_of s <> category).
Proof.
  intros Hv. induction cols as [|c0 rest IH]; intros imp df Hpres Hcat; simpl.
  - eauto.
  - assert (has_col df c0 = true) as Hc by (apply Hpres; now left).
    apply has_col_true in Hc. destruct Hc as [s0 G0]. rewrite G0.
    unfold impute. destruct (has_missing s0).
    + cbn [rbind].
      destruct (fillna_non_categorical v s0 Hv (Hcat _ _ G0)) as [s' [F Hs']].
      rewrite F. cbn [rbind].
      destruct (IH (dict_set imp c0 v) (set_col df c0 s')) as [imp' [df' [H [Hc' Hk]]]].
      * intros c Hin. rewrite has_col_set. rewrite Hpres by now right. reflexivity.
      * intros c s G. destruct (String.eqb c c0) eqn:E.
        -- apply String.eqb_eq in E. subst. rewrite get_set_same in G.
           inversion G. now subst.
        -- apply String.eqb_neq in E. rewrite get_set_other in G by assumption.
           eauto.
      * exists imp', df'. split; [|split]; auto.
        rewrite Hc'. eapply columns_set_present; eauto.
    + apply IH; auto. intros c Hin. apply Hpres. now right.
Qed.

Lemma select_dtypes_present (kinds : list string) (df : DataFrame) (c : string) :
  In c (Pd.select_dtypes kinds df) -> has_col df c = true.
Proof.
  unfold Pd.select_dtypes, columns, has_col. intros H.
  apply in_map_iff in H. destruct H as [[c' s] [Hc Hin]]. simpl in Hc. subst.
  apply filter_In in Hin. destruct Hin as [Hin _].
  apply existsb_exists. exists c. split; [|apply String.eqb_refl].
  change c with (fst (c, s)). now apply in_map.
Qed.

(** C2, the failing input: a float column whose values are all missing, with
    the 'mean' strategy.  The mean of no values is NaN, NaN is filled with NaN,
    and the column comes back with every value still missing; the imputation
    mapping records NaN for it. *)
Lemma mean_of_all_missing_column_stays_missing :
  let df := [("NU_NOTA_CN", FloatCol F64 [nan; nan])] in
  run (handle_missing_values "mean" "mode") df
  = (Ok (df, [("NU_NOTA_CN", Flt nan)]),
     mkWorld df [(INFO, "Handling missing values")])
  /\ has_missing (FloatCol F64 [nan; nan]) = true
  /\ Pd.isnull (FloatCol F64 [nan; nan]) = [true; true].
Proof. repeat split. Qed.

(** ** Running a stage again *)

Lemma CATEGORY_MAPPINGS_labels (c : string) (mapping : Pd.pydict) :
  In (c, mapping) CATEGORY_MAPPINGS -> labels_are_not_keys mapping = true.
Proof.
  simpl. intros H.
  repeat match goal with
         | H : _ \/ _ |- _ => destruct H as [H|H]
         | H : (_, _) = (_, _) |- _ => inversion H; clear H; subst
         | H : False |- _ => destruct H
         end; reflexivity.
Qed.

Lemma label_not_key (mapping : Pd.pydict) (v : scalar) :
  labels_are_not_keys mapping = true -> is_label_or_unknown mapping v = true ->
  Pd.fill_cell (Str "Unknown") (Pd.lookup_cell mapping v) = Str "Unknown".
Proof.
  unfold labels_are_not_keys. rewrite forallb_forall. intros Hk Hl.
  destruct v as [z|f|l|]; try discriminate. simpl in Hl.
  assert (In l (Pd.labels mapping ++ ["Unknown"])) as Hin.
  { apply in_or_app. apply orb_true_iff in Hl. destruct Hl as [Hl|Hl].
    - left. apply existsb_exists in Hl. destruct Hl as [l' [Hin E]].
      apply String.eqb_eq in E. now subst.
    - right. apply String.eqb_eq in Hl. subst. now left. }
  specialize (Hk l Hin). unfold Pd.lookup_cell. simpl.
  destruct (Pd.dict_get mapping (Str l)); [discriminate|reflexivity].
Qed.

(** Mapping a mapped column once more turns every label into "Unknown". *)
Lemma relabel_again (c : string) (mapping : Pd.pydict) (s s1 : Series) :
  In (c, mapping) CATEGORY_MAPPINGS ->
  dtype_of s <> category ->
  relabel mapping s = Ok s1 ->
  relabel mapping s1 = Ok (ObjectCol (map (fun _ => Str "Unknown") (values s1))).
Proof.
  intros Hin Hs H. pose proof (relabel_labelled _ _ _ H) as Hl.
  pose proof (CATEGORY_MAPPINGS_labels c mapping Hin) as Hk.
  assert (exists xs, s1 = ObjectCol xs) as [xs ->].
  { unfold relabel, Pd.map_dict in H.
    destruct s; simpl in H, Hs; try congruence; inversion H; eauto. }
  unfold relabel, Pd.map_dict. simpl. f_equal. f_equal.
  unfold labelled in Hl. simpl in Hl. rewrite forallb_forall in Hl.
  rewrite map_map. apply map_ext_in. intros v Hv.
  apply label_not_key; auto.
Qed.

(** C6, as amended.  The Type Optimizer and the Derived-Feature Builder are
    idempotent on the table, and the Validator does not change it at all.
    The Category Mapper is not idempotent: run on a column it has mapped, it
    finds no label among the codes and turns every value into "Unknown". *)
Theorem rerunning_stages (int_of_str : string -> option Z)
        (float_of_str : string -> option float) (df : DataFrame) :
  frame_after (optimize_dtypes int_of_str float_of_str)
              (frame_after (optimize_dtypes int_of_str float_of_str) df)
  = frame_after (optimize_dtypes int_of_str float_of_str) df
  /\ frame_after create_derived_features (frame_after create_derived_features df)
     = frame_after create_derived_features df
  /\ frame_after validate_data df = df
  /\ (forall c mapping s s1,
        In (c, mapping) CATEGORY_MAPPINGS ->
        dtype_of s <> category ->
        relabel mapping s = Ok s1 ->
        relabel mapping s1
        = Ok (ObjectCol (map (fun _ => Str "Unknown") (values s1)))).
Proof.
  split; [|split; [|split]].
  - apply optimize_dtypes_idempotent.
  - apply create_derived_features_idempotent.
  - unfold frame_after, run. apply validate_data_reads_only.
  - apply relabel_again.
Qed.

Lemma rerunning_stages_witness :
  relabel [(Str "M", "Male"); (Str "F", "Female")] (ObjectCol [Str "Male"; Str "Unknown"])
  = Ok (ObjectCol [Str "Unknown"; Str "Unknown"]).
Proof.
  apply (proj2 (proj2 (proj2 (rerunning_stages decimal_int decimal_float [])))
           "TP_SEXO" [(Str "M", "Male"); (Str "F", "Female")]
           (ObjectCol [Str "M"; NaN]) (ObjectCol [Str "Male"; Str "Unknown"])).
  - simpl. tauto.
  - discriminate.
  - reflexivity.
Defined.

(** C6, the claim as stated fails for the Category Mapper: on a text column
    holding the code M, one run gives Male and a second run gives Unknown. *)
Lemma map_categories_twice_differs :
  let df := [("TP_SEXO", ObjectCol [Str "M"])] in
  frame_after map_categories df = [("TP_SEXO", ObjectCol [Str "Male"])]
  /\ frame_after map_categories (frame_after map_categories df)
     = [("TP_SEXO", ObjectCol [Str "Unknown"])]
  /\ frame_after map_categories (frame_after map_categories df)
     <> frame_after map_categories df.
Proof.
  repeat split. vm_compute. discriminate.
Qed.

(** * Further properties of the stages *)

(** ** Missing-Value Handler: shape, completeness, second run *)

Lemma eqb_not_nan (x y : float) : PrimFloat.eqb x y = true -> is_nan x = false.
Proof.
  rewrite FlOrder.is_nan_spec, eqb_spec. unfold SFeqb.
  destruct (Prim2SF x); simpl; auto; discriminate.
Qed.

Lemma fillna_value (v : scalar) (s : Series) :
  v <> NoneV ->
  Pd.fillna v s
  = match s with
    | IntCol w xs => Ok (IntCol w xs)
    | FloatCol p xs =>
        match Pd.scalar_to_float v with
        | Some f =>
            let q := if is_nan f || PrimFloat.eqb (Pd.fround p f) f then p else F64 in
            Ok (FloatCol q (map (fun x => if is_nan x then Pd.fround q f else x) xs))
        | None => Ok (ObjectCol (map (fun x => Pd.fill_cell v (Flt x)) xs))
        end
    | ObjectCol xs => Ok (ObjectCol (map (Pd.fill_cell v) xs))
    | CatCol xs =>
        if isna v then Ok (CatCol xs)
        else if existsb (py_eqb v) (Pd.categories xs)
        then Ok (CatCol (map (Pd.fill_cell v) xs))
        else Raise (TypeError "Cannot setitem on a Categorical with a new category, set the categories first")
    end.
Proof. intros H. destruct v; try reflexivity. congruence. Qed.

Lemma fillna_returns_value (v : scalar) (s s' : Series) :
  Pd.fillna v s = Ok s' -> v <> NoneV.
Proof. intros H ->. discriminate. Qed.

Lemma fillna_len (v : scalar) (s s' : Series) :
  Pd.fillna v s = Ok s' -> len s' = len s.
Proof.
  intros H. pose proof (fillna_returns_value _ _ _ H) as Hv.
  rewrite (fillna_value _ _ Hv) in H. unfold len.
  destruct s as [w xs|p xs|xs|xs].
  - inversion H. reflexivity.
  - destruct (Pd.scalar_to_float v) as [f|]; cbv zeta in H; inversion H;
      simpl; now rewrite !length_map.
  - destruct (isna v); [inversion H; reflexivity|].
    destruct (existsb (py_eqb v) (Pd.categories xs)); [|discriminate].
    inversion H. simpl. now rewrite !length_map.
  - inversion H. simpl. now rewrite !length_map.
Qed.

Lemma has_missing_cells (s : Series) :
  has_missing s = existsb isna (values s).
Proof.
  unfold has_missing, Pd.any, Pd.isnull.
  induction (values s) as [|x rest IH]; simpl; congruence.
Qed.

Lemma no_missing_filled (v : scalar) (xs : list scalar) :
  isna v = false -> existsb isna (map (Pd.fill_cell v) xs) = false.
Proof.
  intros Hv. induction xs as [|x rest IH]; simpl; auto.
  rewrite IH, orb_false_r. unfold Pd.fill_cell.
  destruct (isna x) eqn:E; auto.
Qed.

(** Filling with a value that is not missing leaves no missing cell.  A
    float column is filled with the value as a float, which must not be NaN. *)
Lemma fillna_complete (v : scalar) (s s' : Series) :
  Pd.fillna v s = Ok s' ->
  isna v = false ->
  (forall f, Pd.scalar_to_float v = Some f -> is_nan f = false) ->
  has_missing s' = false.
Proof.
  intros H Hv Hfl. pose proof (fillna_returns_value _ _ _ H) as Hn.
  rewrite (fillna_value _ _ Hn) in H. rewrite has_missing_cells.
  destruct s as [w xs|p xs|xs|xs].
  - inversion H. rewrite <- has_missing_cells. apply int_col_complete.
  - destruct (Pd.scalar_to_float v) as [f|] eqn:F; cbv zeta in H; inversion H.
    + assert (Hf : is_nan f = false) by now apply Hfl.
      rewrite Hf. cbn [orb].
      assert (Hu : is_nan (Pd.fround (if PrimFloat.eqb (Pd.fround p f) f then p else F64) f)
                   = false).
      { destruct (PrimFloat.eqb (Pd.fround p f) f) eqn:E.
        - eapply eqb_not_nan; eauto.
        - exact Hf. }
      cbn [values]. clear H H1.
      induction xs as [|x rest IH]; simpl; auto.
      rewrite IH, orb_false_r. destruct (is_nan x) eqn:E; auto.
    + cbn [values]. rewrite <- (map_map Flt (Pd.fill_cell v)).
      now apply no_missing_filled.
  - rewrite Hv in H.
    destruct (existsb (py_eqb v) (Pd.categories xs)); [|discriminate].
    inversion H. cbn [values]. now apply no_missing_filled.
  - inversion H. cbn [values]. now apply no_missing_filled.
Qed.

Lemma impute_cols_columns (value_of : Series -> result scalar) (cols : list string) :
  forall imp df r df',
    impute_cols value_of cols imp df = (r, df') -> columns df' = columns df.
Proof.
  induction cols as [|c0 rest IH]; intros imp df r df' H; simpl in H.
  - now inversion H.
  - destruct (get_col df c0) as [s0|] eqn:G; [|now inversion H].
    destruct (impute value_of s0) as [[[v s']|]|e]; [| |now inversion H].
    + rewrite (IH _ _ _ _ H). eapply columns_set_present; eauto.
    + eauto.
Qed.

(** A loop over columns that are all complete changes nothing. *)
Lemma impute_cols_nothing (value_of : Series -> result scalar) (cols : list string)
      (imp : list (string * scalar)) (df : DataFrame) :
  (forall c, In c cols -> has_col df c = true) ->
  complete df ->
  impute_cols value_of cols imp df = (Ok imp, df).
Proof.
  intros Hpres Hc. induction cols as [|c0 rest IH]; simpl; auto.
  assert (has_col df c0 = true) as H by (apply Hpres; now left).
  apply has_col_true in H. destruct H as [s0 G]. rewrite G.
  rewrite (impute_complete _ _ (Hc _ _ G)).
  apply IH. intros c Hin. apply Hpres. now right.
Qed.

Lemma handle_missing_values_on_complete (ns cs : string) (df : DataFrame) :
  complete df ->
  run (handle_missing_values ns cs) df
  = (Ok (df, []), mkWorld df [(INFO, "Handling missing values")]).
Proof.
  intros Hc. unfold run. rewrite handle_missing_values_run. cbv zeta. cbn [frame log].
  rewrite impute_cols_nothing; auto; [|intros c; apply select_dtypes_present].
  rewrite impute_cols_nothing; auto. intros c. apply select_dtypes_present.
Qed.

Lemma numeric_value_fill (ns : string) (s : Series) (v : scalar) :
  numeric_value ns s = Ok v -> isna v = false ->
  forall f, Pd.scalar_to_float v = Some f -> is_nan f = false.
Proof.
  unfold numeric_value. intros H Hv f Hf.
  assert (Hc : (exists g, v = Flt g) \/ v = Int 0).
  { destruct (String.eqb ns "mean"); [|destruct (String.eqb ns "median")].
    - destruct s; simpl in H; inversion H; eauto.
    - destruct s; simpl in H; inversion H; eauto.
    - inversion H. auto. }
  destruct Hc as [[g ->]| ->]; simpl in Hf; inversion Hf; subst.
  - exact Hv.
  - reflexivity.
Qed.

(** The column the handler returns for a column it filled with a value that
    is not missing has no missing value left. *)
Lemma handled_column_complete (ns cs : string) (s s' : Series) (v : scalar) :
  strategy_value ns cs s = Ok v -> Pd.fillna v s = Ok s' -> isna v = false ->
  has_missing s' = false.
Proof.
  unfold strategy_value. intros Hs Hf Hv.
  destruct (is_num_kind s) eqn:K.
  - eapply fillna_complete; eauto. eapply numeric_value_fill; eauto.
  - pose proof (fillna_returns_value _ _ _ Hf) as Hn.
    rewrite (fillna_value _ _ Hn) in Hf. rewrite has_missing_cells.
    destruct s as [w xs|p xs|xs|xs]; try (destruct p; discriminate).
    + inversion Hf. rewrite <- has_missing_cells. apply int_col_complete.
    + rewrite Hv in Hf.
      destruct (existsb (py_eqb v) (Pd.categories xs)); [|discriminate].
      inversion Hf. cbn [values]. now apply no_missing_filled.
    + inversion Hf. cbn [values]. now apply no_missing_filled.
Qed.

(** X1.  When the Missing-Value Handler returns, the table has the same
    columns in the same order and every column has as many rows as before:
    the handler adds and drops neither columns nor rows. *)
Theorem handle_missing_values_keeps_shape (ns cs : string) (df df' : DataFrame)
        (imp : list (string * scalar)) :
  well_formed df ->
  fst (run (handle_missing_values ns cs) df) = Ok (df', imp) ->
  columns df' = columns df
  /\ (forall c s, get_col df c = Some s ->
                  exists s', get_col df' c = Some s' /\ len s' = len s).
Proof.
  intros Hwf Hrun. split.
  - revert Hrun. unfold run. rewrite handle_missing_values_run. cbv zeta. cbn [frame log].
    destruct (impute_cols (numeric_value ns) (numeric_cols df) [] df)
      as [[imp1|e] df1] eqn:L1; [|discriminate].
    destruct (impute_cols (categorical_value cs) (cat_cols df1) imp1 df1)
      as [[imp2|e] df2] eqn:L2; [|discriminate].
    cbn [fst]. intros H. inversion H. subst.
    rewrite (impute_cols_columns _ _ _ _ _ _ L2).
    apply (impute_cols_columns _ _ _ _ _ _ L1).
  - intros c s G.
    pose proof (handle_missing_values_column ns cs df df' imp c Hwf Hrun) as Hcol.
    rewrite G in Hcol.
    destruct Hcol as [[_ [Hg _]]|[v [s' [_ [_ [Hf [Hg _]]]]]]].
    + eauto.
    + exists s'. split; auto. eapply fillna_len; eauto.
Qed.

Lemma handle_missing_values_keeps_shape_witness :
  let df := [("A", FloatCol F64 [1; 2; nan; 6]%float);
             ("C", ObjectCol [Str "b"; Str "a"; NaN; Str "b"])] in
  let df' := [("A", FloatCol F64 [1; 2; 3; 6]%float);
              ("C", ObjectCol [Str "b"; Str "a"; Str "b"; Str "b"])] in
  columns df' = columns df
  /\ (forall c s, get_col df c = Some s ->
                  exists s', get_col df' c = Some s' /\ len s' = len s).
Proof.
  intros df df'.
  apply (handle_missing_values_keeps_shape "mean" "mode" df df'
           [("A", Flt 3%float); ("C", Str "b")]).
  - apply distinct_strings_NoDup. reflexivity.
  - reflexivity.
Defined.

(** X2.  If the handler returns and every value it recorded as imputed is
    itself not missing, then no column of the returned table has a missing
    value, and a second run on that table, with any strategies, changes
    nothing and returns an empty imputation mapping. *)
Theorem handle_missing_values_second_run (ns cs ns2 cs2 : string)
        (df df' : DataFrame) (imp : list (string * scalar)) :
  well_formed df ->
  fst (run (handle_missing_values ns cs) df) = Ok (df', imp) ->
  (forall c v, dict_lookup imp c = Some v -> isna v = false) ->
  complete df'
  /\ run (handle_missing_values ns2 cs2) df'
     = (Ok (df', []), mkWorld df' [(INFO, "Handling missing values")]).
Proof.
  intros Hwf Hrun Himp.
  assert (Hc : complete df').
  { intros c s' G'.
    pose proof (handle_missing_values_column ns cs df df' imp c Hwf Hrun) as Hcol.
    destruct (get_col df c) as [s|] eqn:G.
    - destruct Hcol as [[Hn [Hg _]]|[v [s1 [_ [Hs [Hf [Hg Hl]]]]]]].
      + congruence.
      + rewrite G' in Hg. inversion Hg. subst s1.
        eapply handled_column_complete; eauto.
    - destruct Hcol. congruence. }
  split; auto. now apply handle_missing_values_on_complete.
Qed.

Lemma handle_missing_values_second_run_witness :
  let df' := [("A", FloatCol F64 [1; 2; 3; 6]%float);
              ("C", ObjectCol [Str "b"; Str "a"; Str "b"; Str "b"])] in
  complete df'
  /\ run (handle_missing_values "median" "unknown") df'
     = (Ok (df', []), mkWorld df' [(INFO, "Handling missing values")]).
Proof.
  intros df'.
  apply (handle_missing_values_second_run "mean" "mode" "median" "unknown"
           [("A", FloatCol F64 [1; 2; nan; 6]%float);
            ("C", ObjectCol [Str "b"; Str "a"; NaN; Str "b"])]
           df' [("A", Flt 3%float); ("C", Str "b")]).
  - apply distinct_strings_NoDup. reflexivity.
  - reflexivity.
  - intros c v. simpl.
    destruct (String.eqb c "A"); [intros H; inversion H; reflexivity|].
    destruct (String.eqb c "C"); [intros H; inversion H; reflexivity|discriminate].
Defined.

(** ** Missing-Value Handler: when it raises *)

Lemma py_eqb_refl (v : scalar) : isna v = false -> py_eqb v v = true.
Proof.
  destruct v as [z|f|t|]; simpl.
  - intros _. apply Z.eqb_refl.
  - unfold is_nan. now intros H%negb_false_iff.
  - intros _. apply String.eqb_refl.
  - auto.
Qed.

Lemma in_mode (s : Series) (v : scalar) :
  In v (Pd.mode s) -> In v (Pd.unique (filter notna (values s))).
Proof.
  unfold Pd.mode. intros H.
  destruct (_ || _) in H.
  - apply in_sorted_scalars in H. apply filter_In in H. tauto.
  - apply filter_In in H. tauto.
Qed.

Lemma max_attained (f : scalar -> nat) (l : list scalar) :
  l <> [] -> exists v, In v l /\ f v = fold_right Nat.max 0%nat (map f l).
Proof.
  induction l as [|x rest IH]; [congruence|]. intros _.
  destruct rest as [|y rest'].
  - exists x. simpl. split; auto. lia.
  - destruct IH as [v [Hin Hv]]; [discriminate|].
    change (fold_right Nat.max 0%nat (map f (x :: y :: rest')))
      with (Nat.max (f x) (fold_right Nat.max 0%nat (map f (y :: rest')))).
    destruct (Nat.max_spec (f x) (fold_right Nat.max 0%nat (map f (y :: rest'))))
      as [[_ E]|[_ E]]; rewrite E.
    + exists v. split; [now right|]. exact Hv.
    + exists x. split; [now left|]. reflexivity.
Qed.

Lemma insert_scalar_nonempty (x : scalar) (l : list scalar) :
  Pd.insert_scalar x l <> [].
Proof. destruct l; simpl; [discriminate|]. destruct (Pd.scalar_ltb _ _); discriminate. Qed.

(** [mode()] is empty exactly when the column has no value that is present. *)
Lemma mode_empty (s : Series) :
  Pd.mode s = [] <-> forallb isna (values s) = true.
Proof.
  assert (Hp : filter notna (values s) = [] <-> forallb isna (values s) = true).
  { induction (values s) as [|x rest IH]; simpl; [tauto|].
    unfold notna at 1. destruct (isna x); simpl; [exact IH|].
    split; discriminate. }
  rewrite <- Hp. unfold Pd.mode. split.
  - intros H. destruct (filter notna (values s)) as [|p ps] eqn:P; auto. exfalso.
    set (present := p :: ps) in *.
    destruct (max_attained (fun v => Pd.occurrences v present) (Pd.unique present))
      as [v [Hin Hv]]; [discriminate|].
    assert (Hm : In v (filter (fun v => Nat.eqb (Pd.occurrences v present)
                  (fold_right Nat.max 0%nat
                     (map (fun v => Pd.occurrences v present) (Pd.unique present))))
                  (Pd.unique present))).
    { apply filter_In. split; auto. now apply Nat.eqb_eq. }
    cbv zeta in H.
    destruct (_ || _) in H.
    + destruct (filter _ (Pd.unique present)) as [|m ms]; [destruct Hm|].
      simpl in H. now apply insert_scalar_nonempty in H.
    + rewrite H in Hm. destruct Hm.
  - intros ->. reflexivity.
Qed.

(** What the categorical loop does to one categorical or text column: it
    raises exactly on an unfillable one. *)
Lemma impute_categorical (cs : string) (s : Series) :
  is_cat_kind s = true ->
  if unfillable cs s
  then impute (categorical_value cs) s = Raise (handler_error cs)
  else exists r, impute (categorical_value cs) s = Ok r.
Proof.
  intros K. unfold unfillable, impute, handler_error, categorical_value. rewrite K.
  destruct (has_missing s) eqn:Hm; cbn [andb]; [|eauto].
  destruct (String.eqb cs "mode").
  - destruct (forallb isna (values s)) eqn:A.
    + apply mode_empty in A. rewrite A. reflexivity.
    + destruct (Pd.mode s) as [|v rest] eqn:M.
      { apply mode_empty in M. congruence. }
      cbn [Pd.first rbind].
      assert (Hin : In v (Pd.mode s)) by (rewrite M; now left).
      pose proof (mode_present _ _ Hin) as [_ Hv].
      apply in_mode in Hin.
      assert (Hn : v <> NoneV) by (intros ->; discriminate).
      rewrite (fillna_value _ _ Hn).
      destruct s as [w xs|p xs|xs|xs]; try discriminate; cbn [rbind]; eauto.
      * destruct p; discriminate.
      * rewrite Hv.
        assert (existsb (py_eqb v) (Pd.categories xs) = true) as ->.
        { apply existsb_exists. exists v. split; auto. now apply py_eqb_refl. }
        cbn [rbind]. eauto.
  - cbn [rbind]. rewrite fillna_value by discriminate.
    destruct s as [w xs|p xs|xs|xs]; try discriminate; cbn [rbind isna]; eauto.
    + destruct p; discriminate.
    + destruct (existsb _ (Pd.categories xs)); cbn [negb rbind]; eauto.
Qed.

Lemma get_col_set_other (df : DataFrame) (c c' : string) (s : Series) :
  c <> c' -> get_col (set_col df c s) c' = get_col df c'.
Proof. intros H. now apply get_set_other. Qed.

(** A loop of the handler that raises does so on one of its columns, whose
    content is still the one the table had when the loop began. *)
Lemma impute_cols_raises (value_of : Series -> result scalar) (cols : list string) :
  NoDup cols ->
  forall imp df e df',
    impute_cols value_of cols imp df = (Raise e, df') ->
    (forall c, In c cols -> has_col df c = true) ->
    exists c s, In c cols /\ get_col df c = Some s /\ impute value_of s = Raise e.
Proof.
  induction cols as [|c0 rest IH]; intros Hnd imp df e df' H Hp; simpl in H.
  - discriminate.
  - inversion Hnd as [|? ? Hk Hrest]. subst.
    assert (has_col df c0 = true) as H0 by (apply Hp; now left).
    apply has_col_true in H0. destruct H0 as [s0 G0]. rewrite G0 in H.
    destruct (impute value_of s0) as [[[v s']|]|e0] eqn:I0.
    + destruct (IH Hrest _ _ _ _ H) as [c [s [Hin [G I]]]].
      * intros c Hin. rewrite has_col_set. apply orb_true_iff. left.
        apply Hp. now right.
      * exists c, s. split; [now right|]. split; auto.
        rewrite get_set_other in G; auto. intros ->. contradiction.
    + destruct (IH Hrest _ _ _ _ H) as [c [s [Hin [G I]]]].
      * intros c Hin. apply Hp. now right.
      * exists c, s. split; [now right|]. auto.
    + inversion H. subst. exists c0, s0. split; [now left|]. auto.
Qed.

(** The numeric loop never raises. *)
Lemma numeric_loop_returns (ns : string) (df : DataFrame) :
  well_formed df ->
  exists imp1 df1,
    impute_cols (numeric_value ns) (numeric_cols df) [] df = (Ok imp1, df1).
Proof.
  intros Hwf.
  destruct (impute_cols (numeric_value ns) (numeric_cols df) [] df)
    as [[imp1|e] df1] eqn:L1; eauto.
  exfalso.
  destruct (impute_cols_raises _ _ (NoDup_columns_filter _ df Hwf) _ _ _ _ L1)
    as [c [s [Hin [G I]]]].
  - intros c. apply select_dtypes_present.
  - apply in_select_dtypes in Hin; auto. destruct Hin as [s0 [G0 K]].
    rewrite G in G0. inversion G0. subst s0.
    destruct (impute_numeric ns s K) as [[I' _]|[v [s' [I' _]]]]; congruence.
Qed.

(** The categorical and text columns the second loop sees are those of the
    table the handler was called with, unchanged by the numeric loop. *)
Lemma categorical_columns_after_numeric_loop (ns : string) (df df1 : DataFrame)
      (imp1 : list (string * scalar)) :
  well_formed df ->
  impute_cols (numeric_value ns) (numeric_cols df) [] df = (Ok imp1, df1) ->
  forall c s, is_cat_kind s = true ->
              (get_col df1 c = Some s <-> get_col df c = Some s).
Proof.
  intros Hwf L1 c s K.
  destruct (impute_cols_spec _ _ (NoDup_columns_filter _ df Hwf) _ _ _ _ L1)
    as [Hc1 [Hin1 Hout1]].
  fold (numeric_cols df) in Hin1, Hout1.
  assert (Hnum : forall s0, get_col df c = Some s0 -> is_num_kind s0 = true ->
                 forall s1, get_col df1 c = Some s1 -> is_cat_kind s1 = false).
  { intros s0 G0 K0 s1 G1.
    assert (In c (numeric_cols df)) as Hc by (apply in_select_dtypes; eauto).
    destruct (Hin1 c Hc) as [s2 [G2 Hm]]. rewrite G0 in G2. inversion G2. subst s2.
    destruct (impute_numeric ns s0 K0) as [[I _]|[v [s' [I [_ [_ [_ Hk]]]]]]];
      rewrite I in Hm; destruct Hm as [G1' _]; rewrite G1 in G1'; inversion G1'; subst.
    - now apply kinds_disjoint.
    - exact Hk. }
  assert (Hother : forall s0, get_col df c = Some s0 -> is_num_kind s0 = false ->
                   get_col df1 c = Some s0).
  { intros s0 G0 K0. destruct (Hout1 c) as [Hg _]; [|congruence].
    intros Hin. apply in_select_dtypes in Hin; auto.
    destruct Hin as [s2 [G2 K2]]. rewrite G0 in G2. inversion G2. subst.
    unfold is_num_kind in K0. congruence. }
  split; intros G.
  - destruct (get_col df c) as [s0|] eqn:G0.
    + destruct (is_num_kind s0) eqn:K0.
      * pose proof (Hnum s0 eq_refl K0 s G). congruence.
      * rewrite (Hother s0 eq_refl K0) in G. exact G.
    + apply (get_col_columns df df1 c Hc1) in G0. congruence.
  - destruct (is_num_kind s) eqn:K0.
    + apply kinds_disjoint in K0. congruence.
    + now apply Hother.
Qed.

(** The outcome of the handler on a table: it returns exactly when no column
    is unfillable, and it raises nothing but the exception of its categorical
    strategy. *)
Lemma handle_missing_values_outcome (ns cs : string) (df : DataFrame) :
  well_formed df ->
  ((exists df' imp, fst (run (handle_missing_values ns cs) df) = Ok (df', imp))
   <-> (forall c s, get_col df c = Some s -> unfillable cs s = false))
  /\ (forall e, fst (run (handle_missing_values ns cs) df) = Raise e ->
                e = handler_error cs).
Proof.
  intros Hwf. unfold run. rewrite handle_missing_values_run. cbv zeta. cbn [frame log].
  destruct (numeric_loop_returns ns df Hwf) as [imp1 [df1 L1]]. rewrite L1.
  pose proof (categorical_columns_after_numeric_loop ns df df1 imp1 Hwf L1) as Hcat.
  assert (Hwf1 : well_formed df1).
  { apply (well_formed_columns df df1); auto. eapply impute_cols_columns; eauto. }
  destruct (impute_cols (categorical_value cs) (cat_cols df1) imp1 df1)
    as [[imp2|e] df2] eqn:L2; cbn [fst].
  - split; [|discriminate]. split; [|eauto]. intros _ c s G.
    destruct (unfillable cs s) eqn:U; auto. exfalso.
    assert (K : is_cat_kind s = true).
    { unfold unfillable in U. now apply andb_true_iff in U as [[_ K]%andb_true_iff _]. }
    destruct (impute_cols_spec _ _ (NoDup_columns_filter _ df1 Hwf1) _ _ _ _ L2)
      as [_ [Hin2 _]].
    destruct (Hin2 c) as [s0 [G0 Hm]].
    { apply in_select_dtypes; auto. exists s. split; auto. now apply Hcat. }
    apply Hcat in G; auto. rewrite G in G0. inversion G0. subst s0.
    pose proof (impute_categorical cs s K) as I. rewrite U in I.
    rewrite I in Hm. exact Hm.
  - destruct (impute_cols_raises _ _ (NoDup_columns_filter _ df1 Hwf1) _ _ _ _ L2)
      as [c [s [Hin [G I]]]].
    { intros c. apply select_dtypes_present. }
    apply in_select_dtypes in Hin; auto. destruct Hin as [s0 [G0 K]].
    rewrite G in G0. inversion G0. subst s0. fold (is_cat_kind s) in K.
    pose proof (impute_categorical cs s K) as I'.
    destruct (unfillable cs s) eqn:U.
    + split.
      * split; [intros [df' [imp H]]; discriminate|].
        intros Hall. apply Hcat in G; auto. rewrite (Hall c s G) in U. discriminate.
      * intros e0 H. inversion H. subst. congruence.
    + destruct I' as [r I']. congruence.
Qed.

(** X3.  The handler returns exactly when the table has no unfillable
    column, and when it raises, the exception is the one of its categorical
    strategy: [KeyError] from [mode()[0]] on a column without any value under
    'mode', [TypeError] from filling a categorical column with the new
    category "Unknown" otherwise.  The numeric strategy never makes it
    raise. *)
Theorem handle_missing_values_returns_iff (ns cs : string) (df : DataFrame) :
  well_formed df ->
  ((exists df' imp, fst (run (handle_missing_values ns cs) df) = Ok (df', imp))
   <-> (forall c s, get_col df c = Some s -> unfillable cs s = false))
  /\ (forall e, fst (run (handle_missing_values ns cs) df) = Raise e ->
                e = handler_error cs).
Proof. exact (handle_missing_values_outcome ns cs df). Qed.

Lemma handle_missing_values_returns_iff_witness :
  let df := [("NU_NOTA_CN", FloatCol F64 [1; nan]%float);
             ("TP_SEXO", CatCol [Str "M"; NaN])] in
  fst (run (handle_missing_values "mean" "unknown") df)
  = Raise (handler_error "unknown")
  /\ unfillable "unknown" (CatCol [Str "M"; NaN]) = true
  /\ frame_after (handle_missing_values "mean" "unknown") df
     = [("NU_NOTA_CN", FloatCol F64 [1; 1]%float);
        ("TP_SEXO", CatCol [Str "M"; NaN])].
Proof.
  intros df. split; [|split; reflexivity].
  assert (Hwf : well_formed df) by (apply distinct_strings_NoDup; reflexivity).
  destruct (fst (run (handle_missing_values "mean" "unknown") df)) as [r|e] eqn:R.
  - discriminate.
  - f_equal.
    exact (proj2 (handle_missing_values_returns_iff "mean" "unknown" df Hwf) e R).
Defined.

(** Whatever its outcome, a loop of the handler touches only its columns. *)
Lemma impute_cols_outside (value_of : Series -> result scalar) (cols : list string) :
  forall imp df r df',
    impute_cols value_of cols imp df = (r, df') ->
    forall c, ~ In c cols -> get_col df' c = get_col df c.
Proof.
  induction cols as [|c0 rest IH]; intros imp df r df' H c Hc; simpl in H.
  - now inversion H.
  - destruct (get_col df c0) as [s0|] eqn:G; [|now inversion H].
    destruct (impute value_of s0) as [[[v s']|]|e]; [| |now inversion H].
    + rewrite (IH _ _ _ _ H c); [|intros Hin; apply Hc; now right].
      apply get_set_other. intros ->. apply Hc. now left.
    + apply (IH _ _ _ _ H c). intros Hin. apply Hc. now right.
Qed.

(** X4.  The handler is not all-or-nothing: when it raises, which only the
    categorical loop can do, the numeric loop has already run, and every
    int32, int64 or float column of the table is left as the numeric strategy
    fills it. *)
Theorem handle_missing_values_raises_after_numeric_loop (ns cs : string)
        (df : DataFrame) (e : exn) :
  well_formed df ->
  fst (run (handle_missing_values ns cs) df) = Raise e ->
  forall c s, get_col df c = Some s -> is_num_kind s = true ->
    exists s', get_col (frame_after (handle_missing_values ns cs) df) c = Some s'
      /\ (has_missing s = false /\ s' = s
          \/ has_missing s = true
             /\ exists v, numeric_value ns s = Ok v /\ Pd.fillna v s = Ok s').
Proof.
  intros Hwf. unfold frame_after, run.
  rewrite handle_missing_values_run. cbv zeta. cbn [frame log].
  destruct (numeric_loop_returns ns df Hwf) as [imp1 [df1 L1]]. rewrite L1.
  assert (Hwf1 : well_formed df1).
  { apply (well_formed_columns df df1); auto. eapply impute_cols_columns; eauto. }
  destruct (impute_cols_spec _ _ (NoDup_columns_filter _ df Hwf) _ _ _ _ L1)
    as [_ [Hin1 _]].
  fold (numeric_cols df) in Hin1.
  destruct (impute_cols (categorical_value cs) (cat_cols df1) imp1 df1)
    as [[imp2|e2] df2] eqn:L2; cbn [fst snd frame]; [discriminate|].
  intros _ c s G K.
  assert (In c (numeric_cols df)) as Hc by (apply in_select_dtypes; eauto).
  destruct (Hin1 c Hc) as [s0 [G0 Hm]]. rewrite G in G0. inversion G0. subst s0.
  assert (Hkeep : forall s1, get_col df1 c = Some s1 -> is_cat_kind s1 = false ->
                             get_col df2 c = Some s1).
  { intros s1 G1 K1. rewrite <- G1.
    apply (impute_cols_outside _ _ _ _ _ _ L2).
    intros Hin. apply in_select_dtypes in Hin; auto.
    destruct Hin as [s2 [G2 K2]]. rewrite G1 in G2. inversion G2. subst.
    unfold is_cat_kind in K1. congruence. }
  destruct (impute_numeric ns s K) as [[I Hno]|[v [s' [I [Hyes [Hv [Hf Hk]]]]]]];
    rewrite I in Hm; destruct Hm as [G1 _].
  - exists s. split; [|now left]. apply Hkeep; auto. now apply kinds_disjoint.
  - exists s'. split; [now apply Hkeep|]. right. eauto.
Qed.

Lemma handle_missing_values_raises_after_numeric_loop_witness :
  let df := [("NU_NOTA_CN", FloatCol F64 [1; nan]%float);
             ("TP_SEXO", CatCol [Str "M"; NaN])] in
  exists s', get_col (frame_after (handle_missing_values "mean" "unknown") df)
                     "NU_NOTA_CN" = Some s'
      /\ (has_missing (FloatCol F64 [1; nan]%float) = false
          /\ s' = FloatCol F64 [1; nan]%float
          \/ has_missing (FloatCol F64 [1; nan]%float) = true
             /\ exists v, numeric_value "mean" (FloatCol F64 [1; nan]%float) = Ok v
                          /\ Pd.fillna v (FloatCol F64 [1; nan]%float) = Ok s').
Proof.
  intros df.
  apply (handle_missing_values_raises_after_numeric_loop "mean" "unknown" df
           (handler_error "unknown")).
  - apply distinct_strings_NoDup. reflexivity.
  - reflexivity.
  - reflexivity.
  - reflexivity.
Defined.

(** ** Missing-Value Handler: strategy names it does not know *)

(** The result of the handler does not depend on the log it is given. *)
Lemma handle_missing_values_any_log (ns cs : string) (w : World) :
  fst (handle_missing_values ns cs w)
  = fst (run (handle_missing_values ns cs) (frame w)).
Proof.
  unfold run. rewrite !handle_missing_values_run. cbv zeta. cbn [frame log].
  destruct (impute_cols (numeric_value ns) (numeric_cols (frame w)) [] (frame w))
    as [[imp1|e] df1]; [|reflexivity].
  destruct (impute_cols (categorical_value cs) (cat_cols df1) imp1 df1)
    as [[imp2|e] df2]; reflexivity.
Qed.

(** Only a float column can be numeric and have a missing value; filled with
    0 it keeps its dtype. *)
Lemma fillna_zero (s s' : Series) :
  is_num_kind s = true -> has_missing s = true ->
  Pd.fillna (Int 0) s = Ok s' ->
  filled_with (Flt 0%float) s s' /\ dtype_of s' = dtype_of s.
Proof.
  intros K Hm H. rewrite fillna_value in H by discriminate.
  destruct s as [w xs|p xs|xs|xs]; try discriminate.
  - rewrite int_col_complete in Hm. discriminate.
  - cbn [Pd.scalar_to_float] in H. cbv zeta in H.
    assert (Hz : Fl.of_Z 0 = 0%float) by reflexivity.
    rewrite Hz in H.
    assert (Hfit : (is_nan 0 || PrimFloat.eqb (Pd.fround p 0) 0) = true)
      by now destruct p.
    rewrite Hfit in H.
    assert (Hr : Pd.fround p 0 = 0%float) by now destruct p.
    rewrite Hr in H. inversion H. subst s'. split; [|reflexivity].
    unfold filled_with. simpl. rewrite map_map. apply Forall2_maps.
    intros x. simpl. now destruct (is_nan x).
Qed.

(** A categorical or text column filled with "Unknown". *)
Lemma fillna_unknown (s s' : Series) :
  is_cat_kind s = true ->
  Pd.fillna (Str "Unknown") s = Ok s' ->
  filled_with (Str "Unknown") s s'.
Proof.
  intros K H. rewrite fillna_value in H by discriminate.
  destruct s as [[] xs|[] xs|xs|xs]; try discriminate.
  - cbn [isna] in H.
    destruct (existsb _ (Pd.categories xs)); [|discriminate].
    inversion H. unfold filled_with. simpl. apply Forall2_map_right. reflexivity.
  - inversion H. unfold filled_with. simpl. apply Forall2_map_right. reflexivity.
Qed.

(** Under a categorical strategy other than 'mode', the unfillable columns
    are the categorical-dtype columns with a missing value and without the
    category "Unknown". *)
Lemma unfillable_unknown (cs : string) (s : Series) :
  cs <> "mode" ->
  (unfillable cs s = true
   <-> exists xs, s = CatCol xs
                  /\ has_missing s = true
                  /\ existsb (py_eqb (Str "Unknown")) (Pd.categories xs) = false).
Proof.
  intros Hmode. apply String.eqb_neq in Hmode.
  unfold unfillable. rewrite Hmode. split.
  - intros [[Hm K]%andb_true_iff H]%andb_true_iff.
    destruct s as [w xs|p xs|xs|xs]; try discriminate.
    exists xs. repeat split; auto. now apply negb_true_iff.
  - intros [xs [-> [Hm H]]]. rewrite Hm, H. reflexivity.
Qed.




(** ** Type Optimizer followed by Category Mapper *)

Lemma SFcompare_Eq (a b : spec_float) :
  SFcompare a b = Some Eq ->
  a = b \/ exists s t, a = S754_zero s /\ b = S754_zero t.
Proof.
  destruct a as [sa|sa| |sa ma ea], b as [sb|sb| |sb mb eb]; simpl; intros H;
    try discriminate H; eauto;
    try (destruct sa; discriminate H); try (destruct sb; discriminate H).
  - destruct sa, sb; try discriminate H; auto.
  - destruct sa, sb; try discriminate H;
      destruct (Z.compare ea eb) eqn:Ee; try discriminate H;
      apply Z.compare_eq in Ee; subst;
      destruct (Pos.compare_cont Eq ma mb) eqn:Em; try discriminate H;
      apply Pos.compare_eq in Em; subst; auto.
Qed.

Lemma SFcompare_euclid (a b c : spec_float) :
  SFcompare a b = Some Eq -> SFcompare a c = Some Eq -> SFcompare b c = Some Eq.
Proof.
  intros A B.
  destruct (SFcompare_Eq _ _ A) as [Hb|[s [t [Ha Hb]]]],
           (SFcompare_Eq _ _ B) as [Hc|[s' [t' [Ha' Hc]]]]; subst; auto.
Qed.

Lemma eqb_euclid (x y z : float) :
  PrimFloat.eqb x y = true -> PrimFloat.eqb x z = true -> PrimFloat.eqb y z = true.
Proof.
  rewrite !eqb_spec. unfold SFeqb.
  destruct (SFcompare (Prim2SF x) (Prim2SF y)) as [[| |]|] eqn:A; try discriminate.
  destruct (SFcompare (Prim2SF x) (Prim2SF z)) as [[| |]|] eqn:B; try discriminate.
  intros _ _. now rewrite (SFcompare_euclid _ _ _ A B).
Qed.

Lemma to_Z_exact_eqb (y : float) (z : Z) :
  Fl.to_Z_exact y = Some z -> PrimFloat.eqb (Fl.of_Z z) y = true.
Proof.
  unfold Fl.to_Z_exact. destruct (Fl.trunc y) as [z0|]; [|discriminate].
  destruct (PrimFloat.eqb (Fl.of_Z z0) y) eqn:E; [|discriminate].
  intros H. inversion H. now subst.
Qed.

(** Two values equal to the same integer or text key are equal. *)
Lemma py_eqb_euclid (k a b : scalar) :
  Pd.is_float_cell k = false ->
  py_eqb k a = true -> py_eqb k b = true -> py_eqb a b = true.
Proof.
  intros Hk.
  destruct k as [x|f|t|]; [| discriminate | |];
    destruct a as [xa|ya|ta|]; simpl; try discriminate;
    destruct b as [xb|yb|tb|]; simpl; try discriminate; auto.
  - intros A%Z.eqb_eq B%Z.eqb_eq. subst. apply Z.eqb_refl.
  - intros A%Z.eqb_eq. now subst.
  - destruct (Fl.to_Z_exact ya) as [z|] eqn:E; [|discriminate].
    intros A%Z.eqb_eq B%Z.eqb_eq. subst. apply Z.eqb_refl.
  - destruct (Fl.to_Z_exact ya) as [za|] eqn:Ea; [|discriminate].
    destruct (Fl.to_Z_exact yb) as [zb|] eqn:Eb; [|discriminate].
    intros A%Z.eqb_eq B%Z.eqb_eq. subst.
    eapply eqb_euclid; eapply to_Z_exact_eqb; eauto.
  - intros A%String.eqb_eq B%String.eqb_eq. subst. apply String.eqb_refl.
Qed.

Lemma unique_distinct (l : list scalar) :
  ForallOrdPairs (fun a b => py_eqb a b = false) (Pd.unique l).
Proof.
  induction l as [|x rest IH]; simpl; [constructor|].
  constructor.
  - apply Forall_forall. intros y Hy. apply filter_In in Hy.
    destruct Hy as [_ Hy]. now apply negb_true_iff.
  - clear -IH. induction IH as [|a l Ha Hl IHl]; simpl; [constructor|].
    destruct (negb (py_eqb x a)); auto.
    constructor; auto.
    apply Forall_forall. intros y Hy. apply filter_In in Hy.
    rewrite Forall_forall in Ha. apply Ha. tauto.
Qed.

Lemma same_label_same_key (d : Pd.pydict) (k1 k2 : scalar) (l : string) :
  NoDup (Pd.labels d) -> In (k1, l) d -> In (k2, l) d -> k1 = k2.
Proof.
  unfold Pd.labels. induction d as [|[k0 l0] rest IH]; simpl; [tauto|].
  intros Hnd H1 H2. inversion Hnd as [|? ? Hn Hrest]. subst.
  assert (Hno : forall k, In (k, l0) rest -> False).
  { intros k Hin. apply Hn. change l0 with (snd (k, l0)). now apply in_map. }
  destruct H1 as [H1|H1], H2 as [H2|H2];
    try (inversion H1; subst); try (inversion H2; subst); auto;
    try (exfalso; eapply Hno; eassumption).
Qed.

Lemma dict_get_entry (d : Pd.pydict) (v : scalar) (l : string) :
  Pd.dict_get d v = Some l -> exists k, In (k, l) d /\ py_eqb k v = true.
Proof.
  unfold Pd.dict_get. destruct (find _ d) as [[k l0]|] eqn:E; [|discriminate].
  intros H. inversion H. subst. apply find_some in E. exists k. simpl in E. tauto.
Qed.

Lemma well_keyed_spec (d : Pd.pydict) :
  well_keyed d = true ->
  NoDup (Pd.labels d)
  /\ ~ In "Unknown" (Pd.labels d)
  /\ (forall k l, In (k, l) d -> Pd.is_float_cell k = false).
Proof.
  unfold well_keyed. intros [[H1 H2]%andb_true_iff H3]%andb_true_iff.
  split; [|split].
  - now apply distinct_strings_NoDup.
  - intros Hin. apply negb_true_iff in H2.
    assert (existsb (String.eqb "Unknown") (Pd.labels d) = true); [|congruence].
    apply existsb_exists. exists "Unknown". split; auto.
  - intros k l Hin. rewrite forallb_forall in H3.
    apply H3 in Hin. now apply negb_true_iff in Hin.
Qed.

(** Values with the same label are equal. *)
Lemma dict_get_injective (d : Pd.pydict) (a b : scalar) (l : string) :
  well_keyed d = true ->
  Pd.dict_get d a = Some l -> Pd.dict_get d b = Some l -> py_eqb a b = true.
Proof.
  intros [Hnd [_ Hk]]%well_keyed_spec Ha Hb.
  apply dict_get_entry in Ha, Hb.
  destruct Ha as [ka [Ia Ea]], Hb as [kb [Ib Eb]].
  assert (ka = kb) by (eapply same_label_same_key; eauto). subst kb.
  eapply py_eqb_euclid; eauto.
Qed.

Lemma distinct_images (d : Pd.pydict) (l : list scalar) :
  well_keyed d = true ->
  forallb (known d) l = true ->
  ForallOrdPairs (fun a b => py_eqb a b = false) l ->
  Pd.distinct_strings (map (fun c => match Pd.dict_get d c with
                                     | Some l => l
                                     | None => ""
                                     end) l) = true.
Proof.
  intros Hd Hk Hp. induction Hp as [|a l Ha Hl IH]; simpl; auto.
  simpl in Hk. apply andb_true_iff in Hk. destruct Hk as [Ka Kl].
  rewrite IH by assumption. rewrite andb_true_r. apply negb_true_iff.
  destruct (existsb _ _) eqn:E; auto. exfalso.
  apply existsb_exists in E. destruct E as [t [Hin Ht]].
  apply String.eqb_eq in Ht. subst t.
  apply in_map_iff in Hin. destruct Hin as [b [Hb Hin]].
  rewrite Forall_forall in Ha. specialize (Ha b Hin).
  rewrite forallb_forall in Kl. specialize (Kl b Hin).
  unfold known in Ka, Kl.
  destruct (Pd.dict_get d a) as [la|] eqn:Ga; [|discriminate].
  destruct (Pd.dict_get d b) as [lb|] eqn:Gb; [|discriminate].
  subst lb. rewrite (dict_get_injective d a b la Hd Ga Gb) in Ha. discriminate.
Qed.

Lemma CATEGORY_MAPPINGS_well_keyed (c : string) (mapping : Pd.pydict) :
  In (c, mapping) CATEGORY_MAPPINGS -> well_keyed mapping = true.
Proof.
  simpl. intros H.
  repeat match goal with
         | H : _ \/ _ |- _ => destruct H as [H|H]
         | H : (_, _) = (_, _) |- _ => inversion H; clear H; subst
         | H : False |- _ => destruct H
         end; reflexivity.
Qed.

(** Mapping a categorical column whose categories are all keys raises: the
    result of [map] is again categorical, and "Unknown" is not one of its
    categories. *)
Lemma relabel_categorical_known (d : Pd.pydict) (xs : list scalar) :
  well_keyed d = true ->
  forallb (known d) (Pd.categories xs) = true ->
  relabel d (CatCol xs) = Raise new_category_error.
Proof.
  intros Hd Hk. unfold relabel, Pd.map_dict.
  fold (known d). 
  change (fun c => match Pd.dict_get d c with Some _ => true | None => false end)
    with (known d).
  rewrite Hk. rewrite (distinct_images d _ Hd Hk (unique_distinct _)).
  cbn [andb]. unfold Pd.fillna. cbn [isna].
  destruct (existsb (py_eqb (Str "Unknown")) (Pd.categories (map (Pd.lookup_cell d) xs)))
    eqn:E; [|reflexivity].
  exfalso. apply existsb_exists in E. destruct E as [v [Hin Hv]].
  unfold Pd.categories in Hin. apply in_unique in Hin. apply filter_In in Hin.
  destruct Hin as [Hin Hna]. apply in_map_iff in Hin. destruct Hin as [x [Hx _]].
  subst v. unfold Pd.lookup_cell in *.
  destruct (isna x); [discriminate|].
  destruct (Pd.dict_get d x) as [l|] eqn:G; [|discriminate].
  cbn [py_eqb] in Hv. apply String.eqb_eq in Hv. subst l.
  apply dict_get_label in G.
  apply well_keyed_spec in Hd. tauto.
Qed.

(** With a category that is not a key, [map] falls back to an object
    column, which [fillna] accepts. *)
Lemma relabel_categorical_unknown (d : Pd.pydict) (xs : list scalar) :
  forallb (known d) (Pd.categories xs) = false ->
  relabel d (CatCol xs) = Ok (ObjectCol (map (label_or_unknown d) xs)).
Proof.
  intros Hk. unfold relabel, Pd.map_dict.
  change (fun c => match Pd.dict_get d c with Some _ => true | None => false end)
    with (known d).
  rewrite Hk. cbn [andb]. unfold Pd.fillna. now rewrite map_map.
Qed.

Section OptimizeThenMap.

Variable int_of_str : string -> option Z.
Variable float_of_str : string -> option float.

#[local] Abbreviation optimized :=
  (frame_after (optimize_dtypes int_of_str float_of_str)).

(** A cast to the categorical dtype never raises. *)
Lemma astype_category (s : Series) :
  Pd.astype int_of_str float_of_str category s = Ok (CatCol (values s)).
Proof. destruct s as [w xs|p xs|xs|xs]; reflexivity. Qed.

Lemma CATEGORY_MAPPINGS_categorical (c : string) (mapping : Pd.pydict) :
  In (c, mapping) CATEGORY_MAPPINGS -> dict_lookup DTYPE_MAPPINGS c = Some category.
Proof.
  simpl. intros H.
  repeat match goal with
         | H : _ \/ _ |- _ => destruct H as [H|H]
         | H : (_, _) = (_, _) |- _ => inversion H; clear H; subst
         | H : False |- _ => destruct H
         end; reflexivity.
Qed.

(** X5.  The two first stages in sequence.  The Type Optimizer always turns
    a coded column into a categorical one.  The Category Mapper then maps it
    only if it holds a code that is not a key of its dictionary: every value
    becomes its label, or "Unknown".  A column whose codes are all keys is
    left with its raw codes, and a warning is logged. *)
Theorem optimize_then_map_categories
        (df : DataFrame) (c : string) (mapping : Pd.pydict) (s : Series) :
  In (c, mapping) CATEGORY_MAPPINGS ->
  get_col df c = Some s ->
  let r := run map_categories (optimized df) in
  get_col (optimized df) c = Some (CatCol (values s))
  /\ if forallb (known mapping) (Pd.categories (values s))
     then get_col (frame (snd r)) c = Some (CatCol (values s))
          /\ In (WARNING, mapping_message c mapping new_category_error) (log (snd r))
     else get_col (frame (snd r)) c
          = Some (ObjectCol (map (label_or_unknown mapping) (values s))).
Proof.
  intros Hin G r.
  assert (G1 : get_col (optimized df) c = Some (CatCol (values s))).
  { rewrite optimize_frame_after.
    rewrite get_columnwise by apply DTYPE_MAPPINGS_keys.
    rewrite G. simpl. unfold attempt_listed.
    rewrite (CATEGORY_MAPPINGS_categorical c mapping Hin).
    unfold attempt. now rewrite astype_category. }
  split; auto.
  assert (Hget : get_col (frame (snd r)) c
                 = Some (attempt relabel mapping (CatCol (values s)))).
  { change (frame (snd r)) with (frame_after map_categories (optimized df)).
    rewrite map_categories_frame_after.
    rewrite get_columnwise by apply CATEGORY_MAPPINGS_keys.
    rewrite G1. simpl. unfold attempt_listed.
    now rewrite (dict_lookup_In _ _ _ CATEGORY_MAPPINGS_keys Hin). }
  pose proof (CATEGORY_MAPPINGS_well_keyed c mapping Hin) as Hd.
  destruct (forallb (known mapping) (Pd.categories (values s))) eqn:K.
  - pose proof (relabel_categorical_known mapping (values s) Hd K) as E.
    split.
    + rewrite Hget. unfold attempt. now rewrite E.
    + subst r. unfold run. rewrite map_categories_run. cbv zeta. cbn [snd].
      eapply warning_in_log; eauto. apply CATEGORY_MAPPINGS_keys.
  - rewrite Hget. unfold attempt.
    now rewrite (relabel_categorical_unknown mapping (values s) K).
Qed.

End OptimizeThenMap.

Lemma optimize_then_map_categories_witness :
  let mapping := [(Int 1, "Not Informed"); (Int 2, "Public"); (Int 3, "Private")] in
  let s := IntCol W64 [2; 3; 2]%Z in
  let df := [("TP_ESCOLA", s); ("TP_COR_RACA", IntCol W64 [1; 9; 3]%Z)] in
  let df1 := frame_after (optimize_dtypes decimal_int decimal_float) df in
  let r := run map_categories df1 in
  get_col df1 "TP_ESCOLA" = Some (CatCol (values s))
  /\ if forallb (known mapping) (Pd.categories (values s))
     then get_col (frame (snd r)) "TP_ESCOLA" = Some (CatCol (values s))
          /\ In (WARNING, mapping_message "TP_ESCOLA" mapping new_category_error)
                (log (snd r))
     else get_col (frame (snd r)) "TP_ESCOLA"
          = Some (ObjectCol (map (label_or_unknown mapping) (values s))).
Proof.
  intros mapping s df df1 r.
  apply (optimize_then_map_categories decimal_int decimal_float df "TP_ESCOLA" mapping s).
  - simpl. tauto.
  - reflexivity.
Defined.

(** ** Validator: columns that cannot be compared *)

Lemma check_block_result (w : World) (col : string) (issues : list string)
      (mask_of : Series -> result (list bool)) (message : nat -> string) :
  (present <- contains col ;;
   if present : bool then
     s <- getitem col ;;
     mask <- lift (mask_of s) ;;
     df <- the_frame ;;
     invalid <- lift (column_of (Pd.loc df mask) col) ;;
     if Nat.ltb 0 (len invalid) then ret (append issues (message (len invalid)))
     else ret issues
   else ret issues) w
  = (check_result (frame w) col mask_of message issues, w).
Proof.
  unfold bind, contains, getitem, lift, the_frame, ret, check_result.
  rewrite has_col_get.
  destruct (get_col (frame w) col) as [s|] eqn:G; [|reflexivity].
  cbv beta iota. rewrite G.
  destruct (mask_of s) as [mask|e]; [|reflexivity].
  unfold column_of. rewrite get_col_loc, G. simpl.
  now destruct (Nat.ltb 0 (len (Pd.take_rows mask s))).
Qed.

Lemma check_block_result_then {B} (w : World) (col : string) (issues : list string)
      (mask_of : Series -> result (list bool)) (message : nat -> string)
      (k : list string -> M B) :
  (present <- contains col ;;
   issues' <-
     (if present : bool then
        s <- getitem col ;;
        mask <- lift (mask_of s) ;;
        df <- the_frame ;;
        invalid <- lift (column_of (Pd.loc df mask) col) ;;
        if Nat.ltb 0 (len invalid) then ret (append issues (message (len invalid)))
        else ret issues
      else ret issues) ;;
   k issues') w
  = match check_result (frame w) col mask_of message issues with
    | Ok issues' => k issues' w
    | Raise e => (Raise e, w)
    end.
Proof.
  unfold bind, contains, getitem, lift, the_frame, ret, check_result.
  rewrite has_col_get.
  destruct (get_col (frame w) col) as [s|] eqn:G; [|reflexivity].
  cbv beta iota. rewrite G.
  destruct (mask_of s) as [mask|e]; [|reflexivity].
  unfold column_of. rewrite get_col_loc, G. simpl.
  now destruct (Nat.ltb 0 (len (Pd.take_rows mask s))).
Qed.

Lemma run_checks_app (df : DataFrame)
      (cs1 cs2 : list (string * (Series -> result (list bool)) * (nat -> string)))
      (issues : list string) :
  run_checks df (cs1 ++ cs2) issues
  = rbind (run_checks df cs1 issues) (run_checks df cs2).
Proof.
  revert issues. induction cs1 as [|[[c m] msg] rest IH]; intros issues; simpl; auto.
  destruct (check_result df c m msg issues); simpl; auto.
Qed.

(** The loop over the four core score columns. *)
Lemma score_loop (cols : list string) (issues : list string) (w : World) :
  for_fold cols issues (fun issues col =>
      present <- contains col ;;
      if present : bool then
        s <- getitem col ;;
        mask <- lift (out_of_range s) ;;
        df <- the_frame ;;
        invalid_scores <- lift (column_of (Pd.loc df mask) col) ;;
        if Nat.ltb 0 (len invalid_scores) then
          ret (append issues ("Found " ++ str_nat (len invalid_scores)
                              ++ " invalid scores in " ++ col)%string)
        else ret issues
      else ret issues) w
  = (run_checks (frame w)
       (map (fun col => (col, out_of_range, score_message col)) cols) issues, w).
Proof.
  revert issues. induction cols as [|c rest IH]; intros issues; [reflexivity|].
  cbn [for_fold map run_checks].
  unfold bind at 1.
  pose proof (check_block_result w c issues out_of_range (score_message c)) as E.
  cbv beta delta [score_message] in E. rewrite E. clear E.
  fold (score_message c).
  destruct (check_result (frame w) c out_of_range (score_message c) issues) as [i|e];
    cbn [rbind]; [apply IH|reflexivity].
Qed.

(** The Validator, whatever the table: it logs one line and makes its checks
    in order; the first comparison that raises ends it. *)
Lemma validate_data_outcome (w : World) :
  validate_data w
  = (run_checks (frame w) checks [],
     mkWorld (frame w) (log w ++ [(INFO, "Validating data")])).
Proof.
  unfold validate_data.
  unfold bind at 1. unfold logger_info at 1.
  set (w0 := mkWorld (frame w) (log w ++ [(INFO, "Validating data")])).
  change (frame w) with (frame w0).
  unfold checks. rewrite run_checks_app.
  unfold bind at 1. rewrite score_loop.
  destruct (run_checks (frame w0) _ []) as [i1|e]; cbn [rbind]; [|reflexivity].
  epose proof (check_block_result_then w0 "NU_NOTA_REDACAO" i1 out_of_range essay_message _) as E.
  cbv beta delta [essay_message] in E. rewrite E. clear E.
  fold essay_message. cbn [run_checks].
  destruct (check_result (frame w0) "NU_NOTA_REDACAO" out_of_range essay_message i1)
    as [i2|e]; cbn [rbind]; [|reflexivity].
  epose proof (check_block_result_then w0 "TP_FAIXA_ETARIA" i2 (fun s => Pd.lt s 1) age_message _) as E.
  cbv beta delta [age_message] in E. rewrite E. clear E.
  fold age_message.
  destruct (check_result (frame w0) "TP_FAIXA_ETARIA" (fun s => Pd.lt s 1) age_message i2)
    as [i3|e]; cbn [rbind]; reflexivity.
Qed.

Lemma traverse_map {A B} (f : A -> result B) (g : A -> B) (xs : list A) :
  (forall x, In x xs -> f x = Ok (g x)) -> traverse f xs = Ok (map g xs).
Proof.
  induction xs as [|x rest IH]; simpl; intros H; auto.
  rewrite (H x) by auto. simpl. rewrite IH by auto. reflexivity.
Qed.

Lemma traverse_raises {A B} (f : A -> result B) (xs : list A) (good : exn -> Prop) :
  (forall x e, f x = Raise e -> good e) ->
  (exists x, In x xs /\ exists e, f x = Raise e) ->
  exists e, traverse f xs = Raise e /\ good e.
Proof.
  intros Hg. induction xs as [|x rest IH]; intros [y [Hin [e He]]]; [destruct Hin|].
  simpl. destruct (f x) as [b|e0] eqn:Fx; simpl.
  - destruct Hin as [->|Hin]; [congruence|].
    destruct IH as [e1 [H1 G1]]; eauto. rewrite H1. simpl. eauto.
  - eauto.
Qed.

Lemma compare_cells_comparable (fz : Z -> bool) (ff : float -> bool) (s : Series) :
  comparable s = true ->
  Pd.compare_cells fz ff s = Ok (map (cellwise fz ff) (values s)).
Proof.
  destruct s as [w xs|p xs|xs|xs]; simpl; try discriminate.
  - intros _. now rewrite map_map.
  - intros _. now rewrite map_map.
  - intros H. apply traverse_map. intros v Hv.
    rewrite forallb_forall in H. specialize (H v Hv).
    destruct v; try discriminate; reflexivity.
Qed.

Lemma compare_cells_incomparable (fz : Z -> bool) (ff : float -> bool) (s : Series) :
  comparable s = false ->
  exists e, Pd.compare_cells fz ff s = Raise e /\ is_type_error e = true.
Proof.
  destruct s as [w xs|p xs|xs|xs]; simpl; try discriminate.
  - eauto.
  - intros H.
    apply (traverse_raises _ xs (fun e => is_type_error e = true)).
    + intros v e. destruct v; try discriminate; intros E; inversion E; reflexivity.
    + assert (exists v, In v xs /\ Pd.is_int_cell v || Pd.is_float_cell v = false)
        as [v [Hin Hv]].
      { clear -H. induction xs as [|x rest IH]; simpl in H; [discriminate|].
        destruct (Pd.is_int_cell x || Pd.is_float_cell x) eqn:E.
        - destruct (IH H) as [v [Hin Hv]]. exists v. split; auto. now right.
        - exists x. split; auto. now left. }
      exists v. split; auto. destruct v; try discriminate; eauto.
Qed.

(** The two masks of the Validator on a comparable column. *)
Lemma out_of_range_comparable (s : Series) :
  comparable s = true ->
  exists mask, out_of_range s = Ok mask
               /\ len (Pd.take_rows mask s) = count_cells invalid_score s.
Proof.
  intros H. destruct (is_numeric s) eqn:N; [now apply out_of_range_count|].
  destruct s as [w xs|p xs|xs|xs]; try discriminate.
  unfold out_of_range, Pd.lt, Pd.gt.
  rewrite !compare_cells_comparable by assumption. cbn [rbind values].
  eexists. split; [reflexivity|].
  unfold Pd.notna_mask, count_cells, len. cbn [values Pd.take_rows].
  rewrite mask_or_map, mask_and_map, select_map.
  f_equal. apply filter_ext_in. intros v Hv.
  simpl in H. rewrite forallb_forall in H. specialize (H v Hv).
  destruct v; try discriminate; reflexivity.
Qed.

Lemma below_one_comparable (s : Series) :
  comparable s = true ->
  exists mask, Pd.lt s 1 = Ok mask
               /\ len (Pd.take_rows mask s) = count_cells invalid_age s.
Proof.
  intros H. destruct (is_numeric s) eqn:N; [now apply below_one_count|].
  destruct s as [w xs|p xs|xs|xs]; try discriminate.
  unfold Pd.lt. rewrite compare_cells_comparable by assumption. cbn [values].
  eexists. split; [reflexivity|].
  unfold count_cells, len. cbn [values Pd.take_rows].
  rewrite select_map. reflexivity.
Qed.

Lemma out_of_range_incomparable (s : Series) :
  comparable s = false ->
  exists e, out_of_range s = Raise e /\ is_type_error e = true.
Proof.
  intros H. unfold out_of_range, Pd.lt.
  destruct (compare_cells_incomparable (fun z => Z.ltb z 0)
              (fun f => PrimFloat.ltb f (Fl.of_Z 0)) s H) as [e [E T]].
  rewrite E. simpl. eauto.
Qed.

Lemma below_one_incomparable (s : Series) :
  comparable s = false ->
  exists e, Pd.lt s 1 = Raise e /\ is_type_error e = true.
Proof. intros H. now apply compare_cells_incomparable. Qed.

Lemma check_result_issue (df : DataFrame) (col : string)
      (mask_of : Series -> result (list bool)) (test : scalar -> bool)
      (message : nat -> string) (issues : list string) :
  (forall s, get_col df col = Some s ->
             exists mask, mask_of s = Ok mask
                          /\ len (Pd.take_rows mask s) = count_cells test s) ->
  check_result df col mask_of message issues
  = Ok (issues ++ issue_for df col test message)%list.
Proof.
  intros H. unfold check_result, issue_for.
  destruct (get_col df col) as [s|]; [|now rewrite app_nil_r].
  destruct (H s eq_refl) as [mask [Hm Hl]]. rewrite Hm. cbn [rbind]. cbv zeta.
  rewrite Hl. destruct (Nat.ltb 0 (count_cells test s)); [reflexivity|].
  now rewrite app_nil_r.
Qed.

Lemma run_checks_raises (df : DataFrame)
      (cs : list (string * (Series -> result (list bool)) * (nat -> string))) :
  forall issues e,
    run_checks df cs issues = Raise e ->
    exists c m msg s, In (c, m, msg) cs /\ get_col df c = Some s /\ m s = Raise e.
Proof.
  induction cs as [|[[c m] msg] rest IH]; intros issues e H; simpl in H; [discriminate|].
  destruct (check_result df c m msg issues) as [i|e0] eqn:R; simpl in H.
  - destruct (IH _ _ H) as [c' [m' [msg' [s [Hin Hs]]]]].
    exists c', m', msg', s. split; [now right|auto].
  - inversion H. subst e0. unfold check_result in R.
    destruct (get_col df c) as [s|] eqn:G; [|discriminate].
    destruct (m s) as [mask|e1] eqn:M; simpl in R; [discriminate|].
    inversion R. subst. exists c, m, msg, s. split; [now left|auto].
Qed.

Lemma run_checks_returns (df : DataFrame)
      (cs : list (string * (Series -> result (list bool)) * (nat -> string))) :
  forall issues issues',
    run_checks df cs issues = Ok issues' ->
    forall c m msg s, In (c, m, msg) cs -> get_col df c = Some s ->
                      exists mask, m s = Ok mask.
Proof.
  induction cs as [|[[c m] msg] rest IH]; intros issues issues' H c' m' msg' s Hin G;
    [destruct Hin|].
  simpl in H.
  destruct (check_result df c m msg issues) as [i|e0] eqn:R; simpl in H; [|discriminate].
  destruct Hin as [Heq|Hin]; [|eapply IH; eauto].
  inversion Heq. subst. unfold check_result in R. rewrite G in R.
  destruct (m' s) as [mask|e1]; [eauto|discriminate].
Qed.

Lemma checks_masks (c : string) (m : Series -> result (list bool)) (msg : nat -> string) :
  In (c, m, msg) checks ->
  In c checked_cols /\ (m = out_of_range \/ m = (fun s => Pd.lt s 1)).
Proof.
  unfold checks, checked_cols. simpl. intros H.
  repeat match goal with
         | H : _ \/ _ |- _ => destruct H as [H|H]
         | H : (_, _) = (_, _) |- _ => inversion H; clear H; subst
         | H : False |- _ => destruct H
         end; tauto.
Qed.

Lemma checked_cols_checks (c : string) :
  In c checked_cols -> exists m msg, In (c, m, msg) checks.
Proof.
  unfold checks, checked_cols. simpl. intros H.
  repeat match goal with
         | H : _ \/ _ |- _ => destruct H as [H|H]
         | H : False |- _ => destruct H
         end; subst; do 2 eexists; tauto.
Qed.



(** ** Derived-Feature Builder: score columns that are not numeric *)

Lemma as_floats_reducible (s : Series) :
  reducible s = true -> exists fs, Pd.as_floats s = Ok fs.
Proof.
  destruct s as [w xs|p xs|xs|xs]; simpl; try discriminate; eauto.
  intros H. apply traverse_total. intros v Hv.
  rewrite forallb_forall in H. specialize (H v Hv).
  destruct v; try discriminate; eauto.
Qed.

Lemma as_floats_type_error (s : Series) (e : exn) :
  Pd.as_floats s = Raise e -> is_type_error e = true.
Proof.
  destruct s as [w xs|p xs|xs|xs]; simpl; try discriminate.
  - intros H. inversion H. reflexivity.
  - induction xs as [|x rest IH]; simpl; [discriminate|].
    destruct x; simpl;
      try (destruct (traverse _ rest) as [ys|e0]; simpl;
           [discriminate|intros H; inversion H; subst; now apply IH]).
    intros H. inversion H. reflexivity.
Qed.

Lemma rows_type_error (sub : DataFrame) (e : exn) :
  Pd.rows sub = Raise e -> is_type_error e = true.
Proof.
  unfold Pd.rows.
  induction sub as [|[c s] rest IH]; simpl; [discriminate|].
  destruct (Pd.as_floats s) as [fs|e0] eqn:A; simpl.
  - destruct (traverse _ rest) as [cols|e1]; simpl; [discriminate|].
    intros H. inversion H. subst. now apply IH.
  - intros H. inversion H. subst. eapply as_floats_type_error; eauto.
Qed.

Lemma rows_reducible (df sub : DataFrame) :
  scores_reducible df = true -> Pd.subframe df score_cols = Ok sub ->
  exists rs, Pd.rows sub = Ok rs.
Proof.
  intros Hred S. destruct (subframe_get _ _ _ S) as [Hc Hg].
  unfold Pd.rows.
  destruct (traverse_total (fun cs => Pd.as_floats (snd cs)) sub) as [fs Hfs].
  - intros [c s] Hin. simpl. apply as_floats_reducible.
    unfold scores_reducible in Hred. rewrite forallb_forall in Hred.
    assert (In c score_cols) as Hcin.
    { rewrite <- Hc. change c with (fst (c, s)). now apply in_map. }
    specialize (Hred c Hcin). now rewrite (Hg c s Hin) in Hred.
  - rewrite Hfs. simpl. eauto.
Qed.

(** The values of the score sub-table are numbers exactly when the score
    columns are integer or float columns. *)
Lemma object_values_scores (df sub : DataFrame) :
  Pd.subframe df score_cols = Ok sub ->
  Pd.object_values sub = negb (scores_numeric df).
Proof.
  intros S. destruct (scores_numeric df) eqn:N.
  - now apply (numeric_values df).
  - simpl. destruct (subframe_get _ _ _ S) as [Hc Hg].
    unfold scores_numeric in N.
    assert (exists c, In c score_cols
                      /\ match get_col df c with
                         | Some s => is_numeric s
                         | None => true
                         end = false) as [c [Hin Hn]].
    { clear -N. induction score_cols as [|c rest IH]; simpl in N; [discriminate|].
      destruct (match get_col df c with Some s => is_numeric s | None => true end) eqn:E.
      - destruct (IH N) as [c' [Hin Hn]]. exists c'. split; auto. now right.
      - exists c. split; auto. now left. }
    rewrite <- Hc in Hin. apply in_map_iff in Hin. destruct Hin as [[c0 s] [Hfst Hs]].
    simpl in Hfst. subst c0. rewrite (Hg c s Hs) in Hn.
    unfold Pd.object_values. apply existsb_exists. exists (c, s). split; auto.
    destruct s; simpl in *; try discriminate; reflexivity.
Qed.

(** X7.  The Derived-Feature Builder has no handler of its own.  It returns
    exactly when a core score column is absent or all four are integer or
    float columns.  When it raises, the exception is a [TypeError], neither
    BEST_SUBJECT nor WORST_SUBJECT nor any other column than AVERAGE_SCORE
    and SCORE_STD has been touched; and it is not all-or-nothing: when the
    four score columns can be averaged but do not all hold machine numbers
    (an object column of numbers), AVERAGE_SCORE and SCORE_STD have been
    added before the search for the best subject raises. *)
Theorem create_derived_features_returns_iff (df : DataFrame) :
  let r := run create_derived_features df in
  let df' := frame (snd r) in
  ((exists out, fst r = Ok out)
   <-> (forallb (has_col df) score_cols = false \/ scores_numeric df = true))
  /\ (forall e, fst r = Raise e ->
        is_type_error e = true
        /\ forall c, c <> "AVERAGE_SCORE" -> c <> "SCORE_STD" ->
                     get_col df' c = get_col df c)
  /\ (forallb (has_col df) score_cols = true ->
      scores_reducible df = true -> scores_numeric df = false ->
      fst r = Raise argmax_error
      /\ has_col df' "AVERAGE_SCORE" = true
      /\ has_col df' "SCORE_STD" = true).
Proof.
  intros r df'. subst r df'. unfold run.
  rewrite create_derived_features_run. cbv zeta. cbn [frame log].
  destruct (forallb (has_col df) score_cols) eqn:P.
  - destruct (subframe_total df score_cols P) as [sub S]. rewrite S.
    rewrite (object_values_scores df sub S).
    destruct (Pd.rows sub) as [rs|e0] eqn:R.
    + destruct (scores_numeric df) eqn:N; cbn [negb fst snd frame].
      * split; [split; eauto|]. split; [discriminate|]. discriminate.
      * split; [|split].
        -- split; [intros [out H]; discriminate|intros [H|H]; discriminate].
        -- intros e H. inversion H. subst e. split; [reflexivity|].
           intros c Ha Hs. unfold with_scores. cbv zeta.
           now rewrite !get_set_other by assumption.
        -- intros _ _ _. split; [reflexivity|].
           unfold with_scores. cbv zeta. rewrite !has_col_set. simpl.
           split; [|apply orb_true_r].
           rewrite orb_false_r. apply orb_true_r.
    + cbn [fst snd frame]. split; [|split].
      * split; [intros [out H]; discriminate|].
        intros [H|H]; [discriminate|].
        destruct (rows_total df sub H S) as [rs R']. congruence.
      * intros e H. inversion H. subst e0. split; auto.
        eapply rows_type_error; eauto.
      * intros _ Hred _. destruct (rows_reducible df sub Hred S) as [rs R'].
        congruence.
  - cbn [fst snd frame]. split; [|split].
    + split; eauto.
    + discriminate.
    + discriminate.
Qed.

Lemma create_derived_features_returns_iff_witness :
  let df := [("NU_NOTA_CN", ObjectCol [Int 500]);
             ("NU_NOTA_CH", FloatCol F64 [600%float]);
             ("NU_NOTA_LC", FloatCol F64 [700%float]);
             ("NU_NOTA_MT", FloatCol F64 [800%float])] in
  let r := run create_derived_features df in
  fst r = Raise argmax_error
  /\ has_col (frame (snd r)) "AVERAGE_SCORE" = true
  /\ has_col (frame (snd r)) "SCORE_STD" = true.
Proof.
  intros df r.
  apply (proj2 (proj2 (create_derived_features_returns_iff df))); reflexivity.
Defined.
